(** * Social sync worker: a shallow embedding of [SocialSyncService.js]
      and of the worker entry point [handleSync].

    JavaScript strings are modelled as [string]: a sequence of code units
    restricted to the Latin-1 range (one [ascii] per code unit), which is
    the range on which [toLowerCase], [trim] and the regular expressions of
    the service are written out below.  Numbers that the code uses as
    counters or HTTP statuses are [nat]; [postsToSync] is a [Z] because
    [parseInt] may return a negative integer.  Every remote call, clock
    read, timer and key-value access is an effect: a computation takes the
    state of the outside world, returns a value or throws, and emits the
    list of effects it performed, each with the answer it got.
    [console.log] and [console.error] are not modelled: they do not
    influence control flow. *)

From Stdlib Require Import String Ascii List ZArith NArith Arith Bool Lia.
From Stdlib Require Import Decimal DecimalString.
From Stdlib Require DecimalNat DecimalFacts.
Import ListNotations.
Open Scope string_scope.
Open Scope list_scope.

(** ** JavaScript string primitives *)

(** Template-literal rendering of a non-negative integer ([`${n}`]). *)
Definition show_nat (n : nat) : string :=
  NilEmpty.string_of_uint (Nat.to_uint n).

(** [needle] is a prefix of [s]. *)
Fixpoint starts_with (needle s : string) : bool :=
  match needle with
  | EmptyString => true
  | String a needle' =>
      match s with
      | EmptyString => false
      | String b s' => Ascii.eqb a b && starts_with needle' s'
      end
  end.

(** [s.includes(needle)] *)
Fixpoint includes (needle s : string) : bool :=
  match s with
  | EmptyString => starts_with needle EmptyString
  | String _ s' => starts_with needle s || includes needle s'
  end.

Definition code (c : ascii) : N := N_of_ascii c.

Definition in_range (lo hi : N) (c : ascii) : bool :=
  ((lo <=? code c) && (code c <=? hi))%N.

(** Upper-case letters of Latin-1: A-Z, and U+00C0..U+00DE except the
    multiplication sign U+00D7. *)
Definition is_upper (c : ascii) : bool :=
  in_range 65 90 c || (in_range 192 222 c && negb (code c =? 215)%N).

(** Lower-case letters of Latin-1 whose upper case is again in Latin-1:
    a-z, and U+00E0..U+00FE except the division sign U+00F7. *)
Definition is_lower (c : ascii) : bool :=
  in_range 97 122 c || (in_range 224 254 c && negb (code c =? 247)%N).

Definition lower_char (c : ascii) : ascii :=
  if is_upper c then ascii_of_N (code c + 32) else c.

Definition upper_char (c : ascii) : ascii :=
  if is_lower c then ascii_of_N (code c - 32) else c.

(** [s.toLowerCase()] *)
Fixpoint toLowerCase (s : string) : string :=
  match s with
  | EmptyString => EmptyString
  | String c s' => String (lower_char c) (toLowerCase s')
  end.

(** White space and line terminators of ECMAScript below U+0100:
    TAB, LF, VT, FF, CR, SPACE and NO-BREAK SPACE. *)
Definition is_ws (c : ascii) : bool :=
  in_range 9 13 c || (code c =? 32)%N || (code c =? 160)%N.

Fixpoint trimStart (s : string) : string :=
  match s with
  | EmptyString => EmptyString
  | String c s' => if is_ws c then trimStart s' else s
  end.

Fixpoint trimEnd (s : string) : string :=
  match s with
  | EmptyString => EmptyString
  | String c s' =>
      match trimEnd s' with
      | EmptyString => if is_ws c then EmptyString else String c EmptyString
      | t => String c t
      end
  end.

(** [s.trim()] *)
Definition trim (s : string) : string := trimEnd (trimStart s).

(** ** Thrown values and outcomes *)

(** An error object as [withRateLimit] inspects it: [error.message] and
    [error.status] ([None] when the property is absent, as on a plain
    [new Error(...)]). *)
Record JsError := mkError { message : string; status : option nat }.

(** [new Error(msg)] *)
Definition Error (msg : string) : JsError := mkError msg None.

Inductive Outcome (A : Type) : Type :=
| Ok (a : A)
| Throw (e : JsError).
Arguments Ok {A} a.
Arguments Throw {A} e.

(** ** Data exchanged with the two platforms *)

(** [post.post.record.reply] of a Bluesky feed item, when present. *)
Record ReplyRef := mkReplyRef { reply_root : string; reply_parent : string }.

(** [post.post.record] *)
Record BskyRecord := mkBskyRecord { rec_text : string; rec_reply : option ReplyRef }.

(** [post.post] *)
Record BskyPostView := mkBskyPostView
  { uri : string; indexedAt : string; record : BskyRecord }.

(** [post.reason] of a feed item, present when the item is a repost: who
    reposted and when ([app.bsky.feed.defs#reasonRepost]). *)
Record ReasonRepost := mkReasonRepost
  { reason_by : string; reason_indexedAt : string }.

(** An element of [bskyPosts.data.feed]: the post and, for a repost, the
    reason it is in the feed. *)
Record FeedItem := mkFeedItem
  { post : BskyPostView; reason : option ReasonRepost }.

(** What [bsky.post] resolves to. *)
Record BskyRef := mkBskyRef { ref_uri : string; ref_cid : string }.

(** [post.account] of a Mastodon status. *)
Record MastodonAccount := mkMastodonAccount
  { username : string; acct : string; account_id : string }.

(** [post.reblog] of a Mastodon status, when present. *)
Record Reblog := mkReblog { reblog_id : string }.

(** An element of the home timeline. *)
Record MastodonPost := mkMastodonPost
  { id : string; created_at : string; content : string;
    reblog : option Reblog; account : MastodonAccount }.

(** What [POST /api/v1/statuses] answers. *)
Record MastodonStatus := mkMastodonStatus { status_id : string }.

(** What [GET /api/v1/instance] answers. *)
Record Instance := mkInstance { instance_uri : string }.

(** The body of the status-creation request,
    [JSON.stringify({ status, visibility })], kept structured. *)
Record StatusBody := mkStatusBody { body_status : string; visibility : string }.

(** One call of [fetch] by [mastodonRequest]: the endpoint to resolve
    against the instance URL, the bearer token and the options.  The
    resolution [new URL(endpoint, mastodonUrl)] is part of the call: a
    malformed URL is one of the ways the call throws.  [req_limit] is
    [options.params.limit]: the caller's options are spread into the
    options of [fetch], and nothing puts it into the URL, whose query
    string is the endpoint's own (none, for the endpoints used). *)
Record Request := mkRequest
  { req_base : string; req_endpoint : string; req_token : string;
    req_method : option string; req_body : option StatusBody;
    req_limit : option Z }.

(** A [fetch] response whose JSON body has type [J]: the answers of the
    platforms are taken to be well typed, and reading the text of an
    error response not to fail; [response.json()] may throw. *)
Record Response (J : Type) := mkResponse
  { ok : bool; http_status : nat; body_text : string; body_json : Outcome J }.
Arguments mkResponse {J}.
Arguments ok {J}.
Arguments http_status {J}.
Arguments body_text {J}.
Arguments body_json {J}.

(** ** Effects *)

(** Every effect the worker performs, with the answer it received. *)
Inductive event : Type :=
| EvFetchInstance (base : string) (r : Outcome (Response Instance))
| EvFetchAccount (q : Request) (r : Outcome (Response MastodonAccount))
| EvFetchTimeline (q : Request) (r : Outcome (Response (list MastodonPost)))
| EvFetchStatus (q : Request) (r : Outcome (Response MastodonStatus))
| EvBskyLogin (identifier password : string) (r : Outcome unit)
| EvGetAuthorFeed (actor : string) (limit : Z) (r : Outcome (list FeedItem))
| EvBskyPost (text createdAt : string) (r : Outcome BskyRef)
| EvNow (t : string)
| EvSleep (ms : nat)
| EvKvGet (key : string) (r : Outcome (option string))
| EvKvPut (key value : string) (r : Outcome unit).

(** The outside world as the worker reaches it: the JavaScript runtime
    ([Date] parsing, the clock, timers), the two platforms and the
    key-value store.  [W] is the state of that world; each capability
    answers and moves the world on.  [date_value s] is the time value of
    [new Date(s)], [None] for an invalid date. *)
Class Runtime (W : Type) := mkRuntime
  { date_value : string -> option Z;
    clock : W -> string * W;
    sleep : nat -> W -> W;
    fetch_instance : string -> W -> Outcome (Response Instance) * W;
    fetch_account : Request -> W -> Outcome (Response MastodonAccount) * W;
    fetch_timeline : Request -> W -> Outcome (Response (list MastodonPost)) * W;
    fetch_status : Request -> W -> Outcome (Response MastodonStatus) * W;
    bsky_login : string -> string -> W -> Outcome unit * W;
    bsky_getAuthorFeed : string -> Z -> W -> Outcome (list FeedItem) * W;
    bsky_post : string -> string -> W -> Outcome BskyRef * W;
    kv_get : string -> W -> Outcome (option string) * W;
    kv_put : string -> string -> W -> Outcome unit * W }.

(** An asynchronous computation: from a world to an outcome, the effects
    performed in order, and the world afterwards.  A thrown error does
    not undo the effects already performed. *)
Definition M (W A : Type) : Type := W -> Outcome A * list event * W.

Definition ret {W A} (a : A) : M W A := fun w => (Ok a, [], w).

Definition throw {W A} (e : JsError) : M W A := fun w => (Throw e, [], w).

Definition bind {W A B} (m : M W A) (k : A -> M W B) : M W B :=
  fun w =>
    match m w with
    | (Ok a, evs, w1) =>
        match k a w1 with
        | (o, evs', w2) => (o, evs ++ evs', w2)
        end
    | (Throw e, evs, w1) => (Throw e, evs, w1)
    end.

(** [try { m } catch (error) { h error }] *)
Definition try_catch {W A} (m : M W A) (h : JsError -> M W A) : M W A :=
  fun w =>
    match m w with
    | (Ok a, evs, w1) => (Ok a, evs, w1)
    | (Throw e, evs, w1) =>
        match h e w1 with
        | (o, evs', w2) => (o, evs ++ evs', w2)
        end
    end.

Declare Scope js_scope.
Delimit Scope js_scope with js.
Notation "x <- m ;; k" := (bind m (fun x => k))
  (at level 61, m at next level, right associativity) : js_scope.
Notation "m ;;; k" := (bind m (fun _ => k))
  (at level 61, right associativity) : js_scope.
Open Scope js_scope.

(** A capability call that may throw. *)
Definition perform {W A} (op : W -> Outcome A * W) (ev : Outcome A -> event)
  : M W A :=
  fun w => match op w with (o, w') => (o, [ev o], w') end.

(** [await value] of an already settled outcome. *)
Definition settle {W A} (o : Outcome A) : M W A := fun w => (o, [], w).

Definition outcome_of {W A} (r : Outcome A * list event * W) : Outcome A :=
  fst (fst r).
Definition emitted {W A} (r : Outcome A * list event * W) : list event :=
  snd (fst r).
Definition world_of {W A} (r : Outcome A * list event * W) : W := snd r.

(** [new Date().toISOString()] *)
Definition now {W} `{Runtime W} : M W string :=
  fun w => match clock w with (t, w') => (Ok t, [EvNow t], w') end.

(** [await new Promise(resolve => setTimeout(resolve, ms))] *)
Definition delay {W} `{Runtime W} (ms : nat) : M W unit :=
  fun w => (Ok tt, [EvSleep ms], sleep ms w).

(** ** [withRateLimit] *)

(** The test of the [catch] block:
    [error.message.includes('rate limit') || error.status === 429]. *)
Definition is_rate_limit (e : JsError) : bool :=
  includes "rate limit" (message e) ||
  match status e with Some s => Nat.eqb s 429 | None => false end.

(** The [for] loop of [withRateLimit], entered with counter [i] and
    [left = retries - i] iterations to go. *)
Fixpoint withRateLimit_from {W} `{Runtime W} {A}
  (fn : M W A) (retries i left : nat) : M W A :=
  match left with
  | O => throw (Error ("Failed after " ++ show_nat retries ++ " retries")%string)
  | S left' =>
      try_catch fn (fun error =>
        if is_rate_limit error then
          let waitTime := Nat.pow 2 i * 1000 in
          delay waitTime ;;;
          withRateLimit_from fn retries (S i) left'
        else throw error)
  end.

Definition withRateLimit {W} `{Runtime W} {A} (fn : M W A) (retries : nat)
  : M W A :=
  withRateLimit_from fn retries 0 retries.

(** The default of the [retries] parameter. *)
Definition default_retries : nat := 3.

(** [k] attempts in a row, the first one with counter [i], each of which
    failed with a rate-limit error and was followed by its wait: the
    effects of those attempts and waits, and the world in which the next
    attempt is made. *)
Inductive Throttled {W} `{Runtime W} {A} (fn : M W A)
  : nat -> nat -> W -> list event -> W -> Prop :=
| throttled_none i w : Throttled fn i 0 w [] w
| throttled_again i k w e evs w1 evs' w2 :
    fn w = (Throw e, evs, w1) ->
    is_rate_limit e = true ->
    Throttled fn (S i) k (sleep (2 ^ i * 1000) w1) evs' w2 ->
    Throttled fn i (S k) w (evs ++ EvSleep (2 ^ i * 1000) :: evs') w2.

(** ** Regular expressions

    The fragment of ECMAScript regular expressions that
    [cleanMastodonContent] uses: literal characters, sequences, the greedy
    option [r?], greedy and lazy repetition of a one-character class
    ([\s*], [[^>]*], [.*?]) and numbered capture groups.  [mtch] lists
    every way the expression matches a prefix of the subject, in the
    order in which a backtracking matcher tries them, so its head is the
    match JavaScript reports. *)

Inductive regex : Type :=
| Eps
| Chr (c : ascii)
| Seq (r1 r2 : regex)
| Opt (r : regex)
| Star (greedy : bool) (p : ascii -> bool)
| Group (n : nat) (r : regex).

(** Captured groups, innermost-first; the replacement reads a group by
    its number. *)
Definition caps : Type := list (nat * string).

Fixpoint cap (n : nat) (k : caps) : string :=
  match k with
  | [] => EmptyString
  | (m, s) :: k' => if Nat.eqb m n then s else cap n k'
  end.

(** Character comparison, under the [i] flag by canonical (upper-case)
    form. *)
Definition char_eq (ci : bool) (c d : ascii) : bool :=
  if ci then Ascii.eqb (upper_char c) (upper_char d) else Ascii.eqb c d.

(** The splits of [s] after a run of characters of class [p]: longest
    run first when greedy, shortest first when lazy. *)
Fixpoint star_splits (greedy : bool) (p : ascii -> bool) (s : string)
  : list (string * string) :=
  match s with
  | EmptyString => [(EmptyString, EmptyString)]
  | String c s' =>
      if p c then
        let more :=
          map (fun ab => (String c (fst ab), snd ab)) (star_splits greedy p s') in
        if greedy then more ++ [(EmptyString, s)]
        else (EmptyString, s) :: more
      else [(EmptyString, s)]
  end.

(** A match: the text consumed, the rest of the subject, the captures. *)
Definition mres : Type := string * string * caps.

Fixpoint mtch (ci : bool) (r : regex) (s : string) : list mres :=
  match r with
  | Eps => [(EmptyString, s, [])]
  | Chr c =>
      match s with
      | String d s' =>
          if char_eq ci c d then [(String d EmptyString, s', [])] else []
      | EmptyString => []
      end
  | Seq r1 r2 =>
      flat_map (fun m1 : mres =>
        match m1 with (a, rest, k1) =>
          map (fun m2 : mres =>
            match m2 with (b, rest', k2) => ((a ++ b)%string, rest', k1 ++ k2) end)
            (mtch ci r2 rest)
        end) (mtch ci r1 s)
  | Opt r' => mtch ci r' s ++ [(EmptyString, s, [])]
  | Star g p => map (fun ab => (fst ab, snd ab, [])) (star_splits g p s)
  | Group n r' =>
      map (fun m : mres =>
        match m with (a, rest, k) => (a, rest, (n, a) :: k) end) (mtch ci r' s)
  end.

(** [s.replace(/r/g, repl)]: scan left to right; at each position not
    inside the previous match try the expression; a match is replaced
    and the scan resumes after it (one character further after an empty
    match). [skip] counts the characters still covered by the last
    match. *)
Fixpoint replace_from (ci : bool) (r : regex) (repl : caps -> string)
  (s : string) (skip : nat) : string :=
  match s with
  | EmptyString =>
      match skip, mtch ci r EmptyString with
      | O, (_, _, k) :: _ => repl k
      | _, _ => EmptyString
      end
  | String c s' =>
      match skip with
      | S n => replace_from ci r repl s' n
      | O =>
          match mtch ci r s with
          | (a, _, k) :: _ =>
              match String.length a with
              | O => (repl k ++ String c (replace_from ci r repl s' 0))%string
              | S n => (repl k ++ replace_from ci r repl s' n)%string
              end
          | [] => String c (replace_from ci r repl s' 0)
          end
      end
  end.

Definition replace_all (ci : bool) (r : regex) (repl : caps -> string)
  (s : string) : string :=
  replace_from ci r repl s 0.

Fixpoint seqs (rs : list regex) : regex :=
  match rs with
  | [] => Eps
  | r :: rs' => match rs' with [] => r | _ => Seq r (seqs rs') end
  end.

Fixpoint lit (s : string) : list regex :=
  match s with
  | EmptyString => []
  | String c s' => Chr c :: lit s'
  end.

Definition nl : ascii := "010"%char.
Definition dquote : ascii := "034"%char.
Definition gt : ascii := ">"%char.
Definition lt : ascii := "<"%char.

Definition not_char (c d : ascii) : bool := negb (Ascii.eqb c d).

(** [.]: any character but a line terminator (LF, CR below U+0100). *)
Definition dot (c : ascii) : bool :=
  negb (Ascii.eqb c nl) && negb (Ascii.eqb c "013"%char).

(** [/<br\s*\/?>/gi] *)
Definition re_br : regex :=
  seqs (lit "<br" ++ [Star true is_ws; Opt (Chr "/"); Chr gt]).

(** [/<p>(.*?)<\/p>/gi] *)
Definition re_p : regex :=
  seqs (lit "<p>" ++ [Group 1 (Star false dot)] ++ lit "</p>").

(** The link rule, flags [gi]: [<a], [[^>]*], [href=], a double quote,
    group 1 = [[^Q]*] (Q the double quote), a double quote, [[^>]*], [>],
    group 2 = [.*?], [</a>]. *)
Definition re_a : regex :=
  seqs (lit "<a" ++ [Star true (not_char gt)] ++ lit "href=" ++
        [Chr dquote; Group 1 (Star true (not_char dquote)); Chr dquote;
         Star true (not_char gt); Chr gt; Group 2 (Star false dot)] ++
        lit "</a>").

(** [/<[^>]*>/g] *)
Definition re_tag : regex :=
  seqs [Chr lt; Star true (not_char gt); Chr gt].

(** [/\n{3,}/g] *)
Definition re_newlines : regex :=
  seqs [Chr nl; Chr nl; Chr nl; Star true (Ascii.eqb nl)].

Definition newline : string := String nl EmptyString.

(** ** [cleanMastodonContent] *)

Definition cleanMastodonContent (html : string) : string :=
  let text := replace_all true re_br (fun _ => newline) html in
  let text :=
    replace_all true re_p (fun k => cap 1 k ++ newline ++ newline)%string text in
  let text :=
    replace_all true re_a
      (fun k => cap 2 k ++ " (" ++ cap 1 k ++ ")")%string text in
  let text := replace_all false re_tag (fun _ => EmptyString) text in
  let text :=
    replace_all false re_newlines (fun _ => newline ++ newline)%string text in
  trim text.

(** ** Configuration and results *)

Record SyncConfig := mkSyncConfig
  { debug : bool;
    postsToSync : Z;
    ignoreReposts : bool;
    lastSync : option string;
    mastodonUrl : string;
    mastodonUsername : string;
    mastodonAccessToken : string;
    blueskyUsername : string;
    blueskyPassword : string;
    dryRun : bool }.

Inductive Platform : Type := bluesky | mastodon.

Record SyncedPost := mkSyncedPost
  { source : Platform;
    sourceId : string;
    targetId : string;
    text : string;
    simulated : bool;
    timestamp : string }.

Record SyncResults := mkSyncResults
  { results_timestamp : string;
    blueskyToMastodon : list SyncedPost;
    mastodonToBluesky : list SyncedPost;
    results_dryRun : bool }.

(** The fields the constructor copies onto [this].  [config.dryRun || false]
    is [config.dryRun] for a boolean. *)
Record SocialSyncService := mkService
  { config : SyncConfig;
    this_debug : bool;
    this_postsToSync : Z;
    this_ignoreReposts : bool;
    this_lastSync : option string;
    this_dryRun : bool }.

Definition constructor (config : SyncConfig) : SocialSyncService :=
  {| config := config;
     this_debug := debug config;
     this_postsToSync := postsToSync config;
     this_ignoreReposts := ignoreReposts config;
     this_lastSync := lastSync config;
     this_dryRun := dryRun config || false |}.

(** Truthiness of a value that is a string or [null]. *)
Definition truthy (o : option string) : bool :=
  match o with
  | Some s => negb (String.eqb s EmptyString)
  | None => false
  end.

(** Truthiness of a value that is an object or absent. *)
Definition present {A} (o : option A) : bool :=
  match o with Some _ => true | None => false end.

(** [new Date(a) <= new Date(b)]: false as soon as one date is invalid. *)
Definition date_le {W} `{Runtime W} (a b : string) : bool :=
  match date_value a, date_value b with
  | Some x, Some y => (x <=? y)%Z
  | _, _ => false
  end.

(** [this.lastSync && new Date(t) <= new Date(this.lastSync)] *)
Definition older_than_lastSync {W} `{Runtime W}
  (svc : SocialSyncService) (t : string) : bool :=
  match this_lastSync svc with
  | Some ls => truthy (Some ls) && date_le t ls
  | None => false
  end.

(** ** [mastodonRequest] *)

Definition mastodonRequest {W} `{Runtime W} {J}
  (svc : SocialSyncService)
  (fetch : Request -> W -> Outcome (Response J) * W)
  (ev : Request -> Outcome (Response J) -> event)
  (endpoint : string) (method : option string) (body : option StatusBody)
  (limit : option Z) : M W J :=
  let q := mkRequest (mastodonUrl (config svc)) endpoint
             (mastodonAccessToken (config svc)) method body limit in
  response <- perform (fetch q) (ev q) ;;
  if negb (ok response) then
    throw (Error ("Mastodon API error: " ++ show_nat (http_status response)
                  ++ " " ++ body_text response)%string)
  else settle (body_json response).

(** ** [initialize] *)

Definition initialize {W} `{Runtime W} (svc : SocialSyncService) : M W unit :=
  try_catch
    (instanceResponse <-
       perform (fetch_instance (mastodonUrl (config svc)))
               (EvFetchInstance (mastodonUrl (config svc))) ;;
     (if negb (ok instanceResponse) then
        throw (Error ("Cannot reach Mastodon instance: "
                      ++ show_nat (http_status instanceResponse))%string)
      else ret tt) ;;;
     _instance <- settle (body_json instanceResponse) ;;
     _account <- mastodonRequest svc fetch_account EvFetchAccount
                   "/api/v1/accounts/verify_credentials" None None None ;;
     ret tt)
    (fun error => throw error) ;;;
  try_catch
    (perform (bsky_login (blueskyUsername (config svc))
                         (blueskyPassword (config svc)))
             (EvBskyLogin (blueskyUsername (config svc))
                          (blueskyPassword (config svc))))
    (fun error => throw error).

(** ** The two directions *)

(** The [for ... of] loop of both directions: the body either pushes a
    record, or [continue]s ([None]), or throws, in which case the [catch]
    inside the loop [continue]s as well. *)
Fixpoint for_of {W X} (body : X -> M W (option SyncedPost)) (xs : list X)
  (syncedPosts : list SyncedPost) : M W (list SyncedPost) :=
  match xs with
  | [] => ret syncedPosts
  | x :: xs' =>
      pushed <- try_catch (body x) (fun _ => ret None) ;;
      for_of body xs'
        (match pushed with
         | Some p => syncedPosts ++ [p]
         | None => syncedPosts
         end)
  end.

(** The publish call of the Bluesky-to-Mastodon direction. *)
Definition publish_to_mastodon {W} `{Runtime W} (svc : SocialSyncService)
  (text : string) : M W MastodonStatus :=
  withRateLimit
    (mastodonRequest svc fetch_status EvFetchStatus "/api/v1/statuses"
       (Some "POST") (Some (mkStatusBody text "public")) None)
    default_retries.

(** The body of the [try] block of [syncFromBluesky]; [item] is the loop
    variable, so [post item] is [post.post]. *)
Definition bluesky_body {W} `{Runtime W} (svc : SocialSyncService)
  (item : FeedItem) : M W (option SyncedPost) :=
  if older_than_lastSync svc (indexedAt (post item)) then ret None
  else if this_ignoreReposts svc
          && present (rec_reply (record (post item))) then ret None
  else
    let text := rec_text (record (post item)) in
    targetId <-
      (if negb (this_dryRun svc) then
         mastoPost <- publish_to_mastodon svc text ;;
         ret (status_id mastoPost)
       else ret "DRY_RUN") ;;
    ret (Some {| source := bluesky;
                 sourceId := uri (post item);
                 targetId := targetId;
                 text := text;
                 simulated := this_dryRun svc;
                 timestamp := indexedAt (post item) |}).

Definition fetch_feed {W} `{Runtime W} (svc : SocialSyncService)
  : M W (list FeedItem) :=
  withRateLimit
    (perform (bsky_getAuthorFeed (blueskyUsername (config svc))
                                 (this_postsToSync svc))
             (EvGetAuthorFeed (blueskyUsername (config svc))
                              (this_postsToSync svc)))
    default_retries.

Definition syncFromBluesky {W} `{Runtime W} (svc : SocialSyncService)
  : M W (list SyncedPost) :=
  bskyPosts <- fetch_feed svc ;;
  for_of (bluesky_body svc) bskyPosts [].

(** The publish call of the Mastodon-to-Bluesky direction; [createdAt] is
    read from the clock inside the retried operation. *)
Definition publish_to_bluesky {W} `{Runtime W} (text : string)
  : M W BskyRef :=
  withRateLimit
    (createdAt <- now ;;
     perform (bsky_post text createdAt) (EvBskyPost text createdAt))
    default_retries.

(** The body of the [try] block of [syncFromMastodon]. *)
Definition mastodon_body {W} `{Runtime W} (svc : SocialSyncService)
  (post : MastodonPost) : M W (option SyncedPost) :=
  if older_than_lastSync svc (created_at post) then ret None
  else if this_ignoreReposts svc && present (reblog post) then ret None
  else if negb (String.eqb (toLowerCase (username (account post)))
                           (toLowerCase (mastodonUsername (config svc))))
  then ret None
  else
    let text := cleanMastodonContent (content post) in
    targetId <-
      (if negb (this_dryRun svc) then
         bskyPost <- publish_to_bluesky text ;;
         ret (ref_uri bskyPost)
       else ret "DRY_RUN") ;;
    ret (Some {| source := mastodon;
                 sourceId := id post;
                 targetId := targetId;
                 text := text;
                 simulated := this_dryRun svc;
                 timestamp := created_at post |}).

Definition fetch_timeline_posts {W} `{Runtime W} (svc : SocialSyncService)
  : M W (list MastodonPost) :=
  withRateLimit
    (mastodonRequest svc fetch_timeline EvFetchTimeline
       "/api/v1/timelines/home" None None (Some (this_postsToSync svc)))
    default_retries.

Definition syncFromMastodon {W} `{Runtime W} (svc : SocialSyncService)
  : M W (list SyncedPost) :=
  timelinePosts <- fetch_timeline_posts svc ;;
  for_of (mastodon_body svc) timelinePosts [].

(** ** [sync] *)

Definition sync {W} `{Runtime W} (svc : SocialSyncService) : M W SyncResults :=
  try_catch
    (initialize svc ;;;
     currentTime <- now ;;
     fromBluesky <- syncFromBluesky svc ;;
     fromMastodon <- syncFromMastodon svc ;;
     ret {| results_timestamp := currentTime;
            blueskyToMastodon := fromBluesky;
            mastodonToBluesky := fromMastodon;
            results_dryRun := this_dryRun svc |})
    (fun error => throw error).

(** ** The worker: [handleSync] *)

(** [parseInt(string)] with no radix, on the digits of a string in a
    given radix. *)
Definition digit_value (radix : Z) (c : ascii) : option Z :=
  let n := Z.of_N (code c) in
  let v :=
    if in_range 48 57 c then Some (n - 48)%Z
    else if in_range 97 122 c then Some (n - 87)%Z
    else if in_range 65 90 c then Some (n - 55)%Z
    else None in
  match v with
  | Some d => if (d <? radix)%Z then Some d else None
  | None => None
  end.

(** The value of the longest prefix of digits, after [acc]; [seen] tells
    whether a digit was read. *)
Fixpoint parse_digits (radix : Z) (s : string) (acc : Z) (seen : bool)
  : option Z :=
  match s with
  | EmptyString => if seen then Some acc else None
  | String c s' =>
      match digit_value radix c with
      | Some d => parse_digits radix s' (acc * radix + d)%Z true
      | None => if seen then Some acc else None
      end
  end.

Definition strip_hex_prefix (s : string) : option string :=
  match s with
  | String "0" (String x s') =>
      if Ascii.eqb x "x" || Ascii.eqb x "X" then Some s' else None
  | _ => None
  end.

Definition parse_unsigned (s : string) : option Z :=
  match strip_hex_prefix s with
  | Some s' => parse_digits 16 s' 0 false
  | None => parse_digits 10 s 0 false
  end.

(** [parseInt(v)] for [v] a string or [undefined]; [None] is [NaN].
    The value is the mathematical integer that the digits denote.  That
    is the JavaScript number up to [2^53] in absolute value; beyond, a
    JavaScript number is that integer rounded to a double (and infinite
    from about [1.8e308]), which keeps the sign and never gives zero or
    [NaN], but is not the value given here.  Statements about the value
    itself are therefore made for integers up to [2^53] only. *)
Definition parseInt (v : option string) : option Z :=
  match v with
  | None => None
  | Some s =>
      match trimStart s with
      | String "-" s' => option_map Z.opp (parse_unsigned s')
      | String "+" s' => parse_unsigned s'
      | s' => parse_unsigned s'
      end
  end.

(** [n || d] for a number [n]: [NaN] and zero are falsy. *)
Definition number_or (n : option Z) (d : Z) : Z :=
  match n with
  | Some z => if (z =? 0)%Z then d else z
  | None => d
  end.

(** [a || b] for values that are a string or absent. *)
Definition string_or (a b : option string) : option string :=
  if truthy a then a else b.

(** [v === 'true'] *)
Definition is_true (v : option string) : bool :=
  match v with Some s => String.eqb s "true" | None => false end.

(** The environment bindings read by [handleSync]; the optional ones may
    be [undefined]. *)
Record Env := mkEnv
  { DEBUG : option string;
    POSTS_TO_SYNC : option string;
    IGNORE_REPOSTS : option string;
    DRY_RUN : option string;
    LAST_SYNC : option string;
    MASTODON_URL : string;
    MASTODON_USERNAME : string;
    MASTODON_ACCESS_TOKEN : string;
    BLUESKY_USERNAME : string;
    BLUESKY_PASSWORD : string }.

(** The [details] field of a report. *)
Inductive Details : Type :=
| DetailsResults (r : SyncResults)
| DetailsStack (e : JsError).

Record Report := mkReport
  { success : bool;
    report_dryRun : bool;
    report_timestamp : option string;
    stats : option (nat * nat);
    error : option string;
    details : option Details }.

(** The configuration object built at the top of [handleSync], given the
    value read from the store. *)
Definition make_config (env : Env) (stored : option string) : SyncConfig :=
  {| debug := is_true (DEBUG env);
     postsToSync := number_or (parseInt (POSTS_TO_SYNC env)) 10;
     ignoreReposts := is_true (IGNORE_REPOSTS env);
     dryRun := is_true (DRY_RUN env);
     lastSync := string_or (string_or stored (LAST_SYNC env)) None;
     mastodonUrl := MASTODON_URL env;
     mastodonUsername := MASTODON_USERNAME env;
     mastodonAccessToken := MASTODON_ACCESS_TOKEN env;
     blueskyUsername := BLUESKY_USERNAME env;
     blueskyPassword := BLUESKY_PASSWORD env |}.

Definition handleSync {W} `{Runtime W} (env : Env) : M W Report :=
  stored <- perform (kv_get "lastSync") (EvKvGet "lastSync") ;;
  let config := make_config env stored in
  let syncService := constructor config in
  try_catch
    (results <- sync syncService ;;
     (if negb (dryRun config) then
        perform (kv_put "lastSync" (results_timestamp results))
                (EvKvPut "lastSync" (results_timestamp results))
      else ret tt) ;;;
     ret {| success := true;
            report_dryRun := dryRun config;
            report_timestamp := Some (results_timestamp results);
            stats := Some (List.length (blueskyToMastodon results),
                           List.length (mastodonToBluesky results));
            error := None;
            details := if debug config then Some (DetailsResults results)
                       else None |})
    (fun error =>
       ret {| success := false;
              report_dryRun := dryRun config;
              report_timestamp := None;
              stats := None;
              error := Some (message error);
              details := if debug config then Some (DetailsStack error)
                         else None |}).

(** ** The worker's entry points *)

(** The part of the request the [fetch] handler reads:
    [new URL(request.url).pathname]. *)
Record HttpRequest := mkHttpRequest { pathname : string }.

(** The body of a response: the report, printed by [JSON.stringify], or a
    plain text. *)
Inductive HttpBody : Type :=
| BodyJson (r : Report)
| BodyText (s : string).

(** [new Response(body, { status, headers })]: the status (200 when the
    options give none), the body, and the [Content-Type] header that the
    handler sets in the options, if it sets one. *)
Record HttpResponse := mkHttpResponse
  { response_status : nat;
    response_body : HttpBody;
    response_content_type : option string }.

(** The [scheduled] handler. *)
Definition scheduled {W} `{Runtime W} (env : Env) : M W Report :=
  handleSync env.

(** The [fetch] handler of the worker. *)
Definition worker_fetch {W} `{Runtime W} (request : HttpRequest) (env : Env)
  : M W HttpResponse :=
  if String.eqb (pathname request) "/__scheduled" then
    results <- handleSync env ;;
    ret {| response_status := 200;
           response_body := BodyJson results;
           response_content_type := Some "application/json" |}
  else
    ret {| response_status := 404;
           response_body := BodyText "Not Found";
           response_content_type := None |}.

(** ** Vocabulary of the specification *)

(** A publish call: the status-creation request on Mastodon, [bsky.post]
    on Bluesky. *)
Definition is_publish (e : event) : bool :=
  match e with
  | EvFetchStatus _ _ => true
  | EvBskyPost _ _ _ => true
  | _ => false
  end.

(** The identifier a publish call returned, when it succeeded: the [id]
    of the created status, the [uri] of the created post. *)
Definition published_id (e : event) : option string :=
  match e with
  | EvFetchStatus _ (Ok r) =>
      if ok r then
        match body_json r with
        | Ok st => Some (status_id st)
        | Throw _ => None
        end
      else None
  | EvBskyPost _ _ (Ok ref) => Some (ref_uri ref)
  | _ => None
  end.

Fixpoint published_ids (evs : list event) : list string :=
  match evs with
  | [] => []
  | e :: evs' =>
      match published_id e with
      | Some i => i :: published_ids evs'
      | None => published_ids evs'
      end
  end.

Definition is_kv_put (e : event) : bool :=
  match e with EvKvPut _ _ _ => true | _ => false end.

(** A call that lists or publishes posts. *)
Definition touches_posts (e : event) : bool :=
  match e with
  | EvGetAuthorFeed _ _ _ => true
  | EvFetchTimeline _ _ => true
  | EvFetchStatus _ _ => true
  | EvBskyPost _ _ _ => true
  | _ => false
  end.

(** The marker of each direction: a Bluesky item carrying [record.reply],
    a Mastodon status carrying [reblog]. *)
Definition bluesky_marked (item : FeedItem) : bool :=
  present (rec_reply (record (post item))).

Definition mastodon_marked (p : MastodonPost) : bool := present (reblog p).

(** A Bluesky feed item that is a repost: the feed gives a [reason] for
    it.  The counterpart of [reblog] on a Mastodon status. *)
Definition is_repost (item : FeedItem) : bool := present (reason item).

(** The author test of the Mastodon direction. *)
Definition same_author (svc : SocialSyncService) (p : MastodonPost) : bool :=
  String.eqb (toLowerCase (username (account p)))
             (toLowerCase (mastodonUsername (config svc))).

(** A post that none of the [continue] tests of its direction skips. *)
Definition bluesky_eligible {W} `{Runtime W} (svc : SocialSyncService)
  (item : FeedItem) : bool :=
  negb (older_than_lastSync svc (indexedAt (post item)))
  && negb (this_ignoreReposts svc && bluesky_marked item).

Definition mastodon_eligible {W} `{Runtime W} (svc : SocialSyncService)
  (p : MastodonPost) : bool :=
  negb (older_than_lastSync svc (created_at p))
  && negb (this_ignoreReposts svc && mastodon_marked p)
  && same_author svc p.

(** The record pushed for a post, given the target identifier. *)
Definition bluesky_record (svc : SocialSyncService) (item : FeedItem)
  (target : string) : SyncedPost :=
  {| source := bluesky;
     sourceId := uri (post item);
     targetId := target;
     text := rec_text (record (post item));
     simulated := this_dryRun svc;
     timestamp := indexedAt (post item) |}.

Definition mastodon_record (svc : SocialSyncService) (p : MastodonPost)
  (target : string) : SyncedPost :=
  {| source := mastodon;
     sourceId := id p;
     targetId := target;
     text := cleanMastodonContent (content p);
     simulated := this_dryRun svc;
     timestamp := created_at p |}.

(** A fetched post appears in an output list when the list holds a
    record made from it. *)
Definition bluesky_appears (item : FeedItem) (out : list SyncedPost) : Prop :=
  exists r, In r out /\ source r = bluesky /\ sourceId r = uri (post item)
            /\ timestamp r = indexedAt (post item).

Definition mastodon_appears (p : MastodonPost) (out : list SyncedPost) : Prop :=
  exists r, In r out /\ source r = mastodon /\ sourceId r = id p
            /\ timestamp r = created_at p.

(** Two characters that are the same letter, possibly in different
    case. *)
Definition same_letter (c d : ascii) : Prop :=
  c = d \/ d = lower_char c \/ c = lower_char d.

(** Two names that differ at most in the case of their letters. *)
Inductive differ_only_in_case : string -> string -> Prop :=
| case_nil : differ_only_in_case EmptyString EmptyString
| case_cons c d s t :
    same_letter c d -> differ_only_in_case s t ->
    differ_only_in_case (String c s) (String d t).

(** A string that does not start a number: after the leading white space
    comes neither a sign nor a decimal digit. *)
Definition non_numeric (s : string) : bool :=
  match trimStart s with
  | EmptyString => true
  | String c _ =>
      negb (in_range 48 57 c || Ascii.eqb c "+" || Ascii.eqb c "-")
  end.

(** The error thrown when the loop of [withRateLimit] runs out. *)
Definition exhausted (retries : nat) : JsError :=
  Error ("Failed after " ++ show_nat retries ++ " retries")%string.

Fixpoint has_char (c : ascii) (s : string) : bool :=
  match s with
  | EmptyString => false
  | String d s' => Ascii.eqb c d || has_char c s'
  end.

(** The subject contains a markup tag: a [<] with a [>] somewhere after
    it, which is what [/<[^>]*>/] finds. *)
Fixpoint has_tag (s : string) : bool :=
  match s with
  | EmptyString => false
  | String c s' => (Ascii.eqb c lt && has_char gt s') || has_tag s'
  end.

(** The subject contains three newlines in a row. *)
Fixpoint has_blank_run (s : string) : bool :=
  match s with
  | EmptyString => false
  | String c s' =>
      starts_with (String nl (String nl (String nl EmptyString))) s
      || has_blank_run s'
  end.

(** Runs of three or more newlines cut down to two, written without
    regular expressions: [k] newlines of the current run were kept. *)
Fixpoint squeeze_newlines (k : nat) (s : string) : string :=
  match s with
  | EmptyString => EmptyString
  | String c s' =>
      if Ascii.eqb c nl then
        if Nat.ltb k 2 then String c (squeeze_newlines (S k) s')
        else squeeze_newlines k s'
      else String c (squeeze_newlines 0 s')
  end.

(** The expression ends with the literal [>]. *)
Fixpoint ends_with_gt (r : regex) : bool :=
  match r with
  | Chr c => Ascii.eqb c gt
  | Seq _ r2 => ends_with_gt r2
  | Group _ r' => ends_with_gt r'
  | _ => false
  end.

(** The expression has the shape [<...>]. *)
Definition tag_shaped (r : regex) : bool :=
  match r with
  | Seq (Chr c) r2 => Ascii.eqb c lt && ends_with_gt r2
  | _ => false
  end.

(** ** A scripted world, to run the model on concrete inputs

    The clock, the feeds and the publish calls answer from scripts, one
    entry per call; the key-value store keeps what is put; [Date] reads
    the format of [toISOString] only. *)

Record Scripted := mkScripted
  { sc_times : list string;
    sc_feed : list (Outcome (list FeedItem));
    sc_timeline : list (Outcome (Response (list MastodonPost)));
    sc_status : list (Outcome (Response MastodonStatus));
    sc_post : list (Outcome BskyRef);
    sc_store : option string;
    sc_up : bool }.

Definition next {A} (default : A) (l : list A) : A * list A :=
  match l with
  | [] => (default, [])
  | a :: l' => (a, l')
  end.

Definition offline {A} : Outcome A := Throw (Error "fetch failed").

Definition decimal (cs : list ascii) : option Z :=
  fold_left (fun acc c =>
    match acc, digit_value 10 c with
    | Some a, Some d => Some (a * 10 + d)%Z
    | _, _ => None
    end) cs (Some 0%Z).

(** Days from 1970-01-01 to a civil date. *)
Definition days_from_civil (y m d : Z) : Z :=
  let y' := (if m <=? 2 then y - 1 else y)%Z in
  let era := (y' / 400)%Z in
  let yoe := (y' - era * 400)%Z in
  let mp := ((m + 9) mod 12)%Z in
  let doy := ((153 * mp + 2) / 5 + d - 1)%Z in
  let doe := (yoe * 365 + yoe / 4 - yoe / 100 + doy)%Z in
  (era * 146097 + doe - 719468)%Z.

Definition within (lo hi x : Z) : bool := ((lo <=? x) && (x <=? hi))%Z.

(** The time value of a string of the form [YYYY-MM-DDTHH:mm:ss.sssZ],
    the form [toISOString] gives.  Every other string is an invalid date
    here, also those that [Date] reads, so this reader serves the
    concrete runs only, whose dates all have that form; the general
    statements are made for every [date_value]. *)
Definition iso_date_value (s : string) : option Z :=
  match list_ascii_of_string s with
  | [y1; y2; y3; y4; a; m1; m2; b; d1; d2; t; h1; h2; c; n1; n2; e; s1; s2;
     f; f1; f2; f3; z] =>
      if String.eqb (string_of_list_ascii [a; b; t; c; e; f; z]) "--T::.Z" then
        match decimal [y1; y2; y3; y4], decimal [m1; m2], decimal [d1; d2],
              decimal [h1; h2], decimal [n1; n2], decimal [s1; s2],
              decimal [f1; f2; f3] with
        | Some y, Some m, Some d, Some h, Some n, Some sec, Some ms =>
            if within 1 12 m && within 1 31 d && within 0 23 h
               && within 0 59 n && within 0 59 sec then
              Some ((((days_from_civil y m d * 24 + h) * 60 + n) * 60 + sec)
                    * 1000 + ms)%Z
            else None
        | _, _, _, _, _, _, _ => None
        end
      else None
  | _ => None
  end.

Definition scripted_check {J} (j : J) (w : Scripted)
  : Outcome (Response J) * Scripted :=
  (if sc_up w then Ok (mkResponse true 200 EmptyString (Ok j))
   else Ok (mkResponse false 503 "unavailable" (Throw (Error "no body"))), w).

#[export] Instance scripted_runtime : Runtime Scripted :=
  {| date_value := iso_date_value;
     clock := fun w =>
       let (t, ts) := next "1970-01-01T00:00:00.000Z" (sc_times w) in
       (t, mkScripted ts (sc_feed w) (sc_timeline w) (sc_status w)
             (sc_post w) (sc_store w) (sc_up w));
     sleep := fun _ w => w;
     fetch_instance := fun base => scripted_check (mkInstance base);
     fetch_account := fun q =>
       scripted_check (mkMastodonAccount "jerdog" "jerdog" "1");
     fetch_timeline := fun _ w =>
       let (r, l) := next offline (sc_timeline w) in
       (r, mkScripted (sc_times w) (sc_feed w) l (sc_status w)
             (sc_post w) (sc_store w) (sc_up w));
     fetch_status := fun _ w =>
       let (r, l) := next offline (sc_status w) in
       (r, mkScripted (sc_times w) (sc_feed w) (sc_timeline w) l
             (sc_post w) (sc_store w) (sc_up w));
     bsky_login := fun _ _ w =>
       (if sc_up w then Ok tt else Throw (mkError "Invalid identifier" (Some 401)), w);
     bsky_getAuthorFeed := fun _ _ w =>
       let (r, l) := next offline (sc_feed w) in
       (r, mkScripted (sc_times w) l (sc_timeline w) (sc_status w)
             (sc_post w) (sc_store w) (sc_up w));
     bsky_post := fun _ _ w =>
       let (r, l) := next offline (sc_post w) in
       (r, mkScripted (sc_times w) (sc_feed w) (sc_timeline w) (sc_status w)
             l (sc_store w) (sc_up w));
     kv_get := fun _ w => (Ok (sc_store w), w);
     kv_put := fun _ v w =>
       (Ok tt, mkScripted (sc_times w) (sc_feed w) (sc_timeline w)
                 (sc_status w) (sc_post w) (Some v) (sc_up w)) |}.

(** ** Concrete inputs *)

Definition demo_config (ignore dry : bool) (last : option string)
  : SyncConfig :=
  {| debug := false;
     postsToSync := 10;
     ignoreReposts := ignore;
     lastSync := last;
     mastodonUrl := "https://hachyderm.io";
     mastodonUsername := "jerdog";
     mastodonAccessToken := "token";
     blueskyUsername := "jerdog.dev";
     blueskyPassword := "app-password";
     dryRun := dry |}.

Definition demo_env (posts dry : option string) : Env :=
  {| DEBUG := Some "false";
     POSTS_TO_SYNC := posts;
     IGNORE_REPOSTS := Some "true";
     DRY_RUN := dry;
     LAST_SYNC := None;
     MASTODON_URL := "https://hachyderm.io";
     MASTODON_USERNAME := "jerdog";
     MASTODON_ACCESS_TOKEN := "token";
     BLUESKY_USERNAME := "jerdog.dev";
     BLUESKY_PASSWORD := "app-password" |}.

Definition at_9 : string := "2024-03-01T09:00:00.000Z".
Definition at_10 : string := "2024-03-01T10:00:00.000Z".
Definition at_11 : string := "2024-03-01T11:00:00.000Z".
Definition at_12 : string := "2024-03-01T12:00:00.000Z".

(** A Bluesky feed item numbered [n], indexed at [t], a reply or not. *)
Definition feed_item (n t : string) (is_reply : bool) : FeedItem :=
  mkFeedItem
    (mkBskyPostView ("at://jerdog.dev/post/" ++ n)%string t
       (mkBskyRecord ("post " ++ n)%string
          (if is_reply then Some (mkReplyRef "at://root" "at://parent")
           else None)))
    None.

(** A Mastodon status numbered [n] by [author], created at [t], a reblog
    or not. *)
Definition toot (n author t : string) (boosted : bool) : MastodonPost :=
  mkMastodonPost n t ("<p>toot " ++ n ++ "</p>")%string
    (if boosted then Some (mkReblog "99") else None)
    (mkMastodonAccount author author "1").

Definition created (i : string) : Outcome (Response MastodonStatus) :=
  Ok (mkResponse true 200 EmptyString (Ok (mkMastodonStatus i))).

Definition rejected : Outcome (Response MastodonStatus) :=
  Ok (mkResponse false 422 "Validation failed" (Throw (Error "no status"))).

Definition listing (posts : list MastodonPost)
  : Outcome (Response (list MastodonPost)) :=
  Ok (mkResponse true 200 EmptyString (Ok posts)).

Definition posted (n : string) : Outcome BskyRef :=
  Ok (mkBskyRef ("at://jerdog.dev/post/" ++ n)%string "cid").

Definition too_many_requests : JsError := mkError "Too Many Requests" (Some 429).

Definition world_with (times : list string)
  (feeds : list (Outcome (list FeedItem)))
  (timelines : list (Outcome (Response (list MastodonPost))))
  (statuses : list (Outcome (Response MastodonStatus)))
  (posts : list (Outcome BskyRef)) : Scripted :=
  mkScripted times feeds timelines statuses posts None true.

(** One publish attempt on Bluesky, as [withRateLimit] retries it. *)
Definition post_hello : M Scripted BskyRef :=
  perform (bsky_post "hello" at_10) (EvBskyPost "hello" at_10).

(** Bluesky answers 429 twice, then accepts. *)
Definition throttled_twice : Scripted :=
  world_with [] [] [] []
    [Throw too_many_requests; Throw too_many_requests; posted "1"].

(** Bluesky answers 429 once, then refuses the record, and would accept
    a third attempt. *)
Definition throttled_then_refused : Scripted :=
  world_with [] [] [] []
    [Throw too_many_requests; Throw (Error "Invalid record"); posted "1"].

(** One plain post on each side. *)
Definition one_each : Scripted :=
  world_with [at_12]
    [Ok [feed_item "1" at_10 false]]
    [listing [toot "7" "jerdog" at_10 false]]
    [created "101"] [posted "8"].

(** Posts on both sides of the watermark [at_10]. *)
Definition around_watermark : Scripted :=
  world_with []
    [Ok [feed_item "2" at_11 false; feed_item "1" at_9 false]]
    [listing [toot "8" "jerdog" at_11 false; toot "7" "jerdog" at_10 false]]
    [created "102"] [posted "9"].

(** A reply on Bluesky and a reblog on Mastodon, next to plain posts. *)
Definition with_reposts : Scripted :=
  world_with []
    [Ok [feed_item "2" at_11 true; feed_item "1" at_10 false]]
    [listing [toot "8" "jerdog" at_11 true; toot "7" "jerdog" at_10 false]]
    [created "102"; created "101"] [posted "9"; posted "8"].

(** A post by someone else that the account reposted: it is no reply, and
    the feed gives the repost as its reason. *)
Definition reposted_item : FeedItem :=
  mkFeedItem
    (mkBskyPostView "at://did:plc:someone/app.bsky.feed.post/3k" at_11
       (mkBskyRecord "a post by someone else" None))
    (Some (mkReasonRepost "jerdog.dev" at_11)).

(** A repost on Bluesky and a reblog on Mastodon, nothing else. *)
Definition reposts_only : Scripted :=
  world_with [] [Ok [reposted_item]]
    [listing [toot "8" "jerdog" at_11 true]] [created "101"] [].

(** A reply whose publication Mastodon rejects. *)
Definition reply_rejected : Scripted :=
  world_with [] [Ok [feed_item "2" at_11 true]] [] [rejected] [].

(** Three posts on each side; the second publication fails. *)
Definition second_fails : Scripted :=
  world_with [at_12; at_12; at_12]
    [Ok [feed_item "3" at_11 false; feed_item "2" at_10 false;
         feed_item "1" at_9 false]]
    [listing [toot "9" "jerdog" at_11 false; toot "8" "jerdog" at_10 false;
              toot "7" "jerdog" at_9 false]]
    [created "103"; rejected; created "101"]
    [posted "9"; Throw (Error "Invalid record"); posted "7"].

(** A home timeline with another account's post and with the owner's
    name in another letter case. *)
Definition mixed_timeline : Scripted :=
  world_with [] []
    [listing [toot "9" "alice" at_11 false; toot "8" "JerDog" at_10 false]]
    [] [posted "8"].

(** A clock that moves during the pass. *)
Definition at_12_05 : string := "2024-03-01T12:00:05.000Z".
Definition at_12_09 : string := "2024-03-01T12:00:09.000Z".

Definition moving_clock : Scripted :=
  world_with [at_12; at_12_05; at_12_09]
    [Ok []] [listing [toot "7" "jerdog" at_11 false]] [] [posted "8"].

(** The platforms are down. *)
Definition platforms_down : Scripted :=
  mkScripted [] [] [] [] [] (Some at_10) false.

Definition three_blank_lines : string :=
  ("a" ++ newline ++ newline ++ newline ++ "b")%string.

Definition padded_lines : string :=
  ("  hello" ++ newline ++ newline ++ newline ++ newline ++ "world ")%string.

(** Mastodon answers the first status request with HTTP 429. *)
Definition throttled_response : Outcome (Response MastodonStatus) :=
  Ok (mkResponse false 429 "Too Many Requests" (Throw (Error "no status"))).

Definition mastodon_throttled : Scripted :=
  world_with [] [Ok [feed_item "1" at_10 false]] []
    [throttled_response; created "101"] [].

(** An operation that is rate limited whenever it is tried. *)
Definition always_throttled : M Scripted BskyRef := throw too_many_requests.

(** The Bluesky feed cannot be listed. *)
Definition feed_unavailable : Scripted :=
  world_with [at_12] [Throw (Error "UpstreamFailure")]
    [listing [toot "7" "jerdog" at_10 false]] [] [posted "8"].

(** A Bluesky post is published, then the home timeline cannot be
    listed. *)
Definition timeline_unavailable : Scripted :=
  world_with [at_12] [Ok [feed_item "1" at_10 false]]
    [Throw (Error "fetch failed")] [created "101"] [].

(** The key-value store cannot be written. *)
Definition read_only_store : Runtime Scripted :=
  {| date_value := iso_date_value;
     clock := clock (Runtime := scripted_runtime);
     sleep := sleep (Runtime := scripted_runtime);
     fetch_instance := fetch_instance (Runtime := scripted_runtime);
     fetch_account := fetch_account (Runtime := scripted_runtime);
     fetch_timeline := fetch_timeline (Runtime := scripted_runtime);
     fetch_status := fetch_status (Runtime := scripted_runtime);
     bsky_login := bsky_login (Runtime := scripted_runtime);
     bsky_getAuthorFeed := bsky_getAuthorFeed (Runtime := scripted_runtime);
     bsky_post := bsky_post (Runtime := scripted_runtime);
     kv_get := kv_get (Runtime := scripted_runtime);
     kv_put := fun _ _ w => (Throw (Error "KV PUT failed: 429"), w) |}.

(** The key-value store cannot be read. *)
Definition unreadable_store : Runtime Scripted :=
  {| date_value := iso_date_value;
     clock := clock (Runtime := scripted_runtime);
     sleep := sleep (Runtime := scripted_runtime);
     fetch_instance := fetch_instance (Runtime := scripted_runtime);
     fetch_account := fetch_account (Runtime := scripted_runtime);
     fetch_timeline := fetch_timeline (Runtime := scripted_runtime);
     fetch_status := fetch_status (Runtime := scripted_runtime);
     bsky_login := bsky_login (Runtime := scripted_runtime);
     bsky_getAuthorFeed := bsky_getAuthorFeed (Runtime := scripted_runtime);
     bsky_post := bsky_post (Runtime := scripted_runtime);
     kv_get := fun _ w => (Throw (Error "KV GET failed: 500"), w);
     kv_put := kv_put (Runtime := scripted_runtime) |}.

(** ** Vocabulary of the proofs *)

(** Somewhere in [s] the character [a] is directly followed by [b]. *)
Fixpoint adjacent (a b : ascii) (s : string) : bool :=
  match s with
  | EmptyString => false
  | String c s' =>
      (Ascii.eqb c a
       && match s' with String d _ => Ascii.eqb d b | EmptyString => false end)
      || adjacent a b s'
  end.

Definition is_digit (c : ascii) : bool := in_range 48 57 c.

Fixpoint all_chars (p : ascii -> bool) (s : string) : bool :=
  match s with
  | EmptyString => true
  | String c s' => p c && all_chars p s'
  end.

Definition count_events (P : event -> bool) (evs : list event) : nat :=
  List.length (filter P evs).

(** [n] newlines in front of [t]. *)
Fixpoint newlines (n : nat) (t : string) : string :=
  match n with
  | O => t
  | S n' => String nl (newlines n' t)
  end.

(** [t] does not start with a newline. *)
Definition no_newline_ahead (t : string) : bool :=
  match t with
  | EmptyString => true
  | String c _ => negb (Ascii.eqb nl c)
  end.

(** The accumulator of a loop after one run of its body. *)
Definition pushed_onto (acc : list SyncedPost) (o : Outcome (option SyncedPost))
  : list SyncedPost :=
  match o with
  | Ok (Some p) => acc ++ [p]
  | _ => acc
  end.

(** What one run tells about publishing: the identifiers returned by its
    successful publish calls are [ids] of its result, and there are none
    when it throws. *)
Definition publishes {W A} (r : Outcome A * list event * W)
  (ids : A -> list string) : Prop :=
  published_ids (emitted r) =
    match outcome_of r with
    | Ok a => ids a
    | Throw _ => []
    end.

(** The waits of a run, in order. *)
Fixpoint sleeps (evs : list event) : list nat :=
  match evs with
  | [] => []
  | EvSleep ms :: evs' => ms :: sleeps evs'
  | _ :: evs' => sleeps evs'
  end.

(** The waits of [k] rate-limited attempts starting at attempt [i]:
    [2^i * 1000], [2^(i+1) * 1000], ... *)
Fixpoint backoff (i k : nat) : list nat :=
  match k with
  | O => []
  | S k' => 2 ^ i * 1000 :: backoff (S i) k'
  end.

(** [l1] is [l2] with some elements left out, the others in order. *)
Inductive Subseq {A : Type} : list A -> list A -> Prop :=
| subseq_nil : Subseq [] []
| subseq_skip x l1 l2 : Subseq l1 l2 -> Subseq l1 (x :: l2)
| subseq_keep x l1 l2 : Subseq l1 l2 -> Subseq (x :: l1) (x :: l2).

(** What a successful publish call sent and got: the text and the
    identifier returned. *)
Definition published_post (e : event) : option (string * string) :=
  match e with
  | EvFetchStatus q (Ok r) =>
      if ok r then
        match body_json r, req_body q with
        | Ok st, Some b => Some (body_status b, status_id st)
        | _, _ => None
        end
      else None
  | EvBskyPost text _ (Ok ref) => Some (text, ref_uri ref)
  | _ => None
  end.

Fixpoint published_posts (evs : list event) : list (string * string) :=
  match evs with
  | [] => []
  | e :: evs' =>
      match published_post e with
      | Some p => p :: published_posts evs'
      | None => published_posts evs'
      end
  end.

(** An effect that only reads: everything but a publish call and a put. *)
Definition read_only (e : event) : bool :=
  negb (is_publish e) && negb (is_kv_put e).

(** A status-creation request as [syncFromBluesky] builds it. *)
Definition well_formed_status_request (cfg : SyncConfig) (e : event) : Prop :=
  match e with
  | EvFetchStatus q _ =>
      req_base q = mastodonUrl cfg /\
      req_endpoint q = "/api/v1/statuses" /\
      req_token q = mastodonAccessToken cfg /\
      req_method q = Some "POST" /\
      req_limit q = None /\
      exists text, req_body q = Some (mkStatusBody text "public")
  | _ => True
  end.

(** An effect that lists or publishes posts on Mastodon's side of the
    second direction. *)
Definition second_direction (e : event) : bool :=
  match e with
  | EvFetchTimeline _ _ => true
  | EvBskyPost _ _ _ => true
  | _ => false
  end.

(** The report of a pass that completed. *)
Definition success_report (cfg : SyncConfig) (results : SyncResults) : Report :=
  {| success := true;
     report_dryRun := dryRun cfg;
     report_timestamp := Some (results_timestamp results);
     stats := Some (List.length (blueskyToMastodon results),
                    List.length (mastodonToBluesky results));
     error := None;
     details := if debug cfg then Some (DetailsResults results) else None |}.

(** The report of a pass that failed with [e]. *)
Definition failure_report (cfg : SyncConfig) (e : JsError) : Report :=
  {| success := false;
     report_dryRun := dryRun cfg;
     report_timestamp := None;
     stats := None;
     error := Some (message e);
     details := if debug cfg then Some (DetailsStack e) else None |}.

(** What one run tells about what was sent: the texts and identifiers of
    its successful publish calls are [posts] of its result, and there
    are none when it throws. *)
Definition sends {W A} (r : Outcome A * list event * W)
  (posts : A -> list (string * string)) : Prop :=
  published_posts (emitted r) =
    match outcome_of r with
    | Ok a => posts a
    | Throw _ => []
    end.

(** [t] is [s] with some characters removed, the others in order. *)
Inductive Kept : string -> string -> Prop :=
| kept_nil : Kept EmptyString EmptyString
| kept_drop d t s : Kept t s -> Kept t (String d s)
| kept_keep d t s : Kept t s -> Kept (String d t) (String d s).

(** [t] does not start with white space. *)
Definition no_space_ahead (t : string) : bool :=
  match t with
  | EmptyString => true
  | String c _ => negb (is_ws c)
  end.

(** The last three rules of [cleanMastodonContent], the newline rule
    written as [squeeze_newlines]. *)
Definition last_rules (t : string) : string :=
  trim (squeeze_newlines 0 (replace_all false re_tag (fun _ => EmptyString) t)).

(** A text as [cleanMastodonContent] leaves it: no markup tag, no run of
    three newlines, nothing to trim. *)
Definition cleaned (t : string) : Prop :=
  has_tag t = false /\ has_blank_run t = false /\ trim t = t.

(** A call of [bsky.post] is given a cleaned text. *)
Definition posts_cleaned_text (e : event) : Prop :=
  match e with
  | EvBskyPost t _ _ => cleaned t
  | _ => True
  end.

(** A request that reads, logs in or touches the store, as the service
    builds it from its configuration. *)
Definition built_from (cfg : SyncConfig) (e : event) : Prop :=
  match e with
  | EvFetchInstance b _ => b = mastodonUrl cfg
  | EvFetchAccount q _ =>
      q = mkRequest (mastodonUrl cfg) "/api/v1/accounts/verify_credentials"
            (mastodonAccessToken cfg) None None None
  | EvFetchTimeline q _ =>
      q = mkRequest (mastodonUrl cfg) "/api/v1/timelines/home"
            (mastodonAccessToken cfg) None None (Some (postsToSync cfg))
  | EvBskyLogin i p _ => i = blueskyUsername cfg /\ p = blueskyPassword cfg
  | EvGetAuthorFeed a l _ => a = blueskyUsername cfg /\ l = postsToSync cfg
  | EvKvGet key _ => key = "lastSync"
  | EvKvPut key _ _ => key = "lastSync"
  | _ => True
  end.

(** A request that lists posts: the author feed of Bluesky, the home
    timeline of Mastodon. *)
Definition is_listing (e : event) : bool :=
  match e with
  | EvGetAuthorFeed _ _ _ => true
  | EvFetchTimeline _ _ => true
  | _ => false
  end.

(** The service with no watermark. *)
Definition forget_lastSync (svc : SocialSyncService) : SocialSyncService :=
  {| config := config svc;
     this_debug := this_debug svc;
     this_postsToSync := this_postsToSync svc;
     this_ignoreReposts := this_ignoreReposts svc;
     this_lastSync := None;
     this_dryRun := this_dryRun svc |}.

(** A character other than [<]. *)
Definition not_lt (c : ascii) : bool := negb (Ascii.eqb c lt).

(** A character of running text: not [<] and not a line terminator. *)
Definition inline_char (c : ascii) : bool := not_lt c && dot c.

(** A paragraph element around [a]. *)
Definition paragraph (a : string) : string := ("<p>" ++ a ++ "</p>")%string.

(** Paragraph elements one after the other. *)
Fixpoint paragraphs (ps : list string) : string :=
  match ps with
  | [] => EmptyString
  | a :: ps' => (paragraph a ++ paragraphs ps')%string
  end.

(** The texts, each followed by a blank line. *)
Fixpoint blocks (ps : list string) : string :=
  match ps with
  | [] => EmptyString
  | a :: ps' => (a ++ newline ++ newline ++ blocks ps')%string
  end.

(** The spellings of a line break that Mastodon emits. *)
Definition is_br (t : string) : bool :=
  String.eqb t "<br>" || String.eqb t "<br/>" || String.eqb t "<br />".

(** The closing tag of the paragraph rule. *)
Definition close_p : regex := seqs (lit "</p>").

(** The matches of the group [(.*?)] followed by [r], from the splits of
    the lazy star. *)
Definition grouped (r : regex) (sp : list (string * string)) : list mres :=
  flat_map
    (fun m1 : mres =>
       match m1 with (a, rest, k1) =>
         map (fun m2 : mres =>
           match m2 with (b, rest', k2) => ((a ++ b)%string, rest', k1 ++ k2) end)
           (mtch true r rest)
       end)
    (map (fun m : mres =>
            match m with (a, rest, k) => (a, rest, (1, a) :: k) end)
       (map (fun ab : string * string => (fst ab, snd ab, @nil (nat * string))) sp)).

(** [t] is [s] with some characters of class [P] removed, the others in
    order. *)
Inductive Dropped (P : ascii -> bool) : string -> string -> Prop :=
| dropped_nil : Dropped P EmptyString EmptyString
| dropped_drop d t s : P d = true -> Dropped P t s -> Dropped P t (String d s)
| dropped_keep d t s : Dropped P t s -> Dropped P (String d t) (String d s).

(** A character that can follow [<] at the start of a tag in HTML: an
    ASCII letter (start tag), [/] (end tag), [!] (comment, doctype) or
    [?]. *)
Definition opens_tag_name (c : ascii) : bool :=
  in_range 65 90 c || in_range 97 122 c
  || Ascii.eqb c "/" || Ascii.eqb c "!" || Ascii.eqb c "?".

(** The subject holds the start of an HTML tag: markup in HTML's own
    syntax, where a [<] followed by anything else is text. *)
Fixpoint has_html_tag (s : string) : bool :=
  match s with
  | EmptyString => false
  | String c s' =>
      (Ascii.eqb c lt
       && match s' with
          | String d _ => opens_tag_name d
          | EmptyString => false
          end)
      || has_html_tag s'
  end.

(** A comparison written in plain text. *)
Definition comparison : string := "1 < 2 > 1".

(** The request as [fetch] reads it: [params] is no option of [fetch],
    so what remains is the URL, the method, the headers and the body. *)
Definition no_params (q : Request) : Request :=
  mkRequest (req_base q) (req_endpoint q) (req_token q) (req_method q)
    (req_body q) None.

Definition forget_params (e : event) : event :=
  match e with
  | EvFetchAccount q r => EvFetchAccount (no_params q) r
  | EvFetchTimeline q r => EvFetchTimeline (no_params q) r
  | EvFetchStatus q r => EvFetchStatus (no_params q) r
  | _ => e
  end.

(** A platform that answers the home-timeline request from what [fetch]
    sends: its answer does not depend on [options.params]. *)
Definition fetch_reads_no_params {W} (RT : Runtime W) : Prop :=
  forall q w, fetch_timeline q w = fetch_timeline (no_params q) w.

(** Two runs that end the same way, in the same world, after the same
    effects up to the [params] of their requests. *)
Definition alike {W A} (r r' : Outcome A * list event * W) : Prop :=
  outcome_of r = outcome_of r' /\ world_of r = world_of r'
  /\ map forget_params (emitted r) = map forget_params (emitted r').

(** The service with another [postsToSync]. *)
Definition with_postsToSync (svc : SocialSyncService) (n : Z)
  : SocialSyncService :=
  {| config := config svc;
     this_debug := this_debug svc;
     this_postsToSync := n;
     this_ignoreReposts := this_ignoreReposts svc;
     this_lastSync := this_lastSync svc;
     this_dryRun := this_dryRun svc |}.

(** * Properties *)

(** ** The computation monad *)

Ltac run_of m w :=
  let o := fresh "o" in
  let evs := fresh "evs" in
  let w' := fresh "w" in
  let E := fresh "E" in
  destruct (m w) as [[o evs] w'] eqn:E.

Lemma bind_ok {W A B} (m : M W A) (k : A -> M W B) w a evs w1 :
  m w = (Ok a, evs, w1) ->
  bind m k w =
    match k a w1 with (o, evs', w2) => (o, evs ++ evs', w2) end.
Proof. intros E. unfold bind. rewrite E. reflexivity. Qed.

Lemma bind_throw {W A B} (m : M W A) (k : A -> M W B) w e evs w1 :
  m w = (Throw e, evs, w1) -> bind m k w = (Throw e, evs, w1).
Proof. intros E. unfold bind. rewrite E. reflexivity. Qed.

Lemma try_catch_ok {W A} (m : M W A) h w a evs w1 :
  m w = (Ok a, evs, w1) -> try_catch m h w = (Ok a, evs, w1).
Proof. intros E. unfold try_catch. rewrite E. reflexivity. Qed.

Lemma try_catch_throw {W A} (m : M W A) h w e evs w1 :
  m w = (Throw e, evs, w1) ->
  try_catch m h w =
    match h e w1 with (o, evs', w2) => (o, evs ++ evs', w2) end.
Proof. intros E. unfold try_catch. rewrite E. reflexivity. Qed.

Lemma bind_inv {W A B} (m : M W A) (k : A -> M W B) w b :
  outcome_of (bind m k w) = Ok b ->
  exists a evs w1,
    m w = (Ok a, evs, w1) /\ outcome_of (k a w1) = Ok b /\
    emitted (bind m k w) = evs ++ emitted (k a w1).
Proof.
  unfold bind. run_of m w. destruct o as [a|e]; [|discriminate].
  intros H. exists a, evs, w0. split; [reflexivity|].
  destruct (k a w0) as [[o evs'] w2]. now split.
Qed.

(** Rethrowing in a handler changes nothing. *)
Lemma try_rethrow {W A} (m : M W A) w :
  try_catch m (fun error => throw error) w = m w.
Proof.
  unfold try_catch, throw. run_of m w. destruct o; [reflexivity|].
  now rewrite app_nil_r.
Qed.

(** ** Template strings and the rate-limit test *)

Lemma string_of_uint_digits u :
  all_chars is_digit (NilEmpty.string_of_uint u) = true.
Proof. induction u; simpl; auto. Qed.

Lemma show_nat_digits n : all_chars is_digit (show_nat n) = true.
Proof. apply string_of_uint_digits. Qed.

Lemma digit_not_letter c :
  is_digit c = true -> Ascii.eqb c "r" = false /\ Ascii.eqb c "a" = false.
Proof.
  destruct c as [[] [] [] [] [] [] [] []]; vm_compute; intros; try discriminate; auto.
Qed.

Lemma includes_rate_limit_adjacent s :
  includes "rate limit" s = true -> adjacent "r" "a" s = true.
Proof.
  induction s as [|c s IH]; cbn [includes starts_with adjacent]; [discriminate|].
  intros H. apply orb_true_iff in H. destruct H as [H|H].
  - apply andb_true_iff in H. destruct H as [Hc H].
    destruct s as [|d s]; [discriminate|].
    apply andb_true_iff in H. destruct H as [Hd _].
    apply Ascii.eqb_eq in Hc, Hd. subst c d. reflexivity.
  - rewrite (IH H). apply orb_true_r.
Qed.

Lemma digits_then_retries d :
  all_chars is_digit d = true ->
  adjacent "r" "a" (d ++ " retries")%string = false.
Proof.
  induction d as [|c d IH]; [reflexivity|].
  cbn [all_chars append adjacent].
  intros H. apply andb_true_iff in H. destruct H as [Hc Hd].
  destruct (digit_not_letter c Hc) as [Hr _].
  rewrite Ascii.eqb_sym in Hr. rewrite Ascii.eqb_sym, Hr. cbn [andb orb]. auto.
Qed.

Lemma exhausted_not_rate_limit n : is_rate_limit (exhausted n) = false.
Proof.
  unfold is_rate_limit, exhausted, Error. simpl status. rewrite orb_false_r.
  destruct (includes _ _) eqn:E; [|reflexivity].
  apply includes_rate_limit_adjacent in E.
  cbn [message] in E. simpl in E.
  now rewrite digits_then_retries in E by apply show_nat_digits.
Qed.

(** ** [withRateLimit] *)

Section RateLimit.
Context {W : Type} {RT : Runtime W} {A : Type}.
Variable fn : M W A.

Lemma retry_ok retries i left w a evs w' :
  fn w = (Ok a, evs, w') ->
  withRateLimit_from fn retries i (S left) w = (Ok a, evs, w').
Proof. intros E. simpl. now apply try_catch_ok. Qed.

Lemma retry_other retries i left w e evs w' :
  fn w = (Throw e, evs, w') -> is_rate_limit e = false ->
  withRateLimit_from fn retries i (S left) w = (Throw e, evs, w').
Proof.
  intros E Hr. simpl. rewrite (try_catch_throw _ _ _ _ _ _ E), Hr.
  unfold throw. now rewrite app_nil_r.
Qed.

Lemma retry_again retries i left w e evs w' :
  fn w = (Throw e, evs, w') -> is_rate_limit e = true ->
  withRateLimit_from fn retries i (S left) w =
    match withRateLimit_from fn retries (S i) left (sleep (2 ^ i * 1000) w') with
    | (o, evs2, w2) => (o, evs ++ EvSleep (2 ^ i * 1000) :: evs2, w2)
    end.
Proof.
  intros E Hr. cbn [withRateLimit_from].
  rewrite (try_catch_throw _ _ _ _ _ _ E), Hr.
  unfold bind, delay.
  destruct (withRateLimit_from fn retries (S i) left _) as [[o evs2] w2].
  reflexivity.
Qed.

(** Whatever the loop throws is not a rate-limit error. *)
Lemma retry_never_rate_limit retries i left w e :
  outcome_of (withRateLimit_from fn retries i left w) = Throw e ->
  is_rate_limit e = false.
Proof.
  revert i w. induction left as [|left IH]; intros i w.
  - simpl. unfold outcome_of, throw. simpl. intros [= <-].
    apply exhausted_not_rate_limit.
  - run_of fn w. destruct o as [a|e'].
    + rewrite (retry_ok _ _ _ _ _ _ _ E). discriminate.
    + destruct (is_rate_limit e') eqn:Hr.
      * rewrite (retry_again _ _ _ _ _ _ _ E Hr).
        specialize (IH (S i) (sleep (2 ^ i * 1000) w0)).
        destruct (withRateLimit_from fn retries (S i) left _) as [[o2 evs2] w2].
        exact IH.
      * rewrite (retry_other _ _ _ _ _ _ _ E Hr). unfold outcome_of. simpl.
        now intros [= <-].
Qed.

Lemma retry_exhausted retries i left w :
  (forall w, exists e, outcome_of (fn w) = Throw e /\ is_rate_limit e = true) ->
  outcome_of (withRateLimit_from fn retries i left w) = Throw (exhausted retries).
Proof.
  intros Hall. revert i w. induction left as [|left IH]; intros i w.
  - reflexivity.
  - destruct (Hall w) as (e & He & Hr). run_of fn w.
    unfold outcome_of in He. simpl in He. subst o.
    rewrite (retry_again _ _ _ _ _ _ _ E Hr).
    specialize (IH (S i) (sleep (2 ^ i * 1000) w0)).
    destruct (withRateLimit_from fn retries (S i) left _) as [[o2 evs2] w2].
    exact IH.
Qed.

Lemma count_events_app P l1 l2 :
  count_events P (l1 ++ l2) = count_events P l1 + count_events P l2.
Proof. unfold count_events. now rewrite filter_app, length_app. Qed.

Lemma retry_attempts P retries i left w :
  (forall w, count_events P (emitted (fn w)) = 1) ->
  (forall ms, P (EvSleep ms) = false) ->
  count_events P (emitted (withRateLimit_from fn retries i left w)) <= left.
Proof.
  intros Hone Hsleep. revert i w. induction left as [|left IH]; intros i w.
  - simpl. auto.
  - specialize (Hone w). run_of fn w. unfold emitted in Hone. simpl in Hone.
    destruct o as [a|e].
    + rewrite (retry_ok _ _ _ _ _ _ _ E). unfold emitted. simpl. lia.
    + destruct (is_rate_limit e) eqn:Hr.
      * rewrite (retry_again _ _ _ _ _ _ _ E Hr).
        specialize (IH (S i) (sleep (2 ^ i * 1000) w0)).
        destruct (withRateLimit_from fn retries (S i) left _) as [[o2 evs2] w2].
        unfold emitted in *. simpl in *.
        rewrite count_events_app. unfold count_events at 2. simpl.
        rewrite Hsleep. fold (count_events P evs2). lia.
      * rewrite (retry_other _ _ _ _ _ _ _ E Hr). unfold emitted. simpl. lia.
Qed.

(** Events of a given kind: if the operation and the timer only emit
    such events, so does the loop. *)
Lemma retry_events (P : event -> Prop) retries i left w :
  (forall w, Forall P (emitted (fn w))) ->
  (forall ms, P (EvSleep ms)) ->
  Forall P (emitted (withRateLimit_from fn retries i left w)).
Proof.
  intros Hfn Hsleep. revert i w. induction left as [|left IH]; intros i w.
  - constructor.
  - specialize (Hfn w). run_of fn w. unfold emitted in Hfn. simpl in Hfn.
    destruct o as [a|e].
    + now rewrite (retry_ok _ _ _ _ _ _ _ E).
    + destruct (is_rate_limit e) eqn:Hr.
      * rewrite (retry_again _ _ _ _ _ _ _ E Hr).
        specialize (IH (S i) (sleep (2 ^ i * 1000) w0)).
        destruct (withRateLimit_from fn retries (S i) left _) as [[o2 evs2] w2].
        unfold emitted in *. simpl in *.
        apply Forall_app. split; [assumption|]. constructor; auto.
      * now rewrite (retry_other _ _ _ _ _ _ _ E Hr).
Qed.

End RateLimit.

(** After [k] rate-limited attempts the loop is where it would be had it
    been entered [k] iterations later, in the world reached. *)
Lemma retry_after_throttled {W} {RT : Runtime W} {A} (fn : M W A)
  i k w evs w1 :
  Throttled fn i k w evs w1 ->
  forall retries left,
    withRateLimit_from fn retries i (k + left) w =
      match withRateLimit_from fn retries (k + i) left w1 with
      | (o, evs2, w2) => (o, evs ++ evs2, w2)
      end.
Proof.
  induction 1 as [i w|i k w e evs w1 evs' w2 E Hr _ IH]; intros retries left.
  - cbn [plus app]. now destruct (withRateLimit_from fn retries i left w) as [[o evs2] w2].
  - cbn [plus]. rewrite (retry_again fn _ _ _ _ _ _ _ E Hr), IH.
    rewrite Nat.add_succ_r.
    destruct (withRateLimit_from fn retries (S (k + i)) left w2)
      as [[o evs2] w3].
    now rewrite <- app_assoc.
Qed.

(** C5. [withRateLimit(fn, retries)], for every operation [fn]:
    - it returns the operation's result as soon as an invocation succeeds;
    - after a failure that shows a rate limit (status 429, or a message
      containing [rate limit]) at attempt [i] it waits [2^i * 1000] ms and
      goes on with attempt [i + 1];
    - an operation that fails with 429 twice and then succeeds returns the
      success value after two retries, with waits of 1000 ms then 2000 ms;
    - a failure of another kind propagates at once: no wait, no retry;
    - the operation is invoked at most [retries] times;
    - a rate-limit error of the operation never comes out: when every
      attempt is rate limited the loop throws its own error
      [Failed after <retries> retries], which is not a rate-limit error,
      hence differs from every underlying one.
    The first and the fourth point hold at every attempt, not only at the
    first one: at counter [i] with iterations left, a success is returned
    and a failure of another kind is thrown, with the effects of that one
    invocation only; with no iteration left the loop throws its own error
    without invoking the operation.  So the whole run is determined:
    after [k < retries] rate-limited attempts, each followed by its wait,
    a success of attempt [k + 1] is the result and a failure of another
    kind of attempt [k + 1] is thrown, nothing being invoked or awaited
    after it; after [retries] rate-limited attempts the loop's own error
    is thrown. *)
Theorem withRateLimit_policy :
  forall (W : Type) (RT : Runtime W) (A : Type) (fn : M W A),
    (forall retries w a evs w',
        fn w = (Ok a, evs, w') ->
        withRateLimit fn (S retries) w = (Ok a, evs, w'))
    /\ (forall retries i left w e evs w',
        fn w = (Throw e, evs, w') -> is_rate_limit e = true ->
        withRateLimit_from fn retries i (S left) w =
          match withRateLimit_from fn retries (S i) left
                  (sleep (2 ^ i * 1000) w') with
          | (o, evs2, w2) => (o, evs ++ EvSleep (2 ^ i * 1000) :: evs2, w2)
          end)
    /\ (forall w0 e1 evs1 w1 e2 evs2 w2 a evs3 w3,
        fn w0 = (Throw e1, evs1, w1) -> status e1 = Some 429 ->
        fn (sleep 1000 w1) = (Throw e2, evs2, w2) -> status e2 = Some 429 ->
        fn (sleep 2000 w2) = (Ok a, evs3, w3) ->
        withRateLimit fn default_retries w0 =
          (Ok a, evs1 ++ EvSleep 1000 :: evs2 ++ EvSleep 2000 :: evs3, w3))
    /\ (forall retries w e evs w',
        fn w = (Throw e, evs, w') -> is_rate_limit e = false ->
        withRateLimit fn (S retries) w = (Throw e, evs, w'))
    /\ (forall (P : event -> bool) retries w,
        (forall w, count_events P (emitted (fn w)) = 1) ->
        (forall ms, P (EvSleep ms) = false) ->
        count_events P (emitted (withRateLimit fn retries w)) <= retries)
    /\ (forall retries w e,
        outcome_of (withRateLimit fn retries w) = Throw e ->
        is_rate_limit e = false)
    /\ (forall retries w,
        (forall w, exists e,
            outcome_of (fn w) = Throw e /\ is_rate_limit e = true) ->
        outcome_of (withRateLimit fn retries w) = Throw (exhausted retries)
        /\ forall e, is_rate_limit e = true -> exhausted retries <> e)
    /\ (forall retries i left w a evs w',
        fn w = (Ok a, evs, w') ->
        withRateLimit_from fn retries i (S left) w = (Ok a, evs, w'))
    /\ (forall retries i left w e evs w',
        fn w = (Throw e, evs, w') -> is_rate_limit e = false ->
        withRateLimit_from fn retries i (S left) w = (Throw e, evs, w'))
    /\ (forall retries i w,
        withRateLimit_from fn retries i 0 w = (Throw (exhausted retries), [], w))
    /\ (forall retries k w evs w1,
        k < retries -> Throttled fn 0 k w evs w1 ->
        (forall a evs' w2,
            fn w1 = (Ok a, evs', w2) ->
            withRateLimit fn retries w = (Ok a, evs ++ evs', w2))
        /\ (forall e evs' w2,
               fn w1 = (Throw e, evs', w2) -> is_rate_limit e = false ->
               withRateLimit fn retries w = (Throw e, evs ++ evs', w2)))
    /\ (forall retries w evs w1,
        Throttled fn 0 retries w evs w1 ->
        withRateLimit fn retries w = (Throw (exhausted retries), evs, w1)).
Proof.
  intros W RT A fn.
  split; [|split; [|split; [|split; [|split; [|split; [|split;
    [|split; [|split; [|split; [|split]]]]]]]]]].
  12: {
    intros retries w evs w1 HT.
    pose proof (retry_after_throttled fn _ _ _ _ _ HT retries 0) as Hrun.
    replace (retries + 0) with retries in Hrun by lia.
    unfold withRateLimit. rewrite Hrun.
    cbn [withRateLimit_from]. unfold throw. now rewrite app_nil_r. }
  11: {
    intros retries k w evs w1 Hk HT.
    pose proof (retry_after_throttled fn _ _ _ _ _ HT retries
                  (S (retries - S k))) as Hrun.
    replace (k + S (retries - S k)) with retries in Hrun by lia.
    unfold withRateLimit. rewrite Hrun.
    split.
    - intros a evs' w2 E. now rewrite (retry_ok fn _ _ _ _ _ _ _ E).
    - intros e evs' w2 E Hr. now rewrite (retry_other fn _ _ _ _ _ _ _ E Hr). }
  10: { intros retries i w. reflexivity. }
  9: { intros retries i left w e evs w' E Hr. now apply retry_other. }
  8: { intros retries i left w a evs w' E. now apply retry_ok. }
  - intros retries w a evs w' E. now apply retry_ok.
  - intros retries i left w e evs w' E Hr. now apply retry_again with e.
  - intros w0 e1 evs1 w1 e2 evs2 w2 a evs3 w3 E1 S1 E2 S2 E3.
    assert (R1 : is_rate_limit e1 = true).
    { unfold is_rate_limit. rewrite S1. apply orb_true_r. }
    assert (R2 : is_rate_limit e2 = true).
    { unfold is_rate_limit. rewrite S2. apply orb_true_r. }
    unfold withRateLimit, default_retries.
    rewrite (retry_again fn _ _ _ _ _ _ _ E1 R1).
    change (2 ^ 0 * 1000) with 1000.
    rewrite (retry_again fn _ _ _ _ _ _ _ E2 R2).
    change (2 ^ 1 * 1000) with 2000.
    rewrite (retry_ok fn _ _ _ _ _ _ _ E3). reflexivity.
  - intros retries w e evs w' E Hr. now apply retry_other.
  - intros P retries w Hone Hsleep. now apply retry_attempts.
  - intros retries w e. apply retry_never_rate_limit.
  - intros retries w Hall. split; [now apply retry_exhausted|].
    intros e He Heq. rewrite <- Heq in He.
    now rewrite exhausted_not_rate_limit in He.
Qed.

(** ** The loop of a direction *)

Lemma published_ids_app l1 l2 :
  published_ids (l1 ++ l2) = published_ids l1 ++ published_ids l2.
Proof.
  induction l1 as [|e l1 IH]; simpl; [reflexivity|].
  destruct (published_id e); simpl; now rewrite IH.
Qed.

Section Loop.
Context {W : Type} {X : Type}.
Variable body : X -> M W (option SyncedPost).

Lemma for_of_step x xs acc w :
  for_of body (x :: xs) acc w =
    match body x w with
    | (o, evs, w1) =>
        match for_of body xs (pushed_onto acc o) w1 with
        | (o', evs', w2) => (o', evs ++ evs', w2)
        end
    end.
Proof.
  cbn [for_of]. unfold bind, try_catch, ret. run_of (body x) w.
  destruct o as [[p|]|e]; cbn [pushed_onto]; try reflexivity.
  rewrite app_nil_r. reflexivity.
Qed.

(** No exception leaves the loop. *)
Lemma for_of_ok xs acc w :
  exists out, outcome_of (for_of body xs acc w) = Ok out.
Proof.
  revert acc w. induction xs as [|x xs IH]; intros acc w.
  - now exists acc.
  - rewrite for_of_step. run_of (body x) w.
    destruct (IH (pushed_onto acc o) w0) as [out Hout].
    destruct (for_of body xs _ w0) as [[o' evs'] w2].
    now exists out.
Qed.

Lemma for_of_acc xs acc w :
  for_of body xs acc w =
    match for_of body xs [] w with
    | (Ok out, evs, w') => (Ok (acc ++ out), evs, w')
    | (Throw e, evs, w') => (Throw e, evs, w')
    end.
Proof.
  revert acc w. induction xs as [|x xs IH]; intros acc w.
  - cbn. now rewrite app_nil_r.
  - rewrite !for_of_step. run_of (body x) w.
    rewrite (IH (pushed_onto acc o)), (IH (pushed_onto [] o)).
    destruct (for_of body xs [] w0) as [[[out|e] evs'] w2]; [|reflexivity].
    destruct o as [[p|]|e]; cbn [pushed_onto]; try reflexivity.
    now rewrite app_assoc.
Qed.

Lemma for_of_app xs ys acc w :
  for_of body (xs ++ ys) acc w =
    match for_of body xs acc w with
    | (Ok out, evs, w1) =>
        match for_of body ys out w1 with
        | (o, evs', w2) => (o, evs ++ evs', w2)
        end
    | (Throw e, evs, w1) => (Throw e, evs, w1)
    end.
Proof.
  revert acc w. induction xs as [|x xs IH]; intros acc w.
  - cbn. now destruct (for_of body ys acc w) as [[o evs] w2].
  - rewrite <- app_comm_cons, !for_of_step. run_of (body x) w.
    rewrite IH.
    destruct (for_of body xs _ w0) as [[[out|e] evs1] w1]; [|reflexivity].
    destruct (for_of body ys out w1) as [[o2 evs2] w2].
    now rewrite app_assoc.
Qed.

(** A post whose body [continue]s without any effect can be removed from
    the list. *)
Lemma for_of_skip (keep : X -> bool) xs acc w :
  (forall x w, keep x = false -> body x w = (Ok None, [], w)) ->
  for_of body xs acc w = for_of body (filter keep xs) acc w.
Proof.
  intros Hskip. revert acc w. induction xs as [|x xs IH]; intros acc w.
  - reflexivity.
  - cbn [filter]. destruct (keep x) eqn:K.
    + rewrite !for_of_step. run_of (body x) w. now rewrite IH.
    + rewrite for_of_step, (Hskip x w K). cbn [pushed_onto].
      rewrite IH. now destruct (for_of body (filter keep xs) acc w) as [[o e] w'].
Qed.

(** A loop whose body is pure maps the kept posts to their records. *)
Lemma for_of_pure (keep : X -> bool) (mk : X -> SyncedPost) xs acc w :
  (forall x w,
      body x w = (Ok (if keep x then Some (mk x) else None), [], w)) ->
  for_of body xs acc w = (Ok (acc ++ map mk (filter keep xs)), [], w).
Proof.
  intros Hpure. revert acc w. induction xs as [|x xs IH]; intros acc w.
  - cbn. now rewrite app_nil_r.
  - rewrite for_of_step, Hpure, IH. cbn [filter].
    destruct (keep x); cbn [pushed_onto map]; [|reflexivity].
    now rewrite <- app_assoc.
Qed.

Lemma for_of_events (P : event -> Prop) xs acc w :
  (forall x w, Forall P (emitted (body x w))) ->
  Forall P (emitted (for_of body xs acc w)).
Proof.
  intros Hbody. revert acc w. induction xs as [|x xs IH]; intros acc w.
  - constructor.
  - rewrite for_of_step. specialize (Hbody x w). run_of (body x) w.
    specialize (IH (pushed_onto acc o) w0).
    destruct (for_of body xs _ w0) as [[o' evs'] w2].
    unfold emitted in *. cbn in *. apply Forall_app. now split.
Qed.

(** Every record of the output was in the accumulator or was pushed by
    the body for some post of the list. *)
Lemma for_of_records (Q : X -> SyncedPost -> Prop) xs acc w out :
  (forall x w p, outcome_of (body x w) = Ok (Some p) -> Q x p) ->
  outcome_of (for_of body xs acc w) = Ok out ->
  forall r, In r out -> In r acc \/ exists x, In x xs /\ Q x r.
Proof.
  intros Hbody. revert acc w. induction xs as [|x xs IH]; intros acc w.
  - cbn. intros [= <-] r Hr. now left.
  - rewrite for_of_step. specialize (Hbody x w). run_of (body x) w.
    specialize (IH (pushed_onto acc o) w0).
    destruct (for_of body xs _ w0) as [[o' evs'] w2].
    unfold outcome_of in *. cbn in *. intros Ho r Hr.
    destruct (IH Ho r Hr) as [Hacc|(y & Hy & HQ)].
    + destruct o as [[p|]|e]; cbn in Hacc; auto.
      apply in_app_or in Hacc. destruct Hacc as [Hacc|[<-|[]]]; auto.
      right. exists x. split; [now left|]. now apply Hbody.
    + right. exists y. split; [now right|assumption].
Qed.

(** When every push of the body goes with exactly one successful publish
    call returning the pushed target identifier, and nothing else
    publishes successfully, the target identifiers of the output are the
    identifiers returned, in order. *)
Lemma for_of_ids xs acc w out :
  (forall x w,
      published_ids (emitted (body x w)) =
        match outcome_of (body x w) with
        | Ok (Some p) => [targetId p]
        | _ => []
        end) ->
  outcome_of (for_of body xs acc w) = Ok out ->
  map targetId out =
    map targetId acc ++ published_ids (emitted (for_of body xs acc w)).
Proof.
  intros Hbody. revert acc w out. induction xs as [|x xs IH]; intros acc w out.
  - cbn. intros [= <-]. now rewrite app_nil_r.
  - rewrite for_of_step. specialize (Hbody x w). run_of (body x) w.
    specialize (IH (pushed_onto acc o) w0 out).
    destruct (for_of body xs _ w0) as [[o' evs'] w2].
    unfold outcome_of, emitted in *. cbn in *. intros Ho.
    rewrite (IH Ho), published_ids_app, Hbody.
    destruct o as [[p|]|e]; cbn [pushed_onto]; try reflexivity.
    now rewrite map_app, <- app_assoc.
Qed.

End Loop.

(** ** The publish calls *)

Section Directions.
Context {W : Type} {RT : Runtime W}.
Variable svc : SocialSyncService.

Lemma retry_publishes {A} (fn : M W A) (ids : A -> list string) retries i left w :
  (forall w, publishes (fn w) ids) ->
  publishes (withRateLimit_from fn retries i left w) ids.
Proof.
  intros Hfn. revert i w. induction left as [|left IH]; intros i w.
  - reflexivity.
  - specialize (Hfn w). run_of fn w. destruct o as [a|e].
    + now rewrite (retry_ok fn _ _ _ _ _ _ _ E).
    + destruct (is_rate_limit e) eqn:Hr.
      * rewrite (retry_again fn _ _ _ _ _ _ _ E Hr).
        specialize (IH (S i) (sleep (2 ^ i * 1000) w0)).
        destruct (withRateLimit_from fn retries (S i) left _) as [[o2 evs2] w2].
        unfold publishes, emitted, outcome_of in *. cbn in *.
        rewrite published_ids_app. cbn. now rewrite Hfn.
      * now rewrite (retry_other fn _ _ _ _ _ _ _ E Hr).
Qed.

Lemma status_request_publishes text w :
  publishes
    (mastodonRequest svc fetch_status EvFetchStatus "/api/v1/statuses"
       (Some "POST") (Some (mkStatusBody text "public")) None w)
    (fun st => [status_id st]).
Proof.
  unfold publishes, mastodonRequest, bind, perform, throw, settle.
  destruct (fetch_status _ w) as [[r|e] w1]; [|reflexivity].
  destruct r as [okr st txt [j|e]]; destruct okr; reflexivity.
Qed.

Lemma publish_to_mastodon_publishes text w :
  publishes (publish_to_mastodon svc text w) (fun st => [status_id st]).
Proof. apply retry_publishes. intros w'. apply status_request_publishes. Qed.

Lemma bsky_post_publishes text w :
  publishes
    ((createdAt <- now ;;
      perform (bsky_post text createdAt) (EvBskyPost text createdAt)) w)
    (fun ref => [ref_uri ref]).
Proof.
  unfold publishes, bind, now, perform.
  destruct (clock w) as [t w1].
  destruct (bsky_post text t w1) as [[ref|e] w2]; reflexivity.
Qed.

Lemma publish_to_bluesky_publishes text w :
  publishes (publish_to_bluesky text w) (fun ref => [ref_uri ref]).
Proof. apply retry_publishes. intros w'. apply bsky_post_publishes. Qed.

(** ** The body of each direction, case by case *)

Lemma bluesky_body_skip item w :
  bluesky_eligible svc item = false ->
  bluesky_body svc item w = (Ok None, [], w).
Proof.
  unfold bluesky_eligible, bluesky_body, bluesky_marked.
  destruct (older_than_lastSync svc _); [reflexivity|].
  destruct (this_ignoreReposts svc && _); [reflexivity|discriminate].
Qed.

Lemma bluesky_body_dry item w :
  bluesky_eligible svc item = true -> this_dryRun svc = true ->
  bluesky_body svc item w = (Ok (Some (bluesky_record svc item "DRY_RUN")), [], w).
Proof.
  unfold bluesky_eligible, bluesky_body, bluesky_marked, bluesky_record.
  intros He Hd.
  destruct (older_than_lastSync svc _); [discriminate|].
  destruct (this_ignoreReposts svc && _); [discriminate|].
  rewrite Hd. reflexivity.
Qed.

Lemma bluesky_body_live item w :
  bluesky_eligible svc item = true -> this_dryRun svc = false ->
  bluesky_body svc item w =
    match publish_to_mastodon svc (rec_text (record (post item))) w with
    | (Ok st, evs, w1) =>
        (Ok (Some (bluesky_record svc item (status_id st))), evs, w1)
    | (Throw e, evs, w1) => (Throw e, evs, w1)
    end.
Proof.
  unfold bluesky_eligible, bluesky_body, bluesky_marked. intros He Hd.
  destruct (older_than_lastSync svc _); [discriminate|].
  destruct (this_ignoreReposts svc && _); [discriminate|].
  rewrite Hd. cbn [negb]. unfold bind, ret.
  destruct (publish_to_mastodon svc _ w) as [[[st|e] evs] w1]; [|reflexivity].
  unfold bluesky_record. rewrite Hd, !app_nil_r. reflexivity.
Qed.

Lemma mastodon_body_skip p w :
  mastodon_eligible svc p = false ->
  mastodon_body svc p w = (Ok None, [], w).
Proof.
  unfold mastodon_eligible, mastodon_body, mastodon_marked, same_author.
  destruct (older_than_lastSync svc _); [reflexivity|].
  destruct (this_ignoreReposts svc && _); [reflexivity|].
  destruct (String.eqb _ _); [discriminate|reflexivity].
Qed.

Lemma mastodon_body_dry p w :
  mastodon_eligible svc p = true -> this_dryRun svc = true ->
  mastodon_body svc p w = (Ok (Some (mastodon_record svc p "DRY_RUN")), [], w).
Proof.
  unfold mastodon_eligible, mastodon_body, mastodon_marked, same_author,
    mastodon_record.
  intros He Hd.
  destruct (older_than_lastSync svc _); [discriminate|].
  destruct (this_ignoreReposts svc && _); [discriminate|].
  destruct (String.eqb _ _); [|discriminate].
  rewrite Hd. reflexivity.
Qed.

Lemma mastodon_body_live p w :
  mastodon_eligible svc p = true -> this_dryRun svc = false ->
  mastodon_body svc p w =
    match publish_to_bluesky (cleanMastodonContent (content p)) w with
    | (Ok ref, evs, w1) =>
        (Ok (Some (mastodon_record svc p (ref_uri ref))), evs, w1)
    | (Throw e, evs, w1) => (Throw e, evs, w1)
    end.
Proof.
  unfold mastodon_eligible, mastodon_body, mastodon_marked, same_author.
  intros He Hd.
  destruct (older_than_lastSync svc _); [discriminate|].
  destruct (this_ignoreReposts svc && _); [discriminate|].
  destruct (String.eqb _ _); [|discriminate].
  rewrite Hd. cbn [negb]. unfold bind, ret.
  destruct (publish_to_bluesky _ w) as [[[ref|e] evs] w1]; [|reflexivity].
  unfold mastodon_record. rewrite Hd, !app_nil_r. reflexivity.
Qed.

(** A body pushes only the record of an eligible post. *)
Lemma bluesky_body_pushes item w r :
  outcome_of (bluesky_body svc item w) = Ok (Some r) ->
  bluesky_eligible svc item = true /\
  exists target, r = bluesky_record svc item target.
Proof.
  destruct (bluesky_eligible svc item) eqn:He.
  - destruct (this_dryRun svc) eqn:Hd.
    + rewrite (bluesky_body_dry _ _ He Hd). intros [= <-]. eauto.
    + rewrite (bluesky_body_live _ _ He Hd).
      destruct (publish_to_mastodon svc _ w) as [[[st|e] evs] w1];
        [|discriminate].
      intros [= <-]. eauto.
  - rewrite (bluesky_body_skip _ _ He). discriminate.
Qed.

Lemma mastodon_body_pushes p w r :
  outcome_of (mastodon_body svc p w) = Ok (Some r) ->
  mastodon_eligible svc p = true /\
  exists target, r = mastodon_record svc p target.
Proof.
  destruct (mastodon_eligible svc p) eqn:He.
  - destruct (this_dryRun svc) eqn:Hd.
    + rewrite (mastodon_body_dry _ _ He Hd). intros [= <-]. eauto.
    + rewrite (mastodon_body_live _ _ He Hd).
      destruct (publish_to_bluesky _ w) as [[[ref|e] evs] w1]; [|discriminate].
      intros [= <-]. eauto.
  - rewrite (mastodon_body_skip _ _ He). discriminate.
Qed.

End Directions.

(** ** Which effects a computation can emit *)

Section Emitted.
Context {W : Type} {RT : Runtime W}.
Variable P : event -> Prop.

Lemma bind_events {A B} (m : M W A) (k : A -> M W B) w :
  Forall P (emitted (m w)) ->
  (forall a w, Forall P (emitted (k a w))) ->
  Forall P (emitted (bind m k w)).
Proof.
  intros Hm Hk. unfold bind. run_of m w. destruct o as [a|e]; [|exact Hm].
  specialize (Hk a w0). destruct (k a w0) as [[o evs'] w2].
  unfold emitted in *. cbn in *. apply Forall_app. now split.
Qed.

Lemma try_catch_events {A} (m : M W A) h w :
  Forall P (emitted (m w)) ->
  (forall e w, Forall P (emitted (h e w))) ->
  Forall P (emitted (try_catch m h w)).
Proof.
  intros Hm Hh. unfold try_catch. run_of m w. destruct o as [a|e]; [exact Hm|].
  specialize (Hh e w0). destruct (h e w0) as [[o evs'] w2].
  unfold emitted in *. cbn in *. apply Forall_app. now split.
Qed.

Lemma perform_events {A} (op : W -> Outcome A * W) ev w :
  (forall o, P (ev o)) -> Forall P (emitted (perform op ev w)).
Proof.
  intros Hev. unfold perform. destruct (op w) as [o w1].
  unfold emitted. cbn. auto.
Qed.

Lemma pure_events {A} (m : M W A) w :
  emitted (m w) = [] -> Forall P (emitted (m w)).
Proof. intros ->. constructor. Qed.

Lemma now_events w : (forall t, P (EvNow t)) -> Forall P (emitted (now w)).
Proof.
  intros Hev. unfold now. destruct (clock w) as [t w1].
  unfold emitted. cbn. auto.
Qed.

Lemma mastodonRequest_events {J} svc
  (fetch : Request -> W -> Outcome (Response J) * W) ev endpoint method body
  limit w :
  (forall q o, P (ev q o)) ->
  Forall P (emitted (mastodonRequest svc fetch ev endpoint method body limit w)).
Proof.
  intros Hev. unfold mastodonRequest. apply bind_events.
  - apply perform_events. intros o. apply Hev.
  - intros r w'. destruct (negb (ok r)); now apply pure_events.
Qed.

Lemma withRateLimit_events {A} (fn : M W A) retries w :
  (forall w, Forall P (emitted (fn w))) ->
  (forall ms, P (EvSleep ms)) ->
  Forall P (emitted (withRateLimit fn retries w)).
Proof. intros. now apply retry_events. Qed.

Hypothesis P_sleep : forall ms, P (EvSleep ms).
Hypothesis P_now : forall t, P (EvNow t).

Lemma fetch_feed_events svc w :
  (forall a l o, P (EvGetAuthorFeed a l o)) ->
  Forall P (emitted (fetch_feed svc w)).
Proof.
  intros Hev. apply withRateLimit_events; [|assumption].
  intros w'. apply perform_events. intros o. apply Hev.
Qed.

Lemma fetch_timeline_events svc w :
  (forall q o, P (EvFetchTimeline q o)) ->
  Forall P (emitted (fetch_timeline_posts svc w)).
Proof.
  intros Hev. apply withRateLimit_events; [|assumption].
  intros w'. now apply mastodonRequest_events.
Qed.

Lemma publish_to_mastodon_events svc text w :
  (forall q o, P (EvFetchStatus q o)) ->
  Forall P (emitted (publish_to_mastodon svc text w)).
Proof.
  intros Hev. apply withRateLimit_events; [|assumption].
  intros w'. now apply mastodonRequest_events.
Qed.

Lemma publish_to_bluesky_events text w :
  (forall t c o, P (EvBskyPost t c o)) ->
  Forall P (emitted (publish_to_bluesky text w)).
Proof.
  intros Hev. apply withRateLimit_events; [|assumption].
  intros w'. apply bind_events; [now apply now_events|].
  intros t w''. apply perform_events. intros o. apply Hev.
Qed.

Lemma bluesky_body_events svc item w :
  (forall q o, P (EvFetchStatus q o)) ->
  Forall P (emitted (bluesky_body svc item w)).
Proof.
  intros Hev. unfold bluesky_body.
  destruct (older_than_lastSync svc _); [now apply pure_events|].
  destruct (this_ignoreReposts svc && _); [now apply pure_events|].
  apply bind_events; [|intros; now apply pure_events].
  destruct (negb (this_dryRun svc)); [|now apply pure_events].
  apply bind_events; [now apply publish_to_mastodon_events|].
  intros; now apply pure_events.
Qed.

Lemma mastodon_body_events svc p w :
  (forall t c o, P (EvBskyPost t c o)) ->
  Forall P (emitted (mastodon_body svc p w)).
Proof.
  intros Hev. unfold mastodon_body.
  destruct (older_than_lastSync svc _); [now apply pure_events|].
  destruct (this_ignoreReposts svc && _); [now apply pure_events|].
  destruct (negb (String.eqb _ _)); [now apply pure_events|].
  apply bind_events; [|intros; now apply pure_events].
  destruct (negb (this_dryRun svc)); [|now apply pure_events].
  apply bind_events; [now apply publish_to_bluesky_events|].
  intros; now apply pure_events.
Qed.

Lemma syncFromBluesky_events svc w :
  (forall a l o, P (EvGetAuthorFeed a l o)) ->
  (forall q o, P (EvFetchStatus q o)) ->
  Forall P (emitted (syncFromBluesky svc w)).
Proof.
  intros Hfeed Hstatus. apply bind_events; [now apply fetch_feed_events|].
  intros feed w'. apply for_of_events. intros item w''.
  now apply bluesky_body_events.
Qed.

Lemma syncFromMastodon_events svc w :
  (forall q o, P (EvFetchTimeline q o)) ->
  (forall t c o, P (EvBskyPost t c o)) ->
  Forall P (emitted (syncFromMastodon svc w)).
Proof.
  intros Htl Hpost. apply bind_events; [now apply fetch_timeline_events|].
  intros tl w'. apply for_of_events. intros p w''.
  now apply mastodon_body_events.
Qed.

Lemma initialize_events svc w :
  (forall b o, P (EvFetchInstance b o)) ->
  (forall q o, P (EvFetchAccount q o)) ->
  (forall i p o, P (EvBskyLogin i p o)) ->
  Forall P (emitted (initialize svc w)).
Proof.
  intros Hinst Hacct Hlogin. unfold initialize.
  apply bind_events.
  - rewrite try_rethrow. apply bind_events.
    + apply perform_events. intros o. apply Hinst.
    + intros r w1. apply bind_events.
      * destruct (negb (ok r)); now apply pure_events.
      * intros _ w2. apply bind_events; [now apply pure_events|].
        intros _ w3. apply bind_events; [now apply mastodonRequest_events|].
        intros; now apply pure_events.
  - intros _ w1. rewrite try_rethrow. apply perform_events. intros o. apply Hlogin.
Qed.

End Emitted.

(** ** Each direction as a fetch followed by the loop *)

Section Pass.
Context {W : Type} {RT : Runtime W}.

Lemma this_dryRun_constructor cfg : this_dryRun (constructor cfg) = dryRun cfg.
Proof. apply orb_false_r. Qed.

Lemma syncFromBluesky_fetched svc w feed evs w1 :
  fetch_feed svc w = (Ok feed, evs, w1) ->
  syncFromBluesky svc w =
    match for_of (bluesky_body svc) feed [] w1 with
    | (o, evs', w2) => (o, evs ++ evs', w2)
    end.
Proof. intros E. unfold syncFromBluesky. now rewrite (bind_ok _ _ _ _ _ _ E). Qed.

Lemma syncFromMastodon_fetched svc w tl evs w1 :
  fetch_timeline_posts svc w = (Ok tl, evs, w1) ->
  syncFromMastodon svc w =
    match for_of (mastodon_body svc) tl [] w1 with
    | (o, evs', w2) => (o, evs ++ evs', w2)
    end.
Proof. intros E. unfold syncFromMastodon. now rewrite (bind_ok _ _ _ _ _ _ E). Qed.

(** A direction returns as soon as its fetch does. *)
Lemma syncFromBluesky_returns svc w feed evs w1 :
  fetch_feed svc w = (Ok feed, evs, w1) ->
  exists out,
    outcome_of (syncFromBluesky svc w) = Ok out /\
    outcome_of (for_of (bluesky_body svc) feed [] w1) = Ok out.
Proof.
  intros E. rewrite (syncFromBluesky_fetched _ _ _ _ _ E).
  destruct (for_of_ok (bluesky_body svc) feed [] w1) as [out Hout].
  exists out. destruct (for_of _ feed [] w1) as [[o evs'] w2]. now split.
Qed.

Lemma syncFromMastodon_returns svc w tl evs w1 :
  fetch_timeline_posts svc w = (Ok tl, evs, w1) ->
  exists out,
    outcome_of (syncFromMastodon svc w) = Ok out /\
    outcome_of (for_of (mastodon_body svc) tl [] w1) = Ok out.
Proof.
  intros E. rewrite (syncFromMastodon_fetched _ _ _ _ _ E).
  destruct (for_of_ok (mastodon_body svc) tl [] w1) as [out Hout].
  exists out. destruct (for_of _ tl [] w1) as [[o evs'] w2]. now split.
Qed.

(** A direction that returns did fetch, and its output is the loop's. *)
Lemma syncFromBluesky_inv svc w out :
  outcome_of (syncFromBluesky svc w) = Ok out ->
  exists feed evs w1,
    fetch_feed svc w = (Ok feed, evs, w1) /\
    outcome_of (for_of (bluesky_body svc) feed [] w1) = Ok out.
Proof.
  destruct (fetch_feed svc w) as [[[feed|e] evs] w1] eqn:E.
  - rewrite (syncFromBluesky_fetched _ _ _ _ _ E). intros Ho.
    exists feed, evs, w1. split; [reflexivity|].
    now destruct (for_of _ feed [] w1) as [[o evs'] w2].
  - unfold syncFromBluesky. now rewrite (bind_throw _ _ _ _ _ _ E).
Qed.

Lemma syncFromMastodon_inv svc w out :
  outcome_of (syncFromMastodon svc w) = Ok out ->
  exists tl evs w1,
    fetch_timeline_posts svc w = (Ok tl, evs, w1) /\
    outcome_of (for_of (mastodon_body svc) tl [] w1) = Ok out.
Proof.
  destruct (fetch_timeline_posts svc w) as [[[tl|e] evs] w1] eqn:E.
  - rewrite (syncFromMastodon_fetched _ _ _ _ _ E). intros Ho.
    exists tl, evs, w1. split; [reflexivity|].
    now destruct (for_of _ tl [] w1) as [[o evs'] w2].
  - unfold syncFromMastodon. now rewrite (bind_throw _ _ _ _ _ _ E).
Qed.

(** Every record of a loop's output is the record of an eligible post of
    the list. *)
Lemma bluesky_loop_records svc feed w out :
  outcome_of (for_of (bluesky_body svc) feed [] w) = Ok out ->
  forall r, In r out ->
    exists item target,
      In item feed /\ bluesky_eligible svc item = true /\
      r = bluesky_record svc item target.
Proof.
  intros Ho r Hr.
  destruct (for_of_records (bluesky_body svc)
              (fun item r => bluesky_eligible svc item = true /\
                             exists target, r = bluesky_record svc item target)
              feed [] w out) with (r := r) as [[]|(item & Hin & He & target & ->)];
    auto.
  - intros x w' p. apply bluesky_body_pushes.
  - now exists item, target.
Qed.

Lemma mastodon_loop_records svc tl w out :
  outcome_of (for_of (mastodon_body svc) tl [] w) = Ok out ->
  forall r, In r out ->
    exists p target,
      In p tl /\ mastodon_eligible svc p = true /\
      r = mastodon_record svc p target.
Proof.
  intros Ho r Hr.
  destruct (for_of_records (mastodon_body svc)
              (fun p r => mastodon_eligible svc p = true /\
                          exists target, r = mastodon_record svc p target)
              tl [] w out) with (r := r) as [[]|(p & Hin & He & target & ->)];
    auto.
  - intros x w' q. apply mastodon_body_pushes.
  - now exists p, target.
Qed.

(** The loops in dry-run mode are pure. *)
Lemma bluesky_loop_dry svc feed w :
  this_dryRun svc = true ->
  for_of (bluesky_body svc) feed [] w =
    (Ok (map (fun item => bluesky_record svc item "DRY_RUN")
             (filter (bluesky_eligible svc) feed)), [], w).
Proof.
  intros Hd.
  rewrite (for_of_pure (bluesky_body svc) (bluesky_eligible svc)
             (fun item => bluesky_record svc item "DRY_RUN")); [reflexivity|].
  intros item w'. destruct (bluesky_eligible svc item) eqn:He.
  - now apply bluesky_body_dry.
  - now apply bluesky_body_skip.
Qed.

Lemma mastodon_loop_dry svc tl w :
  this_dryRun svc = true ->
  for_of (mastodon_body svc) tl [] w =
    (Ok (map (fun p => mastodon_record svc p "DRY_RUN")
             (filter (mastodon_eligible svc) tl)), [], w).
Proof.
  intros Hd.
  rewrite (for_of_pure (mastodon_body svc) (mastodon_eligible svc)
             (fun p => mastodon_record svc p "DRY_RUN")); [reflexivity|].
  intros p w'. destruct (mastodon_eligible svc p) eqn:He.
  - now apply mastodon_body_dry.
  - now apply mastodon_body_skip.
Qed.

Lemma quiet_no_ids evs :
  Forall (fun e => is_publish e = false) evs -> published_ids evs = [].
Proof.
  induction 1 as [|e evs He _ IH]; [reflexivity|].
  cbn. destruct e; try discriminate; cbn; assumption.
Qed.

(** In a live run each push of a body goes with the one successful
    publish call that returned its target identifier. *)
Lemma bluesky_body_ids svc item w :
  this_dryRun svc = false ->
  published_ids (emitted (bluesky_body svc item w)) =
    match outcome_of (bluesky_body svc item w) with
    | Ok (Some p) => [targetId p]
    | _ => []
    end.
Proof.
  intros Hd. destruct (bluesky_eligible svc item) eqn:He.
  - rewrite (bluesky_body_live _ _ _ He Hd).
    pose proof (publish_to_mastodon_publishes svc
                  (rec_text (record (post item))) w) as Hp.
    unfold publishes in Hp.
    now destruct (publish_to_mastodon svc _ w) as [[[st|e] evs] w1].
  - now rewrite (bluesky_body_skip _ _ _ He).
Qed.

Lemma mastodon_body_ids svc p w :
  this_dryRun svc = false ->
  published_ids (emitted (mastodon_body svc p w)) =
    match outcome_of (mastodon_body svc p w) with
    | Ok (Some r) => [targetId r]
    | _ => []
    end.
Proof.
  intros Hd. destruct (mastodon_eligible svc p) eqn:He.
  - rewrite (mastodon_body_live _ _ _ He Hd).
    pose proof (publish_to_bluesky_publishes
                  (cleanMastodonContent (content p)) w) as Hp.
    unfold publishes in Hp.
    now destruct (publish_to_bluesky _ w) as [[[ref|e] evs] w1].
  - now rewrite (mastodon_body_skip _ _ _ He).
Qed.

Lemma fetch_feed_quiet svc w :
  Forall (fun e => is_publish e = false) (emitted (fetch_feed svc w)).
Proof. apply fetch_feed_events; reflexivity. Qed.

Lemma fetch_timeline_quiet svc w :
  Forall (fun e => is_publish e = false) (emitted (fetch_timeline_posts svc w)).
Proof. apply fetch_timeline_events; reflexivity. Qed.

End Pass.

(** ** Dry run and live run *)

(** C1. For every configuration and every world: when [dryRun] is true,
    neither direction invokes a publish call and every record either
    direction produces has [targetId = DRY_RUN] and [simulated = true];
    when [dryRun] is false, every record has [simulated = false] and the
    target identifiers of the output are exactly the identifiers returned
    by the successful publish calls of that direction, in order. *)
Theorem dry_run_simulates_live_run_publishes :
  forall (W : Type) (RT : Runtime W) (cfg : SyncConfig) (w : W),
    (dryRun cfg = true ->
       (forall e, In e (emitted (syncFromBluesky (constructor cfg) w)) ->
                  is_publish e = false)
       /\ (forall e, In e (emitted (syncFromMastodon (constructor cfg) w)) ->
                     is_publish e = false)
       /\ (forall out r,
              outcome_of (syncFromBluesky (constructor cfg) w) = Ok out ->
              In r out -> targetId r = "DRY_RUN" /\ simulated r = true)
       /\ (forall out r,
              outcome_of (syncFromMastodon (constructor cfg) w) = Ok out ->
              In r out -> targetId r = "DRY_RUN" /\ simulated r = true))
    /\ (dryRun cfg = false ->
       (forall out,
           outcome_of (syncFromBluesky (constructor cfg) w) = Ok out ->
           map targetId out =
             published_ids (emitted (syncFromBluesky (constructor cfg) w))
           /\ forall r, In r out -> simulated r = false)
       /\ (forall out,
           outcome_of (syncFromMastodon (constructor cfg) w) = Ok out ->
           map targetId out =
             published_ids (emitted (syncFromMastodon (constructor cfg) w))
           /\ forall r, In r out -> simulated r = false)).
Proof.
  intros W RT cfg w. set (svc := constructor cfg).
  assert (Hdry : this_dryRun svc = dryRun cfg) by apply this_dryRun_constructor.
  split; intros Hd; rewrite Hd in Hdry.
  - split; [|split; [|split]].
    + apply Forall_forall.
      destruct (fetch_feed svc w) as [[[feed|e] evs] w1] eqn:E.
      * rewrite (syncFromBluesky_fetched _ _ _ _ _ E), bluesky_loop_dry by assumption.
        unfold emitted. cbn. rewrite app_nil_r.
        pose proof (fetch_feed_quiet svc w) as Hq. now rewrite E in Hq.
      * unfold syncFromBluesky. rewrite (bind_throw _ _ _ _ _ _ E).
        pose proof (fetch_feed_quiet svc w) as Hq. now rewrite E in Hq.
    + apply Forall_forall.
      destruct (fetch_timeline_posts svc w) as [[[tl|e] evs] w1] eqn:E.
      * rewrite (syncFromMastodon_fetched _ _ _ _ _ E), mastodon_loop_dry by assumption.
        unfold emitted. cbn. rewrite app_nil_r.
        pose proof (fetch_timeline_quiet svc w) as Hq. now rewrite E in Hq.
      * unfold syncFromMastodon. rewrite (bind_throw _ _ _ _ _ _ E).
        pose proof (fetch_timeline_quiet svc w) as Hq. now rewrite E in Hq.
    + intros out r Ho Hr.
      destruct (syncFromBluesky_inv _ _ _ Ho) as (feed & evs & w1 & _ & Hl).
      destruct (bluesky_loop_records _ _ _ _ Hl r Hr) as (item & target & _ & _ & ->).
      rewrite bluesky_loop_dry in Hl by assumption. injection Hl as <-.
      apply in_map_iff in Hr. destruct Hr as (item' & Heq & _).
      rewrite <- Heq. cbn. now split.
    + intros out r Ho Hr.
      destruct (syncFromMastodon_inv _ _ _ Ho) as (tl & evs & w1 & _ & Hl).
      destruct (mastodon_loop_records _ _ _ _ Hl r Hr) as (p & target & _ & _ & ->).
      rewrite mastodon_loop_dry in Hl by assumption. injection Hl as <-.
      apply in_map_iff in Hr. destruct Hr as (p' & Heq & _).
      rewrite <- Heq. cbn. now split.
  - split.
    + intros out Ho.
      destruct (syncFromBluesky_inv _ _ _ Ho) as (feed & evs & w1 & E & Hl).
      split.
      * rewrite (syncFromBluesky_fetched _ _ _ _ _ E).
        pose proof (for_of_ids (bluesky_body svc) feed [] w1 out
                      (fun x w' => bluesky_body_ids svc x w' Hdry) Hl) as Hids.
        pose proof (fetch_feed_quiet svc w) as Hq. rewrite E in Hq.
        destruct (for_of _ feed [] w1) as [[o evs'] w2].
        unfold emitted in *. cbn in *.
        now rewrite published_ids_app, (quiet_no_ids _ Hq).
      * intros r Hr.
        destruct (bluesky_loop_records _ _ _ _ Hl r Hr) as (item & target & _ & _ & ->).
        exact Hdry.
    + intros out Ho.
      destruct (syncFromMastodon_inv _ _ _ Ho) as (tl & evs & w1 & E & Hl).
      split.
      * rewrite (syncFromMastodon_fetched _ _ _ _ _ E).
        pose proof (for_of_ids (mastodon_body svc) tl [] w1 out
                      (fun x w' => mastodon_body_ids svc x w' Hdry) Hl) as Hids.
        pose proof (fetch_timeline_quiet svc w) as Hq. rewrite E in Hq.
        destruct (for_of _ tl [] w1) as [[o evs'] w2].
        unfold emitted in *. cbn in *.
        now rewrite published_ids_app, (quiet_no_ids _ Hq).
      * intros r Hr.
        destruct (mastodon_loop_records _ _ _ _ Hl r Hr) as (p & target & _ & _ & ->).
        exact Hdry.
Qed.

(** ** The filters *)

Section Filters.
Context {W : Type} {RT : Runtime W}.

Lemma older_with_watermark cfg ls t :
  lastSync cfg = Some ls -> ls <> EmptyString ->
  older_than_lastSync (constructor cfg) t = date_le t ls.
Proof.
  intros Hls Hne. unfold older_than_lastSync. cbn. rewrite Hls. cbn.
  destruct (String.eqb_spec ls EmptyString); [contradiction|reflexivity].
Qed.

Lemma bluesky_eligible_recent svc item :
  bluesky_eligible svc item = true ->
  older_than_lastSync svc (indexedAt (post item)) = false.
Proof.
  unfold bluesky_eligible. intros H. apply andb_true_iff in H.
  destruct H as [H _]. now apply negb_true_iff in H.
Qed.

Lemma mastodon_eligible_recent svc p :
  mastodon_eligible svc p = true ->
  older_than_lastSync svc (created_at p) = false.
Proof.
  unfold mastodon_eligible. intros H. apply andb_true_iff in H.
  destruct H as [H _]. apply andb_true_iff in H.
  destruct H as [H _]. now apply negb_true_iff in H.
Qed.

Lemma bluesky_eligible_unmarked svc item :
  this_ignoreReposts svc = true -> bluesky_eligible svc item = true ->
  bluesky_marked item = false.
Proof.
  unfold bluesky_eligible. intros Hi H. rewrite Hi in H.
  apply andb_true_iff in H. destruct H as [_ H]. now apply negb_true_iff in H.
Qed.

Lemma mastodon_eligible_unmarked svc p :
  this_ignoreReposts svc = true -> mastodon_eligible svc p = true ->
  mastodon_marked p = false.
Proof.
  unfold mastodon_eligible. intros Hi H. rewrite Hi in H.
  apply andb_true_iff in H. destruct H as [H _].
  apply andb_true_iff in H. destruct H as [_ H]. now apply negb_true_iff in H.
Qed.

Lemma mastodon_eligible_author svc p :
  mastodon_eligible svc p = true -> same_author svc p = true.
Proof.
  unfold mastodon_eligible. intros H. now apply andb_true_iff in H.
Qed.

End Filters.

(** C2. When [lastSync] is set (a non-empty string [ls]), in both
    directions: once the posts are fetched the direction returns an
    output list; every record of that list carries a timestamp that is
    not at or before [ls]; a fetched post whose timestamp is at or
    before [ls] does not appear in the list; and it has no effect at
    all: the loop behaves as on the list without those posts. *)
Theorem watermark_filter :
  forall (W : Type) (RT : Runtime W) (cfg : SyncConfig) (ls : string) (w : W),
    lastSync cfg = Some ls -> ls <> EmptyString ->
    (forall feed evs w1,
        fetch_feed (constructor cfg) w = (Ok feed, evs, w1) ->
        exists out,
          outcome_of (syncFromBluesky (constructor cfg) w) = Ok out
          /\ (forall r, In r out -> date_le (timestamp r) ls = false)
          /\ (forall item, In item feed ->
                date_le (indexedAt (post item)) ls = true ->
                ~ bluesky_appears item out)
          /\ for_of (bluesky_body (constructor cfg)) feed [] w1 =
             for_of (bluesky_body (constructor cfg))
               (filter (fun item => negb (date_le (indexedAt (post item)) ls))
                       feed) [] w1)
    /\ (forall tl evs w1,
        fetch_timeline_posts (constructor cfg) w = (Ok tl, evs, w1) ->
        exists out,
          outcome_of (syncFromMastodon (constructor cfg) w) = Ok out
          /\ (forall r, In r out -> date_le (timestamp r) ls = false)
          /\ (forall p, In p tl ->
                date_le (created_at p) ls = true ->
                ~ mastodon_appears p out)
          /\ for_of (mastodon_body (constructor cfg)) tl [] w1 =
             for_of (mastodon_body (constructor cfg))
               (filter (fun p => negb (date_le (created_at p) ls)) tl) [] w1).
Proof.
  intros W RT cfg ls w Hls Hne. set (svc := constructor cfg). split.
  - intros feed evs w1 E.
    destruct (syncFromBluesky_returns _ _ _ _ _ E) as (out & Ho & Hl).
    exists out. split; [exact Ho|].
    assert (Hrec : forall r, In r out -> date_le (timestamp r) ls = false).
    { intros r Hr.
      destruct (bluesky_loop_records _ _ _ _ Hl r Hr) as (item & target & _ & He & ->).
      apply bluesky_eligible_recent in He. unfold svc in He.
      now rewrite (older_with_watermark _ _ _ Hls Hne) in He. }
    split; [exact Hrec|]. split.
    + intros item Hin Hold (r & Hr & _ & _ & Ht).
      specialize (Hrec r Hr). rewrite Ht in Hrec. congruence.
    + apply for_of_skip. intros item w' Hk. apply negb_false_iff in Hk.
      apply bluesky_body_skip. unfold bluesky_eligible, svc.
      now rewrite (older_with_watermark _ _ _ Hls Hne), Hk.
  - intros tl evs w1 E.
    destruct (syncFromMastodon_returns _ _ _ _ _ E) as (out & Ho & Hl).
    exists out. split; [exact Ho|].
    assert (Hrec : forall r, In r out -> date_le (timestamp r) ls = false).
    { intros r Hr.
      destruct (mastodon_loop_records _ _ _ _ Hl r Hr) as (p & target & _ & He & ->).
      apply mastodon_eligible_recent in He. unfold svc in He.
      now rewrite (older_with_watermark _ _ _ Hls Hne) in He. }
    split; [exact Hrec|]. split.
    + intros p Hin Hold (r & Hr & _ & _ & Ht).
      specialize (Hrec r Hr). rewrite Ht in Hrec. congruence.
    + apply for_of_skip. intros p w' Hk. apply negb_false_iff in Hk.
      apply mastodon_body_skip. unfold mastodon_eligible, svc.
      now rewrite (older_with_watermark _ _ _ Hls Hne), Hk.
Qed.

Lemma for_of_pushed {W X} (body : X -> M W (option SyncedPost)) pre x rest w p :
  outcome_of (body x (world_of (for_of body pre [] w))) = Ok (Some p) ->
  exists out,
    outcome_of (for_of body (pre ++ x :: rest) [] w) = Ok out /\ In p out.
Proof.
  intros Hp. rewrite for_of_app.
  destruct (for_of_ok body pre [] w) as [out1 H1].
  destruct (for_of body pre [] w) as [[o1 evs1] w1].
  unfold outcome_of, world_of in *. cbn [fst snd] in *. subst o1.
  cbv beta iota. rewrite for_of_step.
  destruct (body x w1) as [[o evs] w2]. cbn [fst snd] in Hp. subst o.
  cbn [pushed_onto]. rewrite for_of_acc.
  destruct (for_of_ok body rest [] w2) as [out3 H3].
  destruct (for_of body rest [] w2) as [[o3 evs3] w3].
  unfold outcome_of in H3. cbn in H3. subst o3.
  exists ((out1 ++ [p]) ++ out3). split; [reflexivity|].
  apply in_or_app. left. apply in_or_app. right. now left.
Qed.

(** What the repost filter does filter (the part of C3 that the code
    keeps).  With [ignoreReposts] true, in both directions every
    record of the output comes from a fetched post that is not marked
    (no [record.reply] on Bluesky, no [reblog] on Mastodon), and the
    marked posts have no effect at all.  With [ignoreReposts] false, a
    marked post that the other filters let through is in the output
    whenever its processing does not fail: always in a dry run, and in a
    live run when its publish call, made in the world the loop has
    reached, returns. *)
Theorem repost_filter :
  forall (W : Type) (RT : Runtime W) (cfg : SyncConfig) (w : W),
    (ignoreReposts cfg = true ->
       (forall feed evs w1,
           fetch_feed (constructor cfg) w = (Ok feed, evs, w1) ->
           exists out,
             outcome_of (syncFromBluesky (constructor cfg) w) = Ok out
             /\ (forall r, In r out ->
                   exists item target,
                     In item feed /\ bluesky_marked item = false /\
                     r = bluesky_record (constructor cfg) item target)
             /\ for_of (bluesky_body (constructor cfg)) feed [] w1 =
                for_of (bluesky_body (constructor cfg))
                  (filter (fun item => negb (bluesky_marked item)) feed) [] w1)
       /\ (forall tl evs w1,
           fetch_timeline_posts (constructor cfg) w = (Ok tl, evs, w1) ->
           exists out,
             outcome_of (syncFromMastodon (constructor cfg) w) = Ok out
             /\ (forall r, In r out ->
                   exists p target,
                     In p tl /\ mastodon_marked p = false /\
                     r = mastodon_record (constructor cfg) p target)
             /\ for_of (mastodon_body (constructor cfg)) tl [] w1 =
                for_of (mastodon_body (constructor cfg))
                  (filter (fun p => negb (mastodon_marked p)) tl) [] w1))
    /\ (ignoreReposts cfg = false ->
       (forall pre item rest evs w1,
           fetch_feed (constructor cfg) w = (Ok (pre ++ item :: rest), evs, w1) ->
           bluesky_marked item = true ->
           older_than_lastSync (constructor cfg) (indexedAt (post item)) = false ->
           (dryRun cfg = true ->
              exists out,
                outcome_of (syncFromBluesky (constructor cfg) w) = Ok out /\
                In (bluesky_record (constructor cfg) item "DRY_RUN") out)
           /\ (dryRun cfg = false ->
               forall st,
                 outcome_of
                   (publish_to_mastodon (constructor cfg)
                      (rec_text (record (post item)))
                      (world_of (for_of (bluesky_body (constructor cfg)) pre [] w1)))
                 = Ok st ->
                 exists out,
                   outcome_of (syncFromBluesky (constructor cfg) w) = Ok out /\
                   In (bluesky_record (constructor cfg) item (status_id st)) out))
       /\ (forall pre p rest evs w1,
           fetch_timeline_posts (constructor cfg) w = (Ok (pre ++ p :: rest), evs, w1) ->
           mastodon_marked p = true ->
           older_than_lastSync (constructor cfg) (created_at p) = false ->
           same_author (constructor cfg) p = true ->
           (dryRun cfg = true ->
              exists out,
                outcome_of (syncFromMastodon (constructor cfg) w) = Ok out /\
                In (mastodon_record (constructor cfg) p "DRY_RUN") out)
           /\ (dryRun cfg = false ->
               forall ref,
                 outcome_of
                   (publish_to_bluesky (cleanMastodonContent (content p))
                      (world_of (for_of (mastodon_body (constructor cfg)) pre [] w1)))
                 = Ok ref ->
                 exists out,
                   outcome_of (syncFromMastodon (constructor cfg) w) = Ok out /\
                   In (mastodon_record (constructor cfg) p (ref_uri ref)) out))).
Proof.
  intros W RT cfg w. set (svc := constructor cfg).
  assert (Hdry : this_dryRun svc = dryRun cfg) by apply this_dryRun_constructor.
  assert (Hign : this_ignoreReposts svc = ignoreReposts cfg) by reflexivity.
  split; intros Hi; rewrite Hi in Hign.
  - split.
    + intros feed evs w1 E.
      destruct (syncFromBluesky_returns _ _ _ _ _ E) as (out & Ho & Hl).
      exists out. split; [exact Ho|]. split.
      * intros r Hr.
        destruct (bluesky_loop_records _ _ _ _ Hl r Hr) as (item & target & Hin & He & ->).
        exists item, target. split; [assumption|]. split; [|reflexivity].
        now apply (bluesky_eligible_unmarked svc).
      * apply for_of_skip. intros item w' Hk. apply negb_false_iff in Hk.
        apply bluesky_body_skip. unfold bluesky_eligible.
        rewrite Hign, Hk. apply andb_false_r.
    + intros tl evs w1 E.
      destruct (syncFromMastodon_returns _ _ _ _ _ E) as (out & Ho & Hl).
      exists out. split; [exact Ho|]. split.
      * intros r Hr.
        destruct (mastodon_loop_records _ _ _ _ Hl r Hr) as (p & target & Hin & He & ->).
        exists p, target. split; [assumption|]. split; [|reflexivity].
        now apply (mastodon_eligible_unmarked svc).
      * apply for_of_skip. intros p w' Hk. apply negb_false_iff in Hk.
        apply mastodon_body_skip. unfold mastodon_eligible.
        rewrite Hign, Hk. cbn. now rewrite andb_false_r.
  - split.
    + intros pre item rest evs w1 E Hm Hold.
      assert (He : bluesky_eligible svc item = true).
      { unfold bluesky_eligible. now rewrite Hold, Hign. }
      rewrite (syncFromBluesky_fetched _ _ _ _ _ E).
      split; intros Hd; rewrite Hd in Hdry.
      * destruct (for_of_pushed (bluesky_body svc) pre item rest w1
                    (bluesky_record svc item "DRY_RUN")) as (out & Ho & Hin).
        { now rewrite (bluesky_body_dry _ _ _ He Hdry). }
        exists out. split; [|exact Hin].
        now destruct (for_of _ (pre ++ item :: rest) [] w1) as [[o evs'] w2].
      * intros st Hst.
        destruct (for_of_pushed (bluesky_body svc) pre item rest w1
                    (bluesky_record svc item (status_id st))) as (out & Ho & Hin).
        { rewrite (bluesky_body_live _ _ _ He Hdry).
          destruct (publish_to_mastodon svc _ _) as [[o evs'] w2].
          unfold outcome_of in *. cbn in *. now subst o. }
        exists out. split; [|exact Hin].
        now destruct (for_of _ (pre ++ item :: rest) [] w1) as [[o evs'] w2].
    + intros pre p rest evs w1 E Hm Hold Hauth.
      assert (He : mastodon_eligible svc p = true).
      { unfold mastodon_eligible. now rewrite Hold, Hign, Hauth. }
      rewrite (syncFromMastodon_fetched _ _ _ _ _ E).
      split; intros Hd; rewrite Hd in Hdry.
      * destruct (for_of_pushed (mastodon_body svc) pre p rest w1
                    (mastodon_record svc p "DRY_RUN")) as (out & Ho & Hin).
        { now rewrite (mastodon_body_dry _ _ _ He Hdry). }
        exists out. split; [|exact Hin].
        now destruct (for_of _ (pre ++ p :: rest) [] w1) as [[o evs'] w2].
      * intros ref Href.
        destruct (for_of_pushed (mastodon_body svc) pre p rest w1
                    (mastodon_record svc p (ref_uri ref))) as (out & Ho & Hin).
        { rewrite (mastodon_body_live _ _ _ He Hdry).
          destruct (publish_to_bluesky _ _) as [[o evs'] w2].
          unfold outcome_of in *. cbn in *. now subst o. }
        exists out. split; [|exact Hin].
        now destruct (for_of _ (pre ++ p :: rest) [] w1) as [[o evs'] w2].
Qed.

(** ** Failure of one post *)

(** C4. In both directions, for every list of fetched posts: the loop
    always returns a list, so no exception of a post's processing leaves
    the direction (a direction throws only what its initial fetch
    threw); when the body of a post throws, the loop goes on with the
    remaining posts from the world that post left behind; and with three
    eligible posts of which exactly the second fails to publish, the
    direction returns exactly the records of the first and the third. *)
Theorem per_post_failure_is_contained :
  forall (W : Type) (RT : Runtime W) (cfg : SyncConfig) (w : W),
    (forall feed w1, exists out,
        outcome_of (for_of (bluesky_body (constructor cfg)) feed [] w1) = Ok out)
    /\ (forall tl w1, exists out,
        outcome_of (for_of (mastodon_body (constructor cfg)) tl [] w1) = Ok out)
    /\ (forall e,
        outcome_of (syncFromBluesky (constructor cfg) w) = Throw e ->
        outcome_of (fetch_feed (constructor cfg) w) = Throw e)
    /\ (forall e,
        outcome_of (syncFromMastodon (constructor cfg) w) = Throw e ->
        outcome_of (fetch_timeline_posts (constructor cfg) w) = Throw e)
    /\ (forall item feed acc w1 e evs w2,
        bluesky_body (constructor cfg) item w1 = (Throw e, evs, w2) ->
        for_of (bluesky_body (constructor cfg)) (item :: feed) acc w1 =
          match for_of (bluesky_body (constructor cfg)) feed acc w2 with
          | (o, evs', w3) => (o, evs ++ evs', w3)
          end)
    /\ (forall p tl acc w1 e evs w2,
        mastodon_body (constructor cfg) p w1 = (Throw e, evs, w2) ->
        for_of (mastodon_body (constructor cfg)) (p :: tl) acc w1 =
          match for_of (mastodon_body (constructor cfg)) tl acc w2 with
          | (o, evs', w3) => (o, evs ++ evs', w3)
          end)
    /\ (forall p1 p2 p3 evs w1 s1 evs1 w2 err evs2 w3 s3 evs3 w4,
        dryRun cfg = false ->
        fetch_feed (constructor cfg) w = (Ok [p1; p2; p3], evs, w1) ->
        bluesky_eligible (constructor cfg) p1 = true ->
        bluesky_eligible (constructor cfg) p2 = true ->
        bluesky_eligible (constructor cfg) p3 = true ->
        publish_to_mastodon (constructor cfg) (rec_text (record (post p1))) w1
          = (Ok s1, evs1, w2) ->
        publish_to_mastodon (constructor cfg) (rec_text (record (post p2))) w2
          = (Throw err, evs2, w3) ->
        publish_to_mastodon (constructor cfg) (rec_text (record (post p3))) w3
          = (Ok s3, evs3, w4) ->
        syncFromBluesky (constructor cfg) w =
          (Ok [bluesky_record (constructor cfg) p1 (status_id s1);
               bluesky_record (constructor cfg) p3 (status_id s3)],
           evs ++ evs1 ++ evs2 ++ evs3, w4))
    /\ (forall p1 p2 p3 evs w1 s1 evs1 w2 err evs2 w3 s3 evs3 w4,
        dryRun cfg = false ->
        fetch_timeline_posts (constructor cfg) w = (Ok [p1; p2; p3], evs, w1) ->
        mastodon_eligible (constructor cfg) p1 = true ->
        mastodon_eligible (constructor cfg) p2 = true ->
        mastodon_eligible (constructor cfg) p3 = true ->
        publish_to_bluesky (cleanMastodonContent (content p1)) w1
          = (Ok s1, evs1, w2) ->
        publish_to_bluesky (cleanMastodonContent (content p2)) w2
          = (Throw err, evs2, w3) ->
        publish_to_bluesky (cleanMastodonContent (content p3)) w3
          = (Ok s3, evs3, w4) ->
        syncFromMastodon (constructor cfg) w =
          (Ok [mastodon_record (constructor cfg) p1 (ref_uri s1);
               mastodon_record (constructor cfg) p3 (ref_uri s3)],
           evs ++ evs1 ++ evs2 ++ evs3, w4)).
Proof.
  intros W RT cfg w. set (svc := constructor cfg).
  assert (Hdry : this_dryRun svc = dryRun cfg) by apply this_dryRun_constructor.
  split; [|split; [|split; [|split; [|split; [|split; [|split]]]]]].
  - intros feed w1. apply for_of_ok.
  - intros tl w1. apply for_of_ok.
  - intros e. destruct (fetch_feed svc w) as [[[feed|e'] evs] w1] eqn:E.
    + destruct (syncFromBluesky_returns _ _ _ _ _ E) as (out & Ho & _).
      rewrite Ho. discriminate.
    + unfold syncFromBluesky. rewrite (bind_throw _ _ _ _ _ _ E).
      unfold outcome_of. cbn. now intros [= ->].
  - intros e. destruct (fetch_timeline_posts svc w) as [[[tl|e'] evs] w1] eqn:E.
    + destruct (syncFromMastodon_returns _ _ _ _ _ E) as (out & Ho & _).
      rewrite Ho. discriminate.
    + unfold syncFromMastodon. rewrite (bind_throw _ _ _ _ _ _ E).
      unfold outcome_of. cbn. now intros [= ->].
  - intros item feed acc w1 e evs w2 E. now rewrite for_of_step, E.
  - intros p tl acc w1 e evs w2 E. now rewrite for_of_step, E.
  - intros p1 p2 p3 evs w1 s1 evs1 w2 err evs2 w3 s3 evs3 w4
           Hd E H1 H2 H3 P1 P2 P3.
    rewrite Hd in Hdry.
    rewrite (syncFromBluesky_fetched _ _ _ _ _ E).
    rewrite for_of_step, (bluesky_body_live _ _ _ H1 Hdry), P1.
    cbv beta iota. cbn [pushed_onto].
    rewrite for_of_step, (bluesky_body_live _ _ _ H2 Hdry), P2.
    cbv beta iota. cbn [pushed_onto].
    rewrite for_of_step, (bluesky_body_live _ _ _ H3 Hdry), P3.
    cbn. now rewrite app_nil_r.
  - intros p1 p2 p3 evs w1 s1 evs1 w2 err evs2 w3 s3 evs3 w4
           Hd E H1 H2 H3 P1 P2 P3.
    rewrite Hd in Hdry.
    rewrite (syncFromMastodon_fetched _ _ _ _ _ E).
    rewrite for_of_step, (mastodon_body_live _ _ _ H1 Hdry), P1.
    cbv beta iota. cbn [pushed_onto].
    rewrite for_of_step, (mastodon_body_live _ _ _ H2 Hdry), P2.
    cbv beta iota. cbn [pushed_onto].
    rewrite for_of_step, (mastodon_body_live _ _ _ H3 Hdry), P3.
    cbn. now rewrite app_nil_r.
Qed.

(** ** The author filter *)

Lemma same_author_iff cfg p :
  same_author (constructor cfg) p = true <->
  toLowerCase (username (account p)) = toLowerCase (mastodonUsername cfg).
Proof. unfold same_author. cbn. apply String.eqb_eq. Qed.

Lemma other_author_skipped {W} {RT : Runtime W} cfg p (w : W) :
  toLowerCase (username (account p)) <> toLowerCase (mastodonUsername cfg) ->
  mastodon_body (constructor cfg) p w = (Ok None, [], w).
Proof.
  intros Hne. apply mastodon_body_skip. unfold mastodon_eligible.
  destruct (same_author (constructor cfg) p) eqn:Ha;
    [now apply same_author_iff in Ha|apply andb_false_r].
Qed.

(** C6, as amended.  In the Mastodon-to-Bluesky direction a fetched post
    whose author's username differs from [mastodonUsername] even after
    both are lower-cased is skipped without any effect, whatever its
    timestamp, its reblog marker and the rest of the configuration;
    every record of the output comes from a fetched post whose
    lower-cased author name equals the lower-cased [mastodonUsername];
    and the loop behaves as on the timeline without the other posts. *)
Theorem author_filter :
  forall (W : Type) (RT : Runtime W) (cfg : SyncConfig) (w : W),
    (forall p w',
        toLowerCase (username (account p))
          <> toLowerCase (mastodonUsername cfg) ->
        mastodon_body (constructor cfg) p w' = (Ok None, [], w'))
    /\ (forall tl evs w1,
        fetch_timeline_posts (constructor cfg) w = (Ok tl, evs, w1) ->
        exists out,
          outcome_of (syncFromMastodon (constructor cfg) w) = Ok out
          /\ (forall r, In r out ->
                exists p target,
                  In p tl /\
                  toLowerCase (username (account p))
                    = toLowerCase (mastodonUsername cfg) /\
                  r = mastodon_record (constructor cfg) p target)
          /\ for_of (mastodon_body (constructor cfg)) tl [] w1 =
             for_of (mastodon_body (constructor cfg))
               (filter (same_author (constructor cfg)) tl) [] w1).
Proof.
  intros W RT cfg w. split.
  - intros p w'. apply other_author_skipped.
  - intros tl evs w1 E.
    destruct (syncFromMastodon_returns _ _ _ _ _ E) as (out & Ho & Hl).
    exists out. split; [exact Ho|]. split.
    + intros r Hr.
      destruct (mastodon_loop_records _ _ _ _ Hl r Hr) as (p & target & Hin & He & ->).
      exists p, target. split; [assumption|]. split; [|reflexivity].
      apply same_author_iff. now apply mastodon_eligible_author.
    + apply for_of_skip. intros p w' Hk. apply other_author_skipped.
      intros Heq. apply same_author_iff in Heq. congruence.
Qed.

Lemma lower_char_idem c : lower_char (lower_char c) = lower_char c.
Proof. destruct c as [[] [] [] [] [] [] [] []]; reflexivity. Qed.

Lemma same_letter_lower c d : same_letter c d -> lower_char c = lower_char d.
Proof.
  intros [->|[->| ->]]; [reflexivity| |]; now rewrite lower_char_idem.
Qed.

Lemma differ_only_in_case_lower a b :
  differ_only_in_case a b -> toLowerCase a = toLowerCase b.
Proof.
  induction 1 as [|c d s t Hcd _ IH]; [reflexivity|].
  cbn [toLowerCase]. now rewrite (same_letter_lower _ _ Hcd), IH.
Qed.

(** An eligible post is recorded when its processing does not fail. *)
Lemma mastodon_eligible_recorded {W} {RT : Runtime W} svc (w : W)
  pre p rest evs w1 :
  fetch_timeline_posts svc w = (Ok (pre ++ p :: rest), evs, w1) ->
  mastodon_eligible svc p = true ->
  (this_dryRun svc = true ->
     exists out,
       outcome_of (syncFromMastodon svc w) = Ok out /\
       In (mastodon_record svc p "DRY_RUN") out)
  /\ (this_dryRun svc = false ->
      forall ref,
        outcome_of
          (publish_to_bluesky (cleanMastodonContent (content p))
             (world_of (for_of (mastodon_body svc) pre [] w1))) = Ok ref ->
        exists out,
          outcome_of (syncFromMastodon svc w) = Ok out /\
          In (mastodon_record svc p (ref_uri ref)) out).
Proof.
  intros E He. rewrite (syncFromMastodon_fetched _ _ _ _ _ E).
  split; intros Hdry.
  - destruct (for_of_pushed (mastodon_body svc) pre p rest w1
                (mastodon_record svc p "DRY_RUN")) as (out & Ho & Hin).
    { now rewrite (mastodon_body_dry _ _ _ He Hdry). }
    exists out. split; [|exact Hin].
    now destruct (for_of _ (pre ++ p :: rest) [] w1) as [[o evs'] w2].
  - intros ref Href.
    destruct (for_of_pushed (mastodon_body svc) pre p rest w1
                (mastodon_record svc p (ref_uri ref))) as (out & Ho & Hin).
    { rewrite (mastodon_body_live _ _ _ He Hdry).
      destruct (publish_to_bluesky _ _) as [[o evs'] w2].
      unfold outcome_of in *. cbn in *. now subst o. }
    exists out. split; [|exact Hin].
    now destruct (for_of _ (pre ++ p :: rest) [] w1) as [[o evs'] w2].
Qed.

(** C10. The author test of the Mastodon-to-Bluesky direction compares
    lower-cased names.  A post that the watermark and reblog tests let
    through is skipped by the author test exactly when the lower-cased
    username of its author differs from the lower-cased
    [mastodonUsername]; a name that differs from the configured one only
    in letter case passes the test; and such a post, when the other tests
    let it through, is synced: its record is in the output of a dry run,
    and of a live run whose publish call for it returns. *)
Theorem author_check_ignores_case :
  forall (W : Type) (RT : Runtime W) (cfg : SyncConfig) (w : W),
    (forall p w',
        older_than_lastSync (constructor cfg) (created_at p) = false ->
        ignoreReposts cfg && mastodon_marked p = false ->
        (mastodon_body (constructor cfg) p w' = (Ok None, [], w') <->
         toLowerCase (username (account p))
           <> toLowerCase (mastodonUsername cfg)))
    /\ (forall p,
        differ_only_in_case (username (account p)) (mastodonUsername cfg) ->
        same_author (constructor cfg) p = true)
    /\ (forall pre p rest evs w1,
        fetch_timeline_posts (constructor cfg) w
          = (Ok (pre ++ p :: rest), evs, w1) ->
        differ_only_in_case (username (account p)) (mastodonUsername cfg) ->
        older_than_lastSync (constructor cfg) (created_at p) = false ->
        ignoreReposts cfg && mastodon_marked p = false ->
        (dryRun cfg = true ->
           exists out,
             outcome_of (syncFromMastodon (constructor cfg) w) = Ok out /\
             In (mastodon_record (constructor cfg) p "DRY_RUN") out)
        /\ (dryRun cfg = false ->
            forall ref,
              outcome_of
                (publish_to_bluesky (cleanMastodonContent (content p))
                   (world_of
                      (for_of (mastodon_body (constructor cfg)) pre [] w1)))
              = Ok ref ->
              exists out,
                outcome_of (syncFromMastodon (constructor cfg) w) = Ok out /\
                In (mastodon_record (constructor cfg) p (ref_uri ref)) out)).
Proof.
  intros W RT cfg w. set (svc := constructor cfg).
  assert (Hdry : this_dryRun svc = dryRun cfg) by apply this_dryRun_constructor.
  assert (Hcase : forall p,
             differ_only_in_case (username (account p)) (mastodonUsername cfg) ->
             same_author svc p = true).
  { intros p Hp. apply same_author_iff. now apply differ_only_in_case_lower. }
  split; [|split].
  - intros p w' Hold Hm. split.
    + intros Hskip Heq. apply same_author_iff in Heq. fold svc in Heq.
      assert (He : mastodon_eligible svc p = true).
      { unfold mastodon_eligible. change (this_ignoreReposts svc) with (ignoreReposts cfg).
        now rewrite Hold, Hm, Heq. }
      destruct (dryRun cfg) eqn:Hd.
      * rewrite (mastodon_body_dry _ _ _ He Hdry) in Hskip. discriminate.
      * rewrite (mastodon_body_live _ _ _ He Hdry) in Hskip.
        destruct (publish_to_bluesky _ w') as [[[ref|e] evs] w2]; discriminate.
    + apply other_author_skipped.
  - exact Hcase.
  - intros pre p rest evs w1 E Hp Hold Hm.
    assert (He : mastodon_eligible svc p = true).
    { unfold mastodon_eligible. change (this_ignoreReposts svc) with (ignoreReposts cfg).
      now rewrite Hold, Hm, (Hcase p Hp). }
    rewrite <- Hdry. exact (mastodon_eligible_recorded svc w pre p rest evs w1 E He).
Qed.

(** ** The pass and the watermark *)

Section Watermark.
Context {W : Type} {RT : Runtime W}.

(** The engine never writes to the store. *)
Lemma sync_never_puts svc w :
  Forall (fun e => is_kv_put e = false) (emitted (sync svc w)).
Proof.
  unfold sync. rewrite try_rethrow.
  apply bind_events; [apply initialize_events; reflexivity|].
  intros _ w1. apply bind_events; [apply now_events; reflexivity|].
  intros t w2. apply bind_events; [apply syncFromBluesky_events; reflexivity|].
  intros b w3. apply bind_events; [apply syncFromMastodon_events; reflexivity|].
  intros m w4. now apply pure_events.
Qed.

Lemma initialize_lists_nothing svc w :
  Forall (fun e => touches_posts e = false) (emitted (initialize svc w)).
Proof. apply initialize_events; reflexivity. Qed.

(** The timestamp of the results is the clock reading taken right after
    [initialize], before anything else. *)
Lemma sync_timestamp svc w results :
  outcome_of (sync svc w) = Ok results ->
  fst (clock (world_of (initialize svc w))) = results_timestamp results /\
  exists rest,
    emitted (sync svc w) =
      emitted (initialize svc w) ++ EvNow (results_timestamp results) :: rest.
Proof.
  unfold sync. rewrite try_rethrow. intros H.
  apply bind_inv in H. destruct H as ([] & evs0 & w1 & E0 & H & Hev).
  rewrite Hev, E0. unfold world_of, emitted at 2. cbn [fst snd].
  apply bind_inv in H. destruct H as (t & evsn & w2 & En & H & Hev').
  rewrite Hev'. unfold now in En. destruct (clock w1) as [t' w2'].
  injection En as <- <- <-. cbn [fst].
  apply bind_inv in H. destruct H as (b & evs1 & w3 & _ & H & _).
  apply bind_inv in H. destruct H as (m & evs2 & w4 & _ & H & _).
  unfold ret, outcome_of in H. cbn in H. injection H as <-. cbn.
  split; [reflexivity|]. eexists. reflexivity.
Qed.

(** [handleSync] once the stored watermark is read, by the outcome of
    [sync]. *)
Lemma handleSync_failed env w stored w0 err evs w1 :
  kv_get "lastSync" w = (Ok stored, w0) ->
  sync (constructor (make_config env stored)) w0 = (Throw err, evs, w1) ->
  handleSync env w =
    (Ok {| success := false;
           report_dryRun := dryRun (make_config env stored);
           report_timestamp := None;
           stats := None;
           error := Some (message err);
           details := if debug (make_config env stored)
                      then Some (DetailsStack err) else None |},
     EvKvGet "lastSync" (Ok stored) :: evs, w1).
Proof.
  intros Hget Hsync. unfold handleSync, bind at 1, perform at 1. rewrite Hget.
  unfold try_catch, bind at 1. rewrite Hsync. unfold ret. cbn.
  now rewrite app_nil_r.
Qed.

Lemma handleSync_dry env w stored w0 results evs w1 :
  kv_get "lastSync" w = (Ok stored, w0) ->
  sync (constructor (make_config env stored)) w0 = (Ok results, evs, w1) ->
  dryRun (make_config env stored) = true ->
  exists report,
    handleSync env w = (Ok report, EvKvGet "lastSync" (Ok stored) :: evs, w1)
    /\ success report = true
    /\ report_timestamp report = Some (results_timestamp results).
Proof.
  intros Hget Hsync Hd. unfold handleSync, bind at 1, perform at 1. rewrite Hget.
  unfold try_catch, bind at 1. rewrite Hsync, Hd. unfold bind, ret. cbn.
  rewrite !app_nil_r. eexists. split; [reflexivity|]. now split.
Qed.

Lemma handleSync_live env w stored w0 results evs w1 :
  kv_get "lastSync" w = (Ok stored, w0) ->
  sync (constructor (make_config env stored)) w0 = (Ok results, evs, w1) ->
  dryRun (make_config env stored) = false ->
  exists report,
    handleSync env w =
      (Ok report,
       EvKvGet "lastSync" (Ok stored)
         :: evs ++ [EvKvPut "lastSync" (results_timestamp results)
                      (fst (kv_put "lastSync" (results_timestamp results) w1))],
       snd (kv_put "lastSync" (results_timestamp results) w1))
    /\ success report =
         match fst (kv_put "lastSync" (results_timestamp results) w1) with
         | Ok _ => true
         | Throw _ => false
         end.
Proof.
  intros Hget Hsync Hd. unfold handleSync, bind at 1, perform at 1. rewrite Hget.
  unfold try_catch, bind at 1. rewrite Hsync, Hd. unfold bind, ret, perform. cbn.
  destruct (kv_put "lastSync" (results_timestamp results) w1) as [[[]|e] w2]; cbn;
    rewrite ?app_nil_r; eexists; (split; [reflexivity|]); reflexivity.
Qed.

End Watermark.

Lemma no_put_in evs k v o :
  Forall (fun e => is_kv_put e = false) evs -> ~ In (EvKvPut k v o) evs.
Proof.
  intros Hq Hin. rewrite Forall_forall in Hq. specialize (Hq _ Hin).
  discriminate.
Qed.

(** What the worker does with the watermark, once the stored value has
    been read: it puts the watermark if and only if [sync] returned and
    [DRY_RUN] is not ['true']; what it puts, under the key [lastSync], is
    the [timestamp] field of the results, which [sync] read from the
    clock right after [initialize], before any post was listed or
    published; and when [sync] throws, nothing is put and the worker
    returns a report with [success = false] carrying the error's
    message. *)
Lemma watermark_commit :
  forall (W : Type) (RT : Runtime W) (env : Env) (w : W)
         (stored : option string) (w0 : W),
    kv_get "lastSync" w = (Ok stored, w0) ->
    ((exists k v o, In (EvKvPut k v o) (emitted (handleSync env w))) <->
     (exists results,
         outcome_of (sync (constructor (make_config env stored)) w0) = Ok results
         /\ is_true (DRY_RUN env) = false))
    /\ (forall k v o,
        In (EvKvPut k v o) (emitted (handleSync env w)) ->
        k = "lastSync" /\
        exists results,
          outcome_of (sync (constructor (make_config env stored)) w0) = Ok results
          /\ v = results_timestamp results)
    /\ (forall results,
        outcome_of (sync (constructor (make_config env stored)) w0) = Ok results ->
        fst (clock (world_of (initialize (constructor (make_config env stored)) w0)))
          = results_timestamp results
        /\ (exists rest,
               emitted (sync (constructor (make_config env stored)) w0) =
                 emitted (initialize (constructor (make_config env stored)) w0)
                 ++ EvNow (results_timestamp results) :: rest)
        /\ Forall (fun e => touches_posts e = false)
             (emitted (initialize (constructor (make_config env stored)) w0)))
    /\ (forall err,
        outcome_of (sync (constructor (make_config env stored)) w0) = Throw err ->
        (forall e, In e (emitted (handleSync env w)) -> is_kv_put e = false)
        /\ exists report,
             outcome_of (handleSync env w) = Ok report
             /\ success report = false
             /\ error report = Some (message err)).
Proof.
  intros W RT env w stored w0 Hget.
  set (svc := constructor (make_config env stored)).
  pose proof (sync_never_puts svc w0) as Hquiet.
  assert (Hcases :
    forall k v o, In (EvKvPut k v o) (emitted (handleSync env w)) ->
      k = "lastSync" /\ is_true (DRY_RUN env) = false /\
      exists results, outcome_of (sync svc w0) = Ok results
                      /\ v = results_timestamp results).
  { intros k v o Hin.
    destruct (sync svc w0) as [[[results|err] evs] w1] eqn:Hs.
    - destruct (is_true (DRY_RUN env)) eqn:Hd.
      + destruct (handleSync_dry env w stored w0 results evs w1 Hget Hs Hd)
          as (report & Hrun & _).
        rewrite Hrun in Hin. destruct Hin as [Hin|Hin]; [discriminate|].
        now apply no_put_in in Hin.
      + destruct (handleSync_live env w stored w0 results evs w1 Hget Hs Hd)
          as (report & Hrun & _).
        rewrite Hrun in Hin. destruct Hin as [Hin|Hin]; [discriminate|].
        apply in_app_or in Hin. destruct Hin as [Hin|[Hin|[]]].
        * now apply no_put_in in Hin.
        * injection Hin as <- <- _. split; [reflexivity|].
          split; [reflexivity|]. now exists results.
    - rewrite (handleSync_failed env w stored w0 err evs w1 Hget Hs) in Hin.
      destruct Hin as [Hin|Hin]; [discriminate|]. now apply no_put_in in Hin. }
  split; [|split; [|split]].
  - split.
    + intros (k & v & o & Hin).
      destruct (Hcases k v o Hin) as (_ & Hd & results & Ho & _).
      now exists results.
    + intros (results & Ho & Hd).
      destruct (sync svc w0) as [[o evs] w1] eqn:Hs.
      unfold outcome_of in Ho. cbn in Ho. subst o.
      destruct (handleSync_live env w stored w0 results evs w1 Hget Hs Hd)
        as (report & Hrun & _).
      rewrite Hrun. eexists _, _, _. right. apply in_or_app. right. now left.
  - intros k v o Hin. destruct (Hcases k v o Hin) as (Hk & _ & Hres).
    now split.
  - intros results Ho. destruct (sync_timestamp svc w0 results Ho) as (Hclock & Hrest).
    split; [exact Hclock|]. split; [exact Hrest|]. apply initialize_lists_nothing.
  - intros err Ho. destruct (sync svc w0) as [[o evs] w1] eqn:Hs.
    unfold outcome_of in Ho. cbn in Ho. subst o.
    rewrite (handleSync_failed env w stored w0 err evs w1 Hget Hs).
    split.
    + intros e [<-|Hin]; [reflexivity|].
      rewrite Forall_forall in Hquiet. now apply Hquiet.
    + eexists. split; [reflexivity|]. now split.
Qed.

(** ** The configuration built by the worker *)

Lemma non_numeric_is_NaN s : non_numeric s = true -> parseInt (Some s) = None.
Proof.
  unfold non_numeric, parseInt.
  destruct (trimStart s) as [|c s']; [reflexivity|].
  destruct c as [[] [] [] [] [] [] [] []]; cbn; intros H;
    try discriminate H; reflexivity.
Qed.

(** C8, as amended.  For every environment the [postsToSync] of the
    configuration, which the constructor copies unchanged, is never zero:
    it is 10 when [POSTS_TO_SYNC] is absent, when it does not start a
    number ([parseInt] gives [NaN]) and when it parses to 0, and
    otherwise it is the integer that [parseInt] reads.  It is positive
    exactly when that integer is not negative: a negative input is kept
    as it is. *)
Theorem postsToSync_default :
  forall (env : Env) (stored : option string),
    this_postsToSync (constructor (make_config env stored))
      = postsToSync (make_config env stored)
    /\ postsToSync (make_config env stored) <> 0%Z
    /\ (POSTS_TO_SYNC env = None -> postsToSync (make_config env stored) = 10%Z)
    /\ (forall s, POSTS_TO_SYNC env = Some s -> non_numeric s = true ->
                  postsToSync (make_config env stored) = 10%Z)
    /\ (parseInt (POSTS_TO_SYNC env) = None ->
        postsToSync (make_config env stored) = 10%Z)
    /\ (parseInt (POSTS_TO_SYNC env) = Some 0%Z ->
        postsToSync (make_config env stored) = 10%Z)
    /\ (forall z, parseInt (POSTS_TO_SYNC env) = Some z -> z <> 0%Z ->
                  postsToSync (make_config env stored) = z)
    /\ ((0 < postsToSync (make_config env stored))%Z <->
        forall z, parseInt (POSTS_TO_SYNC env) = Some z -> (0 <= z)%Z).
Proof.
  intros env stored. cbn [postsToSync make_config this_postsToSync constructor].
  split; [reflexivity|].
  unfold number_or.
  split; [|split; [|split; [|split; [|split; [|split]]]]].
  - destruct (parseInt (POSTS_TO_SYNC env)) as [z|]; [|discriminate].
    destruct (Z.eqb_spec z 0); [discriminate|assumption].
  - intros ->. reflexivity.
  - intros s -> Hs. now rewrite (non_numeric_is_NaN s Hs).
  - intros ->. reflexivity.
  - intros ->. reflexivity.
  - intros z -> Hz. now destruct (Z.eqb_spec z 0).
  - destruct (parseInt (POSTS_TO_SYNC env)) as [z|].
    + destruct (Z.eqb_spec z 0) as [->|Hz].
      * split; [intros _ z' [= <-]; lia|intros _; lia].
      * split.
        -- intros Hpos z' [= <-]. lia.
        -- intros H. specialize (H z eq_refl). lia.
    + split; [intros _ z'; discriminate|intros _; lia].
Qed.

(** ** Regular expressions: what a match looks like *)

Lemma append_assoc' (a b c : string) : ((a ++ b) ++ c = a ++ (b ++ c))%string.
Proof. induction a as [|x a IH]; cbn; [reflexivity|now rewrite IH]. Qed.

Lemma star_splits_sound g p s a b :
  In (a, b) (star_splits g p s) -> s = (a ++ b)%string.
Proof.
  revert a b. induction s as [|c s IH]; intros a b; cbn [star_splits].
  - intros [[= <- <-]|[]]. reflexivity.
  - assert (Hhere : In (a, b) [(EmptyString, String c s)] -> String c s = (a ++ b)%string).
    { intros [[= <- <-]|[]]. reflexivity. }
    assert (Hmore : In (a, b) (map (fun ab => (String c (fst ab), snd ab))
                                   (star_splits g p s)) ->
                    String c s = (a ++ b)%string).
    { intros H. apply in_map_iff in H. destruct H as ([a' b'] & [= <- <-] & Hin).
      cbn. now rewrite (IH _ _ Hin). }
    destruct (p c); [|exact Hhere].
    destruct g.
    + intros H. apply in_app_or in H. destruct H; auto.
    + intros [H|H]; [apply Hhere; now left|auto].
Qed.

Lemma mtch_sound ci r : forall s a rest k,
  In (a, rest, k) (mtch ci r s) -> s = (a ++ rest)%string.
Proof.
  induction r as [|c|r1 IH1 r2 IH2|r IH|g p|n r IH]; intros s a rest k; cbn [mtch].
  - intros [[= <- <- <-]|[]]. reflexivity.
  - destruct s as [|d s]; [intros []|].
    destruct (char_eq ci c d); [|intros []].
    intros [[= <- <- <-]|[]]. reflexivity.
  - intros H. apply in_flat_map in H. destruct H as ([[a1 rest1] k1] & H1 & H).
    apply in_map_iff in H. destruct H as ([[b rest'] k2] & [= <- <- <-] & H2).
    rewrite (IH1 _ _ _ _ H1), (IH2 _ _ _ _ H2). now rewrite append_assoc'.
  - intros H. apply in_app_or in H. destruct H as [H|[[= <- <- <-]|[]]].
    + now apply IH in H.
    + reflexivity.
  - intros H. apply in_map_iff in H. destruct H as ([a' b'] & [= <- <- <-] & H).
    now apply star_splits_sound in H.
  - intros H. apply in_map_iff in H. destruct H as ([[a' rest'] k'] & [= <- <- <-] & H).
    now apply IH in H.
Qed.

Lemma char_eq_lt ci d : char_eq ci lt d = true -> d = lt.
Proof.
  destruct ci, d as [[] [] [] [] [] [] [] []]; cbn; intros H;
    try discriminate H; reflexivity.
Qed.

Lemma char_eq_gt ci c d : Ascii.eqb c gt = true -> char_eq ci c d = true -> d = gt.
Proof.
  intros Hc. apply Ascii.eqb_eq in Hc. subst c.
  destruct ci, d as [[] [] [] [] [] [] [] []]; cbn; intros H;
    try discriminate H; reflexivity.
Qed.

Lemma mtch_ends_with_gt ci r : ends_with_gt r = true ->
  forall s a rest k, In (a, rest, k) (mtch ci r s) ->
    exists a', a = (a' ++ String gt EmptyString)%string.
Proof.
  induction r as [|c|r1 IH1 r2 IH2|r IH|g p|n r IH]; cbn [ends_with_gt];
    try discriminate; intros He s a rest k; cbn [mtch].
  - destruct s as [|d s]; [intros []|].
    destruct (char_eq ci c d) eqn:Hd; [|intros []].
    intros [[= <- <- <-]|[]]. exists EmptyString.
    now rewrite (char_eq_gt ci c d He Hd).
  - intros H. apply in_flat_map in H. destruct H as ([[a1 rest1] k1] & H1 & H).
    apply in_map_iff in H. destruct H as ([[b rest'] k2] & [= <- <- <-] & H2).
    destruct (IH2 He _ _ _ _ H2) as [b' ->].
    exists (a1 ++ b')%string. now rewrite append_assoc'.
  - intros H. apply in_map_iff in H. destruct H as ([[a' rest'] k'] & [= <- <- <-] & H).
    now apply (IH He) in H.
Qed.

(** A match of [c] followed by [r2] starts with a character equal to [c]
    and goes on with a match of [r2]. *)
Lemma mtch_after_char ci c r2 s a rest k :
  In (a, rest, k) (mtch ci (Seq (Chr c) r2) s) ->
  exists d s' b,
    s = String d s' /\ char_eq ci c d = true /\
    a = String d b /\ In (b, rest, k) (mtch ci r2 s').
Proof.
  cbn [mtch]. destruct s as [|d s']; [intros []|].
  destruct (char_eq ci c d) eqn:Hd; [|intros []].
  cbn [flat_map]. rewrite app_nil_r. intros H.
  apply in_map_iff in H. destruct H as ([[b rest'] k2] & [= <- <- <-] & H2).
  now exists d, s', b.
Qed.

Lemma has_char_app c x y : has_char c (x ++ String c y)%string = true.
Proof.
  induction x as [|d x IH]; cbn [append has_char].
  - now rewrite Ascii.eqb_refl.
  - rewrite IH. apply orb_true_r.
Qed.

(** An expression of the shape [<...>] only matches where the subject
    has a tag. *)
Lemma tag_shaped_match ci r s m :
  tag_shaped r = true -> In m (mtch ci r s) -> has_tag s = true.
Proof.
  destruct r as [|c|[|c| | | |] r2|r|g p|n r]; try discriminate.
  cbn [tag_shaped]. intros H. apply andb_true_iff in H. destruct H as [Hc He].
  apply Ascii.eqb_eq in Hc. subst c. destruct m as [[a rest] k]. intros Hm.
  apply mtch_after_char in Hm.
  destruct Hm as (d & s' & b & -> & Hd & -> & Hb).
  apply char_eq_lt in Hd. subst d.
  destruct (mtch_ends_with_gt ci r2 He _ _ _ _ Hb) as [b' ->].
  apply mtch_sound in Hb. subst s'.
  cbn [has_tag]. rewrite Ascii.eqb_refl, append_assoc'.
  cbn [append andb]. now rewrite has_char_app.
Qed.

Lemma has_tag_tail c s : has_tag (String c s) = false -> has_tag s = false.
Proof. cbn [has_tag]. intros H. now apply orb_false_iff in H. Qed.

(** Replacing the matches of such an expression leaves a subject without
    tags as it is. *)
Lemma replace_without_tag ci r repl s :
  tag_shaped r = true -> has_tag s = false -> replace_all ci r repl s = s.
Proof.
  intros Hr. unfold replace_all.
  induction s as [|c s IH]; intros Hs; cbn [replace_from].
  - destruct (mtch ci r EmptyString) as [|m l] eqn:Hm; [reflexivity|].
    assert (Hin : In m (mtch ci r EmptyString)) by (rewrite Hm; now left).
    apply (tag_shaped_match _ _ _ _ Hr) in Hin. discriminate.
  - destruct (mtch ci r (String c s)) as [|m l] eqn:Hm.
    + now rewrite (IH (has_tag_tail _ _ Hs)).
    + assert (Hin : In m (mtch ci r (String c s))) by (rewrite Hm; now left).
      apply (tag_shaped_match _ _ _ _ Hr) in Hin. congruence.
Qed.

(** The newline rule only matches where three newlines start. *)
Lemma newlines_match s m :
  In m (mtch false re_newlines s) ->
  starts_with (String nl (String nl (String nl EmptyString))) s = true.
Proof.
  destruct m as [[a rest] k]. unfold re_newlines. cbn [seqs]. intros H.
  apply mtch_after_char in H. destruct H as (d1 & s1 & b1 & -> & E1 & _ & H).
  apply mtch_after_char in H. destruct H as (d2 & s2 & b2 & -> & E2 & _ & H).
  apply mtch_after_char in H. destruct H as (d3 & s3 & b3 & -> & E3 & _ & H).
  cbn [char_eq] in E1, E2, E3. cbn [starts_with]. now rewrite E1, E2, E3.
Qed.

Lemma replace_without_blank_run repl s :
  has_blank_run s = false -> replace_all false re_newlines repl s = s.
Proof.
  unfold replace_all.
  induction s as [|c s IH]; intros Hs.
  - reflexivity.
  - cbn [replace_from]. cbn [has_blank_run] in Hs.
    apply orb_false_iff in Hs. destruct Hs as [Hhere Hs].
    destruct (mtch false re_newlines (String c s)) as [|m l] eqn:Hm.
    + now rewrite (IH Hs).
    + assert (Hin : In m (mtch false re_newlines (String c s)))
        by (rewrite Hm; now left).
      apply newlines_match in Hin. congruence.
Qed.

(** ** The newline rule is [squeeze_newlines] *)

Lemma leading_newlines s :
  exists n t, s = newlines n t /\ no_newline_ahead t = true.
Proof.
  induction s as [|c s (n & t & -> & Ht)].
  - now exists 0, EmptyString.
  - destruct (Ascii.eqb nl c) eqn:Hc.
    + apply Ascii.eqb_eq in Hc. subst c. now exists (S n), t.
    + exists 0, (String c (newlines n t)). split; [reflexivity|].
      cbn [no_newline_ahead]. now rewrite Hc.
Qed.

Lemma length_newlines n t :
  String.length (newlines n t) = n + String.length t.
Proof. induction n as [|n IH]; cbn; [reflexivity|now rewrite IH]. Qed.

Lemma star_newlines_head n t :
  no_newline_ahead t = true ->
  exists l,
    star_splits true (Ascii.eqb nl) (newlines n t)
      = (newlines n EmptyString, t) :: l.
Proof.
  intros Ht. induction n as [|n (l & IH)].
  - cbn [newlines]. destruct t as [|c t]; cbn [star_splits].
    + now exists [].
    + cbn [no_newline_ahead] in Ht. apply negb_true_iff in Ht. rewrite Ht.
      now exists [].
  - cbn [newlines star_splits]. rewrite Ascii.eqb_refl, IH. cbn [map fst snd app].
    eexists. reflexivity.
Qed.

Lemma mtch_char_hit c r2 s :
  mtch false (Seq (Chr c) r2) (String c s) =
    map (fun m2 : mres =>
           match m2 with (b, rest, k) => (String c b, rest, k) end)
        (mtch false r2 s).
Proof.
  cbn [mtch char_eq]. rewrite Ascii.eqb_refl. cbn [flat_map].
  rewrite app_nil_r. apply map_ext. now intros [[b rest] k].
Qed.

(** At the start of a run of three or more newlines the rule matches
    the whole run. *)
Lemma newlines_match_run n t :
  no_newline_ahead t = true ->
  exists l,
    mtch false re_newlines (newlines (3 + n) t)
      = (newlines (3 + n) EmptyString, t, []) :: l.
Proof.
  intros Ht. unfold re_newlines. cbn [seqs plus newlines].
  rewrite !mtch_char_hit. cbn [mtch].
  destruct (star_newlines_head n t Ht) as [l ->]. cbn [map fst snd].
  eexists. reflexivity.
Qed.

Lemma newlines_no_match s :
  starts_with (String nl (String nl (String nl EmptyString))) s = false ->
  mtch false re_newlines s = [].
Proof.
  intros Hs. destruct (mtch false re_newlines s) as [|m l] eqn:Hm; [reflexivity|].
  assert (Hin : In m (mtch false re_newlines s)) by (rewrite Hm; now left).
  apply newlines_match in Hin. congruence.
Qed.

Lemma replace_skips ci r repl n t :
  replace_from ci r repl (newlines n t) n = replace_from ci r repl t 0.
Proof. induction n as [|n IH]; [reflexivity|exact IH]. Qed.

Lemma squeeze_no_newline_ahead k t :
  no_newline_ahead t = true -> squeeze_newlines k t = squeeze_newlines 0 t.
Proof.
  destruct t as [|c t]; [reflexivity|].
  cbn [squeeze_newlines no_newline_ahead]. intros Hc.
  apply negb_true_iff in Hc. rewrite Ascii.eqb_sym in Hc. now rewrite Hc.
Qed.

Lemma squeeze_full n t :
  squeeze_newlines 2 (newlines n t) = squeeze_newlines 2 t.
Proof.
  induction n as [|n IH]; [reflexivity|].
  cbn [newlines squeeze_newlines]. now rewrite Ascii.eqb_refl.
Qed.

Lemma starts_with_short t :
  no_newline_ahead t = true ->
  starts_with (String nl (String nl (String nl EmptyString))) t = false
  /\ starts_with (String nl (String nl (String nl EmptyString))) (String nl t)
     = false
  /\ starts_with (String nl (String nl (String nl EmptyString)))
       (String nl (String nl t)) = false.
Proof.
  destruct t as [|c t]; cbn [no_newline_ahead starts_with].
  - rewrite !Ascii.eqb_refl. now repeat split.
  - intros Hc. apply negb_true_iff in Hc.
    rewrite !Ascii.eqb_refl, Hc. now repeat split.
Qed.

Lemma newline_rule_squeezes_upto len : forall s,
  String.length s <= len ->
  replace_all false re_newlines (fun _ => newline ++ newline)%string s
    = squeeze_newlines 0 s.
Proof.
  unfold replace_all.
  induction len as [|len IH]; intros s Hlen.
  - destruct s; [reflexivity|cbn in Hlen; lia].
  - destruct (leading_newlines s) as (n & t & -> & Ht).
    rewrite length_newlines in Hlen.
    destruct (starts_with_short t Ht) as (S0 & S1 & S2).
    destruct n as [|[|[|n]]].
    + cbn [newlines] in *. destruct t as [|c t]; [reflexivity|].
      cbn [replace_from]. rewrite (newlines_no_match _ S0).
      cbn [squeeze_newlines]. cbn [no_newline_ahead] in Ht.
      apply negb_true_iff in Ht.
      rewrite Ascii.eqb_sym in Ht. rewrite Ht.
      rewrite IH; [reflexivity|cbn in Hlen; lia].
    + cbn [newlines replace_from]. rewrite (newlines_no_match _ S1).
      cbn [squeeze_newlines]. rewrite Ascii.eqb_refl. cbn [Nat.ltb Nat.leb].
      rewrite (squeeze_no_newline_ahead 1 t Ht).
      rewrite IH; [reflexivity|lia].
    + cbn [newlines replace_from]. rewrite (newlines_no_match _ S2).
      rewrite (newlines_no_match _ S1).
      cbn [squeeze_newlines]. rewrite !Ascii.eqb_refl. cbn [Nat.ltb Nat.leb].
      rewrite (squeeze_no_newline_ahead 2 t Ht).
      rewrite IH; [reflexivity|lia].
    + destruct (newlines_match_run n t Ht) as [l Hm].
      change (S (S (S n))) with (3 + n) at 1.
      cbn [plus newlines replace_from] in *. rewrite Hm.
      change (String nl (String nl (String nl (newlines n EmptyString))))
        with (newlines (S (S (S n))) EmptyString).
      rewrite length_newlines. cbn [plus String.length]. rewrite Nat.add_0_r.
      change (String nl (String nl (newlines n t))) with (newlines (S (S n)) t).
      rewrite replace_skips.
      cbn [newlines squeeze_newlines]. rewrite !Ascii.eqb_refl.
      cbn [Nat.ltb Nat.leb].
      rewrite squeeze_full, (squeeze_no_newline_ahead 2 t Ht).
      rewrite IH; [reflexivity|lia].
Qed.

Lemma newline_rule_squeezes s :
  replace_all false re_newlines (fun _ => newline ++ newline)%string s
    = squeeze_newlines 0 s.
Proof. now apply (newline_rule_squeezes_upto (String.length s)). Qed.

(** * Concrete runs *)

(** ** [withRateLimit] throttled twice *)

Lemma withRateLimit_policy_witness :
  status too_many_requests = Some 429
  /\ withRateLimit post_hello default_retries throttled_twice =
       (posted "1",
        [EvBskyPost "hello" at_10 (Throw too_many_requests); EvSleep 1000;
         EvBskyPost "hello" at_10 (Throw too_many_requests); EvSleep 2000;
         EvBskyPost "hello" at_10 (posted "1")],
        world_with [] [] [] [] [])
  /\ count_events is_publish
       (emitted (withRateLimit post_hello default_retries throttled_twice))
     <= default_retries
  /\ 1 < default_retries
  /\ Throttled post_hello 0 1 throttled_then_refused
       [EvBskyPost "hello" at_10 (Throw too_many_requests); EvSleep 1000]
       (world_with [] [] [] [] [Throw (Error "Invalid record"); posted "1"])
  /\ is_rate_limit (Error "Invalid record") = false
  /\ withRateLimit post_hello default_retries throttled_then_refused =
       (Throw (Error "Invalid record"),
        [EvBskyPost "hello" at_10 (Throw too_many_requests); EvSleep 1000;
         EvBskyPost "hello" at_10 (Throw (Error "Invalid record"))],
        world_with [] [] [] [] [posted "1"]).
Proof.
  destruct (withRateLimit_policy Scripted scripted_runtime BskyRef post_hello)
    as (_ & _ & Htwice & _ & Hcount & _ & _ & _ & _ & _ & Hrun & _).
  assert (HT : Throttled post_hello 0 1 throttled_then_refused
                 [EvBskyPost "hello" at_10 (Throw too_many_requests);
                  EvSleep 1000]
                 (world_with [] [] [] []
                    [Throw (Error "Invalid record"); posted "1"])).
  { exact (throttled_again post_hello 0 0 throttled_then_refused
             too_many_requests _ _ _ _ eq_refl eq_refl
             (throttled_none post_hello 1 _)). }
  split; [reflexivity|]. split; [|split; [|split; [|split; [|split]]]].
  - exact (Htwice throttled_twice too_many_requests _ _ too_many_requests _ _
             _ _ _ eq_refl eq_refl eq_refl eq_refl eq_refl).
  - apply Hcount; [|reflexivity].
    intros w. unfold post_hello, perform.
    destruct (bsky_post "hello" at_10 w). reflexivity.
  - unfold default_retries. lia.
  - exact HT.
  - reflexivity.
  - destruct (Hrun default_retries 1 throttled_then_refused _ _
                ltac:(unfold default_retries; lia) HT) as [_ Hother].
    exact (Hother (Error "Invalid record") _ _ eq_refl eq_refl).
Defined.

(** ** A dry run and a live run over the same posts *)

Lemma dry_run_simulates_live_run_publishes_witness :
  dryRun (demo_config true true None) = true
  /\ (forall e,
         In e (emitted (syncFromBluesky (constructor (demo_config true true None))
                          one_each)) ->
         is_publish e = false)
  /\ (targetId (bluesky_record (constructor (demo_config true true None))
                  (feed_item "1" at_10 false) "DRY_RUN") = "DRY_RUN"
      /\ simulated (bluesky_record (constructor (demo_config true true None))
                      (feed_item "1" at_10 false) "DRY_RUN") = true)
  /\ dryRun (demo_config true false None) = false
  /\ map targetId
       [mastodon_record (constructor (demo_config true false None))
          (toot "7" "jerdog" at_10 false) "at://jerdog.dev/post/8"]
     = published_ids
         (emitted (syncFromMastodon (constructor (demo_config true false None))
                     one_each)).
Proof.
  destruct (dry_run_simulates_live_run_publishes Scripted scripted_runtime
              (demo_config true true None) one_each) as [Hdry _].
  destruct (dry_run_simulates_live_run_publishes Scripted scripted_runtime
              (demo_config true false None) one_each) as [_ Hlive].
  destruct (Hdry eq_refl) as (Hquiet & _ & Hrec & _).
  destruct (Hlive eq_refl) as (_ & Hids).
  split; [reflexivity|]. split; [exact Hquiet|]. split.
  - apply (Hrec [bluesky_record (constructor (demo_config true true None))
                   (feed_item "1" at_10 false) "DRY_RUN"]);
      [reflexivity|now left].
  - split; [reflexivity|]. apply Hids. reflexivity.
Defined.

(** ** Posts on both sides of the watermark *)

Lemma watermark_filter_witness :
  lastSync (demo_config true true (Some at_10)) = Some at_10
  /\ at_10 <> EmptyString
  /\ date_le (indexedAt (post (feed_item "1" at_9 false))) at_10 = true
  /\ date_le (created_at (toot "7" "jerdog" at_10 false)) at_10 = true
  /\ (exists out,
         outcome_of (syncFromBluesky
                       (constructor (demo_config true true (Some at_10)))
                       around_watermark) = Ok out
         /\ ~ bluesky_appears (feed_item "1" at_9 false) out)
  /\ (exists out,
         outcome_of (syncFromMastodon
                       (constructor (demo_config true true (Some at_10)))
                       around_watermark) = Ok out
         /\ ~ mastodon_appears (toot "7" "jerdog" at_10 false) out).
Proof.
  assert (Hne : at_10 <> EmptyString) by discriminate.
  destruct (watermark_filter Scripted scripted_runtime
              (demo_config true true (Some at_10)) at_10 around_watermark
              eq_refl Hne) as [Hb Hm].
  split; [reflexivity|]. split; [exact Hne|].
  split; [reflexivity|]. split; [reflexivity|]. split.
  - destruct (Hb _ _ _ eq_refl) as (out & Ho & _ & Hno & _).
    exists out. split; [exact Ho|].
    apply Hno; [right; now left|reflexivity].
  - destruct (Hm _ _ _ eq_refl) as (out & Ho & _ & Hno & _).
    exists out. split; [exact Ho|].
    apply Hno; [right; now left|reflexivity].
Defined.

(** ** Replies and reblogs *)

(** With [ignoreReposts] false a marked post is in the output only when
    its processing does not fail: here the reply passes the watermark
    test, and yet it is not in the output, because its publication was
    rejected and the loop went on. *)
Lemma repost_filter_counterexample :
  ignoreReposts (demo_config false false None) = false
  /\ bluesky_marked (feed_item "2" at_11 true) = true
  /\ bluesky_eligible (W := Scripted) (constructor (demo_config false false None))
       (feed_item "2" at_11 true) = true
  /\ outcome_of (fetch_feed (constructor (demo_config false false None))
                   reply_rejected) = Ok [feed_item "2" at_11 true]
  /\ outcome_of (syncFromBluesky (constructor (demo_config false false None))
                   reply_rejected) = Ok []
  /\ ~ bluesky_appears (feed_item "2" at_11 true) [].
Proof.
  repeat split. intros (r & [] & _).
Qed.

Lemma repost_filter_witness :
  ignoreReposts (demo_config true true None) = true
  /\ (exists out,
         outcome_of (syncFromBluesky (constructor (demo_config true true None))
                       with_reposts) = Ok out
         /\ forall r, In r out ->
              exists item target,
                In item [feed_item "2" at_11 true; feed_item "1" at_10 false]
                /\ bluesky_marked item = false
                /\ r = bluesky_record (constructor (demo_config true true None))
                         item target)
  /\ ignoreReposts (demo_config false true None) = false
  /\ bluesky_marked (feed_item "2" at_11 true) = true
  /\ (exists out,
         outcome_of (syncFromBluesky (constructor (demo_config false true None))
                       with_reposts) = Ok out
         /\ In (bluesky_record (constructor (demo_config false true None))
                  (feed_item "2" at_11 true) "DRY_RUN") out)
  /\ ignoreReposts (demo_config false false None) = false
  /\ mastodon_marked (toot "8" "jerdog" at_11 true) = true
  /\ (exists out,
         outcome_of (syncFromMastodon (constructor (demo_config false false None))
                       with_reposts) = Ok out
         /\ In (mastodon_record (constructor (demo_config false false None))
                  (toot "8" "jerdog" at_11 true) "at://jerdog.dev/post/9") out).
Proof.
  destruct (repost_filter Scripted scripted_runtime (demo_config true true None)
              with_reposts) as [Hon _].
  destruct (repost_filter Scripted scripted_runtime (demo_config false true None)
              with_reposts) as [_ Hoff_dry].
  destruct (repost_filter Scripted scripted_runtime (demo_config false false None)
              with_reposts) as [_ Hoff_live].
  split; [reflexivity|]. split.
  - destruct (Hon eq_refl) as [Hb _].
    destruct (Hb _ _ _ eq_refl) as (out & Ho & Hrec & _).
    exists out. split; [exact Ho|exact Hrec].
  - split; [reflexivity|]. split; [reflexivity|]. split.
    + destruct (Hoff_dry eq_refl) as [Hb _].
      destruct (Hb [] (feed_item "2" at_11 true) [feed_item "1" at_10 false]
                  _ _ eq_refl eq_refl eq_refl) as [Hd _].
      exact (Hd eq_refl).
    + split; [reflexivity|]. split; [reflexivity|].
      destruct (Hoff_live eq_refl) as [_ Hm].
      destruct (Hm [] (toot "8" "jerdog" at_11 true)
                  [toot "7" "jerdog" at_10 false]
                  _ _ eq_refl eq_refl eq_refl eq_refl) as [_ Hl].
      exact (Hl eq_refl (mkBskyRef "at://jerdog.dev/post/9" "cid") eq_refl).
Defined.

(** C3.  The claim is right and the code departs from it: a Bluesky
    repost is synced although [ignoreReposts] is true.  The test of
    [syncFromBluesky], under the comment [Skip reposts if configured],
    reads [post.post.record.reply], which marks a reply; a repost is
    marked by the [reason] of the feed item, which the loop never reads
    (its body is the same with and without it).  On this run
    [ignoreReposts] is true, the feed holds one repost of someone else's
    post, and the pass creates a status with that text and records it.
    The Mastodon direction does what this one misses: it tests [reblog],
    and on the same run the reblog is skipped. *)
Theorem ignoreReposts_lets_reposts_through :
  (forall (W : Type) (RT : Runtime W) (svc : SocialSyncService)
          (p : BskyPostView) (r : ReasonRepost) (w : W),
      bluesky_body svc (mkFeedItem p (Some r)) w
        = bluesky_body svc (mkFeedItem p None) w)
  /\ ignoreReposts (demo_config true false None) = true
  /\ is_repost reposted_item = true
  /\ syncFromBluesky (constructor (demo_config true false None)) reposts_only
     = (Ok [bluesky_record (constructor (demo_config true false None))
              reposted_item "101"],
        [EvGetAuthorFeed "jerdog.dev" 10 (Ok [reposted_item]);
         EvFetchStatus
           (mkRequest "https://hachyderm.io" "/api/v1/statuses" "token"
              (Some "POST")
              (Some (mkStatusBody "a post by someone else" "public")) None)
           (created "101")],
        world_with [] [] [listing [toot "8" "jerdog" at_11 true]] [] [])
  /\ mastodon_marked (toot "8" "jerdog" at_11 true) = true
  /\ outcome_of
       (syncFromMastodon (constructor (demo_config true false None))
          reposts_only) = Ok [].
Proof.
  split; [reflexivity|]. repeat split.
Qed.

(** ** Three posts, the second of which fails to publish *)

Lemma per_post_failure_is_contained_witness :
  dryRun (demo_config true false None) = false
  /\ outcome_of
       (publish_to_mastodon (constructor (demo_config true false None)) "post 2"
          (world_with [at_12; at_12; at_12] []
             [listing [toot "9" "jerdog" at_11 false;
                       toot "8" "jerdog" at_10 false;
                       toot "7" "jerdog" at_9 false]]
             [rejected; created "101"]
             [posted "9"; Throw (Error "Invalid record"); posted "7"]))
     = Throw (Error "Mastodon API error: 422 Validation failed")
  /\ outcome_of (syncFromBluesky (constructor (demo_config true false None))
                   second_fails)
     = Ok [bluesky_record (constructor (demo_config true false None))
             (feed_item "3" at_11 false) "103";
           bluesky_record (constructor (demo_config true false None))
             (feed_item "1" at_9 false) "101"]
  /\ outcome_of (syncFromMastodon (constructor (demo_config true false None))
                   second_fails)
     = Ok [mastodon_record (constructor (demo_config true false None))
             (toot "9" "jerdog" at_11 false) "at://jerdog.dev/post/9";
           mastodon_record (constructor (demo_config true false None))
             (toot "7" "jerdog" at_9 false) "at://jerdog.dev/post/7"].
Proof.
  destruct (per_post_failure_is_contained Scripted scripted_runtime
              (demo_config true false None) second_fails)
    as (_ & _ & _ & _ & _ & _ & Hb & Hm).
  split; [reflexivity|]. split; [reflexivity|]. split.
  - rewrite (Hb (feed_item "3" at_11 false) (feed_item "2" at_10 false)
               (feed_item "1" at_9 false) _ _ _ _ _ _ _ _ _ _ _
               eq_refl eq_refl eq_refl eq_refl eq_refl eq_refl eq_refl eq_refl).
    reflexivity.
  - rewrite (Hm (toot "9" "jerdog" at_11 false) (toot "8" "jerdog" at_10 false)
               (toot "7" "jerdog" at_9 false) _ _ _ _ _ _ _ _ _ _ _
               eq_refl eq_refl eq_refl eq_refl eq_refl eq_refl eq_refl eq_refl).
    reflexivity.
Defined.

(** ** Other accounts and letter case on the home timeline *)

(** C6 as stated fails here: the author's username [JerDog] differs from
    the configured [jerdog], and yet the post is in the output. *)
Lemma author_filter_counterexample :
  outcome_of (fetch_timeline_posts (constructor (demo_config true true None))
                mixed_timeline)
    = Ok [toot "9" "alice" at_11 false; toot "8" "JerDog" at_10 false]
  /\ username (account (toot "8" "JerDog" at_10 false))
       <> mastodonUsername (demo_config true true None)
  /\ outcome_of (syncFromMastodon (constructor (demo_config true true None))
                   mixed_timeline)
     = Ok [mastodon_record (constructor (demo_config true true None))
             (toot "8" "JerDog" at_10 false) "DRY_RUN"]
  /\ mastodon_appears (toot "8" "JerDog" at_10 false)
       [mastodon_record (constructor (demo_config true true None))
          (toot "8" "JerDog" at_10 false) "DRY_RUN"].
Proof.
  split; [reflexivity|]. split; [discriminate|]. split; [reflexivity|].
  eexists. split; [now left|]. now repeat split.
Qed.

Lemma author_filter_witness :
  toLowerCase (username (account (toot "9" "alice" at_11 false)))
    <> toLowerCase (mastodonUsername (demo_config true true None))
  /\ mastodon_body (constructor (demo_config true true None))
       (toot "9" "alice" at_11 false) mixed_timeline
     = (Ok None, [], mixed_timeline)
  /\ exists out,
       outcome_of (syncFromMastodon (constructor (demo_config true true None))
                     mixed_timeline) = Ok out
       /\ forall r, In r out ->
            exists p target,
              In p [toot "9" "alice" at_11 false; toot "8" "JerDog" at_10 false]
              /\ toLowerCase (username (account p))
                 = toLowerCase (mastodonUsername (demo_config true true None))
              /\ r = mastodon_record (constructor (demo_config true true None))
                       p target.
Proof.
  assert (Hne : toLowerCase (username (account (toot "9" "alice" at_11 false)))
                <> toLowerCase (mastodonUsername (demo_config true true None)))
    by discriminate.
  destruct (author_filter Scripted scripted_runtime (demo_config true true None)
              mixed_timeline) as [Hskip Hout].
  split; [exact Hne|]. split.
  - exact (Hskip (toot "9" "alice" at_11 false) mixed_timeline Hne).
  - destruct (Hout _ _ _ eq_refl) as (out & Ho & Hrec & _).
    exists out. split; [exact Ho|exact Hrec].
Defined.

Lemma author_check_ignores_case_witness :
  differ_only_in_case (username (account (toot "8" "JerDog" at_10 false)))
    (mastodonUsername (demo_config true true None))
  /\ same_author (constructor (demo_config true true None))
       (toot "8" "JerDog" at_10 false) = true
  /\ (exists out,
         outcome_of (syncFromMastodon (constructor (demo_config true true None))
                       mixed_timeline) = Ok out
         /\ In (mastodon_record (constructor (demo_config true true None))
                  (toot "8" "JerDog" at_10 false) "DRY_RUN") out)
  /\ (mastodon_body (constructor (demo_config true true None))
        (toot "9" "alice" at_11 false) mixed_timeline
      = (Ok None, [], mixed_timeline)
      <-> toLowerCase (username (account (toot "9" "alice" at_11 false)))
          <> toLowerCase (mastodonUsername (demo_config true true None))).
Proof.
  assert (Hcase : differ_only_in_case
                    (username (account (toot "8" "JerDog" at_10 false)))
                    (mastodonUsername (demo_config true true None))).
  { cbn. repeat (constructor; [first [left; reflexivity
                                     | right; left; reflexivity
                                     | right; right; reflexivity]|]).
    constructor. }
  destruct (author_check_ignores_case Scripted scripted_runtime
              (demo_config true true None) mixed_timeline)
    as (Hiff & Hsame & Hsynced).
  split; [exact Hcase|]. split; [exact (Hsame _ Hcase)|]. split.
  - destruct (Hsynced [toot "9" "alice" at_11 false]
                (toot "8" "JerDog" at_10 false) [] _ _
                eq_refl Hcase eq_refl eq_refl) as [Hd _].
    exact (Hd eq_refl).
  - exact (Hiff (toot "9" "alice" at_11 false) mixed_timeline eq_refl eq_refl).
Defined.

(** ** The watermark put by the worker *)

(** C7. The results' [timestamp] is documented as the timestamp of sync
    completion, and the claim takes the value written to be the pass's
    completion timestamp.  On this run the code departs from it: the
    pass completes and [DRY_RUN] is ['false'], so the watermark is put,
    but the value put is the clock reading 12:00:00 that [sync] took
    before fetching, although the same pass then published a post
    stamped 12:00:05 and the clock reads 12:00:09 when the pass is
    complete. *)
Theorem watermark_value_precedes_completion :
  outcome_of (handleSync (demo_env (Some "10") (Some "false")) moving_clock)
    = Ok {| success := true;
            report_dryRun := false;
            report_timestamp := Some at_12;
            stats := Some (0, 1);
            error := None;
            details := None |}
  /\ In (EvKvPut "lastSync" at_12 (Ok tt))
        (emitted (handleSync (demo_env (Some "10") (Some "false")) moving_clock))
  /\ In (EvBskyPost "toot 7" at_12_05 (posted "8"))
        (emitted (handleSync (demo_env (Some "10") (Some "false")) moving_clock))
  /\ date_le (W := Scripted) at_12_05 at_12 = false
  /\ fst (clock (world_of (handleSync (demo_env (Some "10") (Some "false"))
                             moving_clock))) = at_12_09
  /\ at_12_09 <> at_12.
Proof.
  split; [reflexivity|].
  split; [vm_compute; tauto|]. split; [vm_compute; tauto|].
  split; [reflexivity|]. split; [reflexivity|discriminate].
Qed.

(** The other parts of C7 on two runs: a live pass that completes puts
    the watermark, a pass that fails puts nothing and reports the
    failure. *)
Lemma watermark_commit_example :
  kv_get "lastSync" moving_clock = (Ok None, moving_clock)
  /\ (exists k v o,
         In (EvKvPut k v o)
            (emitted (handleSync (demo_env (Some "10") (Some "false"))
                        moving_clock)))
  /\ kv_get "lastSync" platforms_down = (Ok (Some at_10), platforms_down)
  /\ (exists report,
         outcome_of (handleSync (demo_env (Some "10") (Some "false"))
                       platforms_down) = Ok report
         /\ success report = false
         /\ error report = Some "Cannot reach Mastodon instance: 503").
Proof.
  destruct (watermark_commit Scripted scripted_runtime
              (demo_env (Some "10") (Some "false")) moving_clock None
              moving_clock eq_refl) as ([_ Hput] & _).
  destruct (watermark_commit Scripted scripted_runtime
              (demo_env (Some "10") (Some "false")) platforms_down (Some at_10)
              platforms_down eq_refl) as (_ & _ & _ & Hfail).
  split; [reflexivity|]. split.
  - apply Hput. eexists. split; reflexivity.
  - split; [reflexivity|].
    destruct (Hfail (Error "Cannot reach Mastodon instance: 503") eq_refl)
      as (_ & report & Ho & Hs & He).
    exists report. now repeat split.
Defined.

(** ** [POSTS_TO_SYNC] *)

(** C8 as stated fails here: a negative number is kept. *)
Lemma postsToSync_default_counterexample :
  postsToSync (make_config (demo_env (Some "-5") None) None) = (-5)%Z
  /\ this_postsToSync
       (constructor (make_config (demo_env (Some "-5") None) None)) = (-5)%Z
  /\ ~ (0 < postsToSync (make_config (demo_env (Some "-5") None) None))%Z.
Proof. split; [reflexivity|]. split; [reflexivity|]. cbn. lia. Qed.

Lemma postsToSync_default_witness :
  POSTS_TO_SYNC (demo_env (Some "ten") None) = Some "ten"
  /\ non_numeric "ten" = true
  /\ postsToSync (make_config (demo_env (Some "ten") None) None) = 10%Z
  /\ POSTS_TO_SYNC (demo_env None None) = None
  /\ postsToSync (make_config (demo_env None None) None) = 10%Z
  /\ parseInt (POSTS_TO_SYNC (demo_env (Some "25 posts") None)) = Some 25%Z
  /\ postsToSync (make_config (demo_env (Some "25 posts") None) None) = 25%Z.
Proof.
  destruct (postsToSync_default (demo_env (Some "ten") None) None)
    as (_ & _ & _ & Hten & _).
  destruct (postsToSync_default (demo_env None None) None)
    as (_ & _ & Hnone & _).
  destruct (postsToSync_default (demo_env (Some "25 posts") None) None)
    as (_ & _ & _ & _ & _ & _ & Hnum & _).
  split; [reflexivity|]. split; [reflexivity|].
  split; [exact (Hten "ten" eq_refl eq_refl)|].
  split; [reflexivity|]. split; [exact (Hnone eq_refl)|].
  split; [reflexivity|]. apply Hnum; [reflexivity|discriminate].
Defined.

(** * Further properties of the service and of the worker *)

(** ** Errors of [mastodonRequest] under [withRateLimit] *)

Lemma digit_not_r c : is_digit c = true -> Ascii.eqb "r" c = false.
Proof.
  intros H. destruct (digit_not_letter c H) as [Hr _].
  now rewrite Ascii.eqb_sym.
Qed.

Lemma includes_after_digits d t :
  all_chars is_digit d = true ->
  includes "rate limit" (d ++ String " " t)%string = includes "rate limit" t.
Proof.
  induction d as [|c d IH]; cbn [all_chars append includes starts_with].
  - intros _. reflexivity.
  - intros H. apply andb_true_iff in H. destruct H as [Hc Hd].
    rewrite (digit_not_r c Hc). cbn [andb orb]. auto.
Qed.

(** The error of a response that is not ok shows a rate limit exactly
    when the text of the response contains [rate limit]. *)
Lemma api_error_rate_limit n t :
  is_rate_limit
    (Error ("Mastodon API error: " ++ show_nat n ++ " " ++ t)%string)
  = includes "rate limit" t.
Proof.
  unfold is_rate_limit, Error. cbn [status message]. rewrite orb_false_r.
  cbn. apply includes_after_digits. apply show_nat_digits.
Qed.

(** X1. A response that is not ok makes [mastodonRequest] throw
    [Mastodon API error: <status> <text>], an error without a [status]
    property.  Under [withRateLimit] such a failure is retried only when
    the text of the response contains [rate limit]: otherwise, whatever
    the HTTP status (429 included), the request is made once, nothing is
    awaited and the error comes out; when the text does contain it, a
    wait of 1000 ms follows and the loop goes on. *)
Theorem api_error_retried_only_on_its_text :
  forall (W : Type) (RT : Runtime W) (J : Type) (svc : SocialSyncService)
         (fetch : Request -> W -> Outcome (Response J) * W)
         (ev : Request -> Outcome (Response J) -> event)
         (endpoint : string) (method : option string)
         (body : option StatusBody) (limit : option Z) (retries : nat)
         (w : W) (resp : Response J) (w1 : W),
    fetch (mkRequest (mastodonUrl (config svc)) endpoint
             (mastodonAccessToken (config svc)) method body limit) w
      = (Ok resp, w1) ->
    ok resp = false ->
    (includes "rate limit" (body_text resp) = false ->
       withRateLimit (mastodonRequest svc fetch ev endpoint method body limit)
         (S retries) w
       = (Throw (Error ("Mastodon API error: " ++ show_nat (http_status resp)
                        ++ " " ++ body_text resp)%string),
          [ev (mkRequest (mastodonUrl (config svc)) endpoint
                 (mastodonAccessToken (config svc)) method body limit)
              (Ok resp)],
          w1))
    /\ (includes "rate limit" (body_text resp) = true ->
        withRateLimit (mastodonRequest svc fetch ev endpoint method body limit)
          (S retries) w
        = match withRateLimit_from
                  (mastodonRequest svc fetch ev endpoint method body limit)
                  (S retries) 1 retries (sleep 1000 w1) with
          | (o, evs, w2) =>
              (o,
               ev (mkRequest (mastodonUrl (config svc)) endpoint
                     (mastodonAccessToken (config svc)) method body limit)
                  (Ok resp)
               :: EvSleep 1000 :: evs,
               w2)
          end).
Proof.
  intros W RT J svc fetch ev endpoint method body limit retries w resp w1
         Hfetch Hok.
  set (q := mkRequest (mastodonUrl (config svc)) endpoint
              (mastodonAccessToken (config svc)) method body limit) in *.
  set (err := Error ("Mastodon API error: " ++ show_nat (http_status resp)
                     ++ " " ++ body_text resp)%string).
  assert (Hrun : mastodonRequest svc fetch ev endpoint method body limit w
                 = (Throw err, [ev q (Ok resp)], w1)).
  { unfold mastodonRequest, bind, perform. fold q. rewrite Hfetch, Hok.
    reflexivity. }
  assert (Hrl : is_rate_limit err = includes "rate limit" (body_text resp))
    by apply api_error_rate_limit.
  split; intros Htext; rewrite Htext in Hrl.
  - unfold withRateLimit. now rewrite (retry_other _ _ _ _ _ _ _ _ Hrun Hrl).
  - unfold withRateLimit. rewrite (retry_again _ _ _ _ _ _ _ _ Hrun Hrl).
    change (2 ^ 0 * 1000) with 1000.
    now destruct (withRateLimit_from _ (S retries) 1 retries (sleep 1000 w1))
      as [[o evs] w2].
Qed.

Lemma api_error_retried_only_on_its_text_witness :
  ok (mkResponse (J := MastodonStatus) false 429 "Too Many Requests"
        (Throw (Error "no status"))) = false
  /\ includes "rate limit" "Too Many Requests" = false
  /\ outcome_of
       (publish_to_mastodon (constructor (demo_config true false None))
          "post 1" (world_with [] [] [] [throttled_response; created "101"] []))
     = Throw (Error "Mastodon API error: 429 Too Many Requests")
  /\ sleeps
       (emitted
          (publish_to_mastodon (constructor (demo_config true false None))
             "post 1"
             (world_with [] [] [] [throttled_response; created "101"] [])))
     = [].
Proof.
  split; [reflexivity|]. split; [reflexivity|].
  pose proof (api_error_retried_only_on_its_text Scripted scripted_runtime
                MastodonStatus (constructor (demo_config true false None))
                fetch_status EvFetchStatus "/api/v1/statuses" (Some "POST")
                (Some (mkStatusBody "post 1" "public")) None 2
                (world_with [] [] [] [throttled_response; created "101"] [])
                (mkResponse false 429 "Too Many Requests"
                   (Throw (Error "no status")))
                (world_with [] [] [] [created "101"] [])) as H.
  destruct (H eq_refl eq_refl) as [Honce _].
  unfold publish_to_mastodon, default_retries.
  rewrite (Honce eq_refl). split; reflexivity.
Defined.

(** ** The waits of [withRateLimit] *)

Lemma sleeps_app l1 l2 : sleeps (l1 ++ l2) = sleeps l1 ++ sleeps l2.
Proof.
  induction l1 as [|e l1 IH]; [reflexivity|].
  destruct e; cbn; now rewrite ?IH.
Qed.

Lemma backoff_total i k :
  list_sum (backoff i k) + 2 ^ i * 1000 = 2 ^ i * 2 ^ k * 1000.
Proof.
  revert i. induction k as [|k IH]; intros i.
  - rewrite Nat.pow_0_r. unfold list_sum. cbn [backoff fold_right]. lia.
  - specialize (IH (S i)). unfold list_sum in *.
    cbn [backoff fold_right]. rewrite !Nat.pow_succ_r' in *.
    set (a := 2 ^ i) in *. set (b := 2 ^ k) in *.
    set (s := fold_right Nat.add 0 (backoff (S i) k)) in *. nia.
Qed.

Section Waits.
Context {W : Type} {RT : Runtime W} {A : Type}.
Variable fn : M W A.
Hypothesis fn_never_waits : forall w, sleeps (emitted (fn w)) = [].

Lemma retry_sleeps retries i left w :
  exists k,
    k <= left
    /\ sleeps (emitted (withRateLimit_from fn retries i left w)) = backoff i k
    /\ (forall a,
           outcome_of (withRateLimit_from fn retries i left w) = Ok a ->
           k < left).
Proof.
  revert i w. induction left as [|left IH]; intros i w.
  - exists 0. split; [lia|]. split; [reflexivity|]. discriminate.
  - pose proof (fn_never_waits w) as Hq. run_of fn w.
    unfold emitted in Hq. cbn [fst snd] in Hq. destruct o as [a|e].
    + rewrite (retry_ok fn _ _ _ _ _ _ _ E). exists 0.
      split; [lia|]. split; [exact Hq|]. intros; lia.
    + destruct (is_rate_limit e) eqn:Hr.
      * rewrite (retry_again fn _ _ _ _ _ _ _ E Hr).
        destruct (IH (S i) (sleep (2 ^ i * 1000) w0)) as (k & Hk & Hs & Hok).
        destruct (withRateLimit_from fn retries (S i) left _) as [[o2 evs2] w2].
        unfold emitted, outcome_of in *. cbn [fst snd] in *.
        exists (S k). split; [lia|]. split.
        -- rewrite sleeps_app, Hq. cbn. now rewrite Hs.
        -- intros a Ha. specialize (Hok a Ha). lia.
      * rewrite (retry_other fn _ _ _ _ _ _ _ E Hr). exists 0.
        split; [lia|]. split; [exact Hq|]. discriminate.
Qed.

Lemma retry_sleeps_exhausted retries i left w :
  (forall w, exists e, outcome_of (fn w) = Throw e /\ is_rate_limit e = true) ->
  sleeps (emitted (withRateLimit_from fn retries i left w)) = backoff i left.
Proof.
  intros Hall. revert i w. induction left as [|left IH]; intros i w.
  - reflexivity.
  - destruct (Hall w) as (e & He & Hr). pose proof (fn_never_waits w) as Hq.
    run_of fn w. unfold outcome_of, emitted in He, Hq. cbn [fst snd] in He, Hq.
    subst o. rewrite (retry_again fn _ _ _ _ _ _ _ E Hr).
    specialize (IH (S i) (sleep (2 ^ i * 1000) w0)).
    destruct (withRateLimit_from fn retries (S i) left _) as [[o2 evs2] w2].
    unfold emitted in *. cbn [fst snd] in *.
    rewrite sleeps_app, Hq. cbn. now rewrite IH.
Qed.

End Waits.

(** X2. The waits of [withRateLimit] follow the schedule 1000, 2000,
    4000, ... ms: for an operation that does not wait itself, the waits of
    a run are the first [k] terms of that schedule for some
    [k <= retries], they add up to [(2^k - 1) * 1000] ms, and [k < retries]
    when the run returns a value.  When every attempt is rate limited all
    [retries] terms are waited, the last one after the last attempt,
    before the loop gives up. *)
Theorem withRateLimit_backoff_schedule :
  forall (W : Type) (RT : Runtime W) (A : Type) (fn : M W A)
         (retries : nat) (w : W),
    (forall w, sleeps (emitted (fn w)) = []) ->
    (exists k,
        k <= retries
        /\ sleeps (emitted (withRateLimit fn retries w)) = backoff 0 k
        /\ list_sum (sleeps (emitted (withRateLimit fn retries w))) + 1000
           = 2 ^ k * 1000
        /\ (forall a, outcome_of (withRateLimit fn retries w) = Ok a ->
                      k < retries))
    /\ ((forall w, exists e,
            outcome_of (fn w) = Throw e /\ is_rate_limit e = true) ->
        sleeps (emitted (withRateLimit fn retries w)) = backoff 0 retries).
Proof.
  intros W RT A fn retries w Hq. split.
  - destruct (retry_sleeps fn Hq retries 0 retries w) as (k & Hk & Hs & Hok).
    exists k. split; [exact Hk|]. split; [exact Hs|]. split; [|exact Hok].
    unfold withRateLimit. rewrite Hs.
    pose proof (backoff_total 0 k) as Ht. rewrite Nat.pow_0_r in Ht. lia.
  - intros Hall. now apply retry_sleeps_exhausted.
Qed.

Lemma withRateLimit_backoff_schedule_witness :
  (forall w, sleeps (emitted (always_throttled w)) = [])
  /\ (forall w, exists e,
         outcome_of (always_throttled w) = Throw e /\ is_rate_limit e = true)
  /\ sleeps (emitted (withRateLimit always_throttled default_retries
                        throttled_twice))
     = [1000; 2000; 4000].
Proof.
  assert (Hq : forall w : Scripted, sleeps (emitted (always_throttled w)) = [])
    by reflexivity.
  assert (Hall : forall w : Scripted, exists e,
             outcome_of (always_throttled w) = Throw e
             /\ is_rate_limit e = true).
  { intros w. exists too_many_requests. split; reflexivity. }
  split; [exact Hq|]. split; [exact Hall|].
  exact (proj2 (withRateLimit_backoff_schedule Scripted scripted_runtime BskyRef
                  always_throttled default_retries throttled_twice Hq) Hall).
Defined.

(** ** [initialize] *)

(** X3. [initialize] contacts Mastodon first and Bluesky last.  When it
    returns, it made exactly three calls, each of which succeeded: the
    instance check, the credentials check, the Bluesky login.  The
    Bluesky login is attempted only after both Mastodon checks answered
    ok, and with the configured identifier and password.  An instance
    answer that is not ok makes it throw
    [Cannot reach Mastodon instance: <status>] after that single call. *)
Theorem initialize_order :
  forall (W : Type) (RT : Runtime W) (svc : SocialSyncService) (w : W),
    (outcome_of (initialize svc w) = Ok tt ->
       exists ri inst ra acct,
         emitted (initialize svc w) =
           [EvFetchInstance (mastodonUrl (config svc)) (Ok ri);
            EvFetchAccount
              (mkRequest (mastodonUrl (config svc))
                 "/api/v1/accounts/verify_credentials"
                 (mastodonAccessToken (config svc)) None None None) (Ok ra);
            EvBskyLogin (blueskyUsername (config svc))
              (blueskyPassword (config svc)) (Ok tt)]
         /\ ok ri = true /\ body_json ri = Ok inst
         /\ ok ra = true /\ body_json ra = Ok acct)
    /\ (forall i p o,
           In (EvBskyLogin i p o) (emitted (initialize svc w)) ->
           i = blueskyUsername (config svc)
           /\ p = blueskyPassword (config svc)
           /\ exists ri ra,
                emitted (initialize svc w) =
                  [EvFetchInstance (mastodonUrl (config svc)) (Ok ri);
                   EvFetchAccount
                     (mkRequest (mastodonUrl (config svc))
                        "/api/v1/accounts/verify_credentials"
                        (mastodonAccessToken (config svc)) None None None)
                     (Ok ra);
                   EvBskyLogin i p o]
                /\ ok ri = true /\ ok ra = true)
    /\ (forall ri w1,
           fetch_instance (mastodonUrl (config svc)) w = (Ok ri, w1) ->
           ok ri = false ->
           initialize svc w =
             (Throw (Error ("Cannot reach Mastodon instance: "
                            ++ show_nat (http_status ri))%string),
              [EvFetchInstance (mastodonUrl (config svc)) (Ok ri)], w1)).
Proof.
  intros W RT svc w.
  unfold initialize, mastodonRequest, bind, try_catch, perform, throw, ret,
    settle, outcome_of, emitted.
  destruct (fetch_instance (mastodonUrl (config svc)) w) as [[ri|e] w1];
    cbn [fst snd negb app].
  2:{ split; [discriminate|]. split; [|discriminate].
      intros i p o [H|[]]. discriminate. }
  destruct (ok ri) eqn:Hri; cbn [fst snd negb app].
  2:{ split; [discriminate|]. split.
      - intros i p o [H|[]]. discriminate.
      - now intros ri' w1' [= <- <-] _. }
  destruct (body_json ri) as [inst|e] eqn:Hinst; cbn [fst snd negb app].
  2:{ split; [discriminate|]. split; [|intros ri' w1' [= <- <-]; congruence].
      intros i p o [H|[]]. discriminate. }
  destruct (fetch_account _ w1) as [[ra|e] w2]; cbn [fst snd negb app].
  2:{ split; [discriminate|]. split; [|intros ri' w1' [= <- <-]; congruence].
      intros i p o [H|[H|[]]]; discriminate. }
  destruct (ok ra) eqn:Hra; cbn [fst snd negb app].
  2:{ split; [discriminate|]. split; [|intros ri' w1' [= <- <-]; congruence].
      intros i p o [H|[H|[]]]; discriminate. }
  destruct (body_json ra) as [acct|e] eqn:Hacct; cbn [fst snd negb app].
  2:{ split; [discriminate|]. split; [|intros ri' w1' [= <- <-]; congruence].
      intros i p o [H|[H|[]]]; discriminate. }
  destruct (bsky_login _ _ w2) as [[[]|e] w3]; cbn [fst snd negb app].
  - split; [|split; [|intros ri' w1' [= <- <-]; congruence]].
    + intros _. now exists ri, inst, ra, acct.
    + intros i p o [H|[H|[H|[]]]]; try discriminate.
      injection H as <- <- <-. split; [reflexivity|]. split; [reflexivity|].
      now exists ri, ra.
  - split; [discriminate|]. split; [|intros ri' w1' [= <- <-]; congruence].
    intros i p o [H|[H|[H|[]]]]; try discriminate.
    injection H as <- <- <-. split; [reflexivity|]. split; [reflexivity|].
    now exists ri, ra.
Qed.

Lemma initialize_order_witness :
  outcome_of (initialize (constructor (demo_config true true None)) one_each)
    = Ok tt
  /\ List.length
       (emitted (initialize (constructor (demo_config true true None)) one_each))
     = 3
  /\ fetch_instance "https://hachyderm.io" platforms_down
     = (Ok (mkResponse false 503 "unavailable" (Throw (Error "no body"))),
        platforms_down)
  /\ outcome_of (initialize (constructor (demo_config true true None))
                   platforms_down)
     = Throw (Error "Cannot reach Mastodon instance: 503").
Proof.
  destruct (initialize_order Scripted scripted_runtime
              (constructor (demo_config true true None)) one_each)
    as (Hok & _ & _).
  destruct (initialize_order Scripted scripted_runtime
              (constructor (demo_config true true None)) platforms_down)
    as (_ & _ & Hdown).
  split; [reflexivity|]. split.
  - destruct (Hok eq_refl) as (ri & inst & ra & acct & -> & _). reflexivity.
  - split; [reflexivity|].
    pose proof (Hdown (mkResponse false 503 "unavailable"
                         (Throw (Error "no body"))) platforms_down) as H.
    now rewrite (H eq_refl eq_refl).
Defined.

(** ** [sync] and [handleSync], path by path *)

Section Paths.
Context {W : Type} {RT : Runtime W}.

Lemma sync_init_failed svc w e evs0 w1 :
  initialize svc w = (Throw e, evs0, w1) -> sync svc w = (Throw e, evs0, w1).
Proof.
  intros E. unfold sync. rewrite try_rethrow. now apply bind_throw.
Qed.

Lemma sync_run svc w evs0 w1 t w2 :
  initialize svc w = (Ok tt, evs0, w1) -> clock w1 = (t, w2) ->
  sync svc w =
    match syncFromBluesky svc w2 with
    | (Ok b, evs1, w3) =>
        match syncFromMastodon svc w3 with
        | (Ok m, evs2, w4) =>
            (Ok {| results_timestamp := t;
                   blueskyToMastodon := b;
                   mastodonToBluesky := m;
                   results_dryRun := this_dryRun svc |},
             evs0 ++ EvNow t :: evs1 ++ evs2, w4)
        | (Throw e, evs2, w4) => (Throw e, evs0 ++ EvNow t :: evs1 ++ evs2, w4)
        end
    | (Throw e, evs1, w3) => (Throw e, evs0 ++ EvNow t :: evs1, w3)
    end.
Proof.
  intros E0 Ec. unfold sync. rewrite try_rethrow.
  rewrite (bind_ok _ _ _ _ _ _ E0).
  assert (En : @now W RT w1 = (Ok t, [EvNow t], w2)).
  { unfold now. now rewrite Ec. }
  rewrite (bind_ok _ _ _ _ _ _ En). unfold bind, ret.
  destruct (syncFromBluesky svc w2) as [[[b|e] evs1] w3]; [|reflexivity].
  destruct (syncFromMastodon svc w3) as [[[m|e] evs2] w4]; [|reflexivity].
  now rewrite app_nil_r.
Qed.

Lemma handleSync_store_failed env w e w0 :
  kv_get "lastSync" w = (Throw e, w0) ->
  handleSync env w = (Throw e, [EvKvGet "lastSync" (Throw e)], w0).
Proof.
  intros Hget. unfold handleSync, bind, perform. now rewrite Hget.
Qed.

Lemma handleSync_run env w stored w0 :
  kv_get "lastSync" w = (Ok stored, w0) ->
  handleSync env w =
    match sync (constructor (make_config env stored)) w0 with
    | (Ok results, evs, w1) =>
        if dryRun (make_config env stored) then
          (Ok (success_report (make_config env stored) results),
           EvKvGet "lastSync" (Ok stored) :: evs, w1)
        else
          match kv_put "lastSync" (results_timestamp results) w1 with
          | (Ok u, w2) =>
              (Ok (success_report (make_config env stored) results),
               EvKvGet "lastSync" (Ok stored)
                 :: evs ++ [EvKvPut "lastSync" (results_timestamp results) (Ok u)],
               w2)
          | (Throw e, w2) =>
              (Ok (failure_report (make_config env stored) e),
               EvKvGet "lastSync" (Ok stored)
                 :: evs ++ [EvKvPut "lastSync" (results_timestamp results)
                              (Throw e)],
               w2)
          end
    | (Throw e, evs, w1) =>
        (Ok (failure_report (make_config env stored) e),
         EvKvGet "lastSync" (Ok stored) :: evs, w1)
    end.
Proof.
  intros Hget. unfold handleSync, bind at 1, perform at 1. rewrite Hget.
  unfold try_catch, bind at 1, success_report, failure_report.
  destruct (sync (constructor (make_config env stored)) w0)
    as [[[results|e] evs] w1].
  - destruct (dryRun (make_config env stored)) eqn:Hd; cbn [negb].
    + unfold bind, ret. cbn. now rewrite !app_nil_r.
    + unfold bind, ret, perform.
      destruct (kv_put "lastSync" (results_timestamp results) w1)
        as [[u|e] w2]; cbn; now rewrite ?app_nil_r.
  - unfold ret. cbn. now rewrite app_nil_r.
Qed.

(** In a live run the identifiers returned by the publish calls of a
    direction are the target identifiers of its output. *)
Lemma syncFromBluesky_live_ids svc w out evs w1 :
  this_dryRun svc = false ->
  syncFromBluesky svc w = (Ok out, evs, w1) ->
  published_ids evs = map targetId out.
Proof.
  intros Hd Hrun.
  assert (Ho : outcome_of (syncFromBluesky svc w) = Ok out) by now rewrite Hrun.
  destruct (syncFromBluesky_inv _ _ _ Ho) as (feed & evs0 & w0 & E & Hl).
  rewrite (syncFromBluesky_fetched _ _ _ _ _ E) in Hrun.
  pose proof (for_of_ids (bluesky_body svc) feed [] w0 out
                (fun x w' => bluesky_body_ids svc x w' Hd) Hl) as Hids.
  pose proof (fetch_feed_quiet svc w) as Hq. rewrite E in Hq.
  destruct (for_of _ feed [] w0) as [[o evs'] w2].
  injection Hrun as -> <- <-. unfold emitted in *. cbn [fst snd] in *.
  now rewrite published_ids_app, (quiet_no_ids _ Hq), Hids.
Qed.

End Paths.

(** X4. [sync] stops at its first failure.  When [initialize] throws,
    [sync] throws the same error and has performed the calls of
    [initialize] only: no post was listed or published.  When the listing
    of the Bluesky feed throws, [sync] throws the same error, nothing
    was published, and Mastodon's home timeline was never requested:
    the second direction is not attempted. *)
Theorem sync_stops_at_first_failure :
  forall (W : Type) (RT : Runtime W) (svc : SocialSyncService) (w : W),
    (forall e evs0 w1,
        initialize svc w = (Throw e, evs0, w1) ->
        sync svc w = (Throw e, evs0, w1)
        /\ Forall (fun ev => touches_posts ev = false) (emitted (sync svc w)))
    /\ (forall evs0 w1 t w2 e evs1 w3,
        initialize svc w = (Ok tt, evs0, w1) ->
        clock w1 = (t, w2) ->
        fetch_feed svc w2 = (Throw e, evs1, w3) ->
        sync svc w = (Throw e, evs0 ++ EvNow t :: evs1, w3)
        /\ Forall (fun ev => is_publish ev = false
                             /\ second_direction ev = false)
             (emitted (sync svc w))).
Proof.
  intros W RT svc w. split.
  - intros e evs0 w1 E. rewrite (sync_init_failed _ _ _ _ _ E).
    split; [reflexivity|].
    pose proof (initialize_lists_nothing svc w) as H. now rewrite E in H.
  - intros evs0 w1 t w2 e evs1 w3 E0 Ec Ef.
    rewrite (sync_run _ _ _ _ _ _ E0 Ec).
    unfold syncFromBluesky. rewrite (bind_throw _ _ _ _ _ _ Ef).
    split; [reflexivity|]. unfold emitted. cbn [fst snd].
    apply Forall_app. split.
    + pose proof (initialize_events
                    (fun ev => is_publish ev = false
                               /\ second_direction ev = false) svc w) as H.
      rewrite E0 in H. apply H; now intros.
    + constructor; [now split|].
      pose proof (fetch_feed_events
                    (fun ev => is_publish ev = false
                               /\ second_direction ev = false)) as H.
      specialize (H (fun _ => conj eq_refl eq_refl) svc w2).
      rewrite Ef in H. apply H. now intros.
Qed.

Lemma sync_stops_at_first_failure_witness :
  initialize (constructor (demo_config true false None)) platforms_down
    = (Throw (Error "Cannot reach Mastodon instance: 503"),
       [EvFetchInstance "https://hachyderm.io"
          (Ok (mkResponse false 503 "unavailable" (Throw (Error "no body"))))],
       platforms_down)
  /\ outcome_of (sync (constructor (demo_config true false None)) platforms_down)
     = Throw (Error "Cannot reach Mastodon instance: 503")
  /\ outcome_of (fetch_feed (constructor (demo_config true false None))
                   (world_with [] [Throw (Error "UpstreamFailure")]
                      [listing [toot "7" "jerdog" at_10 false]] []
                      [posted "8"]))
     = Throw (Error "UpstreamFailure")
  /\ outcome_of (sync (constructor (demo_config true false None))
                   feed_unavailable)
     = Throw (Error "UpstreamFailure")
  /\ Forall (fun ev => is_publish ev = false /\ second_direction ev = false)
       (emitted (sync (constructor (demo_config true false None))
                   feed_unavailable)).
Proof.
  destruct (sync_stops_at_first_failure Scripted scripted_runtime
              (constructor (demo_config true false None)) platforms_down)
    as [Hinit _].
  destruct (sync_stops_at_first_failure Scripted scripted_runtime
              (constructor (demo_config true false None)) feed_unavailable)
    as [_ Hfeed].
  split; [reflexivity|]. split.
  - destruct (Hinit _ _ _ eq_refl) as [-> _]. reflexivity.
  - split; [reflexivity|].
    pose proof (Hfeed _ _ at_12
                  (world_with [] [Throw (Error "UpstreamFailure")]
                     [listing [toot "7" "jerdog" at_10 false]] [] [posted "8"])
                  (Error "UpstreamFailure") _ _ eq_refl eq_refl eq_refl)
      as [Hrun Hquiet].
    split; [now rewrite Hrun|exact Hquiet].
Defined.

(** X5. A pass is not atomic.  When the first direction has returned
    its records and the listing of the home timeline then throws, [sync]
    throws that error and the worker reports [success = false] with the
    error's message and puts no watermark; yet in a live run the posts of
    the first direction were published: the identifiers returned by the
    publish calls of the failed pass are the target identifiers of those
    records, which the report does not carry. *)
Theorem failed_pass_keeps_its_publications :
  forall (W : Type) (RT : Runtime W) (env : Env) (w : W)
         (stored : option string) (w0 : W) (evs0 : list event) (w1 : W)
         (t : string) (w2 : W) (out : list SyncedPost) (evs1 : list event)
         (w3 : W) (e : JsError) (evs2 : list event) (w4 : W),
    kv_get "lastSync" w = (Ok stored, w0) ->
    initialize (constructor (make_config env stored)) w0 = (Ok tt, evs0, w1) ->
    clock w1 = (t, w2) ->
    syncFromBluesky (constructor (make_config env stored)) w2
      = (Ok out, evs1, w3) ->
    fetch_timeline_posts (constructor (make_config env stored)) w3
      = (Throw e, evs2, w4) ->
    handleSync env w =
      (Ok (failure_report (make_config env stored) e),
       EvKvGet "lastSync" (Ok stored) :: evs0 ++ EvNow t :: evs1 ++ evs2, w4)
    /\ success (failure_report (make_config env stored) e) = false
    /\ error (failure_report (make_config env stored) e) = Some (message e)
    /\ stats (failure_report (make_config env stored) e) = None
    /\ (forall ev, In ev (emitted (handleSync env w)) -> is_kv_put ev = false)
    /\ (is_true (DRY_RUN env) = false ->
        published_ids (emitted (handleSync env w)) = map targetId out).
Proof.
  intros W RT env w stored w0 evs0 w1 t w2 out evs1 w3 e evs2 w4
         Hget E0 Ec Eb Et.
  set (svc := constructor (make_config env stored)) in *.
  assert (Hsync : sync svc w0 = (Throw e, evs0 ++ EvNow t :: evs1 ++ evs2, w4)).
  { rewrite (sync_run _ _ _ _ _ _ E0 Ec), Eb.
    unfold syncFromMastodon. now rewrite (bind_throw _ _ _ _ _ _ Et). }
  assert (Hrun : handleSync env w =
                 (Ok (failure_report (make_config env stored) e),
                  EvKvGet "lastSync" (Ok stored)
                    :: evs0 ++ EvNow t :: evs1 ++ evs2, w4)).
  { rewrite (handleSync_run _ _ _ _ Hget). fold svc. now rewrite Hsync. }
  split; [exact Hrun|]. split; [reflexivity|]. split; [reflexivity|].
  split; [reflexivity|]. split.
  - rewrite Hrun. unfold emitted. cbn [fst snd].
    pose proof (sync_never_puts svc w0) as Hq. rewrite Hsync in Hq.
    unfold emitted in Hq. cbn [fst snd] in Hq. rewrite Forall_forall in Hq.
    intros ev [<-|Hin]; [reflexivity|now apply Hq].
  - intros Hd. rewrite Hrun. unfold emitted. cbn [fst snd].
    assert (Hlive : this_dryRun svc = false).
    { unfold svc. now rewrite this_dryRun_constructor. }
    cbn [published_ids published_id].
    rewrite published_ids_app. cbn [published_ids published_id].
    rewrite published_ids_app.
    rewrite (syncFromBluesky_live_ids _ _ _ _ _ Hlive Eb).
    pose proof (initialize_events (fun ev => is_publish ev = false) svc w0) as H0.
    rewrite E0 in H0.
    rewrite (quiet_no_ids evs0) by (apply H0; reflexivity).
    pose proof (fetch_timeline_quiet svc w3) as H2. rewrite Et in H2.
    rewrite (quiet_no_ids evs2 H2). cbn. now rewrite app_nil_r.
Qed.

Lemma failed_pass_keeps_its_publications_witness :
  kv_get "lastSync" timeline_unavailable = (Ok None, timeline_unavailable)
  /\ outcome_of (handleSync (demo_env (Some "10") (Some "false"))
                   timeline_unavailable)
     = Ok (failure_report (make_config (demo_env (Some "10") (Some "false")) None)
             (Error "fetch failed"))
  /\ published_ids
       (emitted (handleSync (demo_env (Some "10") (Some "false"))
                   timeline_unavailable))
     = ["101"].
Proof.
  pose proof (failed_pass_keeps_its_publications Scripted scripted_runtime
                (demo_env (Some "10") (Some "false")) timeline_unavailable None
                timeline_unavailable) as H.
  specialize (H _ timeline_unavailable at_12
                (world_with [] [Ok [feed_item "1" at_10 false]]
                   [Throw (Error "fetch failed")] [created "101"] [])
                [bluesky_record
                   (constructor
                      (make_config (demo_env (Some "10") (Some "false")) None))
                   (feed_item "1" at_10 false) "101"]
                _ (world_with [] [] [Throw (Error "fetch failed")] [] [])
                (Error "fetch failed") _ (world_with [] [] [] [] [])
                eq_refl eq_refl eq_refl eq_refl eq_refl).
  destruct H as (Hrun & _ & _ & _ & _ & Hids).
  split; [reflexivity|]. split; [now rewrite Hrun|].
  exact (Hids eq_refl).
Defined.

(** X6. The worker throws only for the read of the store, which is
    made outside its [try]: [handleSync] throws [e] exactly when
    [SYNC_STORE.get] throws [e], and then it has done nothing else.  In
    every other case it returns a report, also when the put of the
    watermark throws after a pass that completed: the report then has
    [success = false] with the message of that error, although [sync]
    returned. *)
Theorem handleSync_throws_only_for_the_store_read :
  forall (W : Type) (RT : Runtime W) (env : Env) (w : W),
    (forall e,
        outcome_of (handleSync env w) = Throw e <->
        fst (kv_get "lastSync" w) = Throw e)
    /\ (forall e,
        fst (kv_get "lastSync" w) = Throw e ->
        emitted (handleSync env w) = [EvKvGet "lastSync" (Throw e)])
    /\ (forall stored w0 results evs w1 e w2,
        kv_get "lastSync" w = (Ok stored, w0) ->
        sync (constructor (make_config env stored)) w0 = (Ok results, evs, w1) ->
        is_true (DRY_RUN env) = false ->
        kv_put "lastSync" (results_timestamp results) w1 = (Throw e, w2) ->
        handleSync env w =
          (Ok (failure_report (make_config env stored) e),
           EvKvGet "lastSync" (Ok stored)
             :: evs ++ [EvKvPut "lastSync" (results_timestamp results) (Throw e)],
           w2)).
Proof.
  intros W RT env w.
  destruct (kv_get "lastSync" w) as [[stored|e0] w0] eqn:Hget.
  - pose proof (handleSync_run env w stored w0 Hget) as Hrun.
    split; [|split].
    + intros e. cbn [fst]. split; [|discriminate].
      rewrite Hrun.
      destruct (sync _ w0) as [[[results|e1] evs] w1]; [|discriminate].
      destruct (dryRun (make_config env stored)); [discriminate|].
      destruct (kv_put _ _ w1) as [[u|e2] w2]; discriminate.
    + intros e. discriminate.
    + intros stored' w0' results evs w1 e w2 [= <- <-] Hs Hd Hput.
      rewrite Hrun, Hs. change (dryRun (make_config env stored))
        with (is_true (DRY_RUN env)). now rewrite Hd, Hput.
  - rewrite (handleSync_store_failed env w e0 w0 Hget).
    split; [|split].
    + intros e. unfold outcome_of. cbn [fst].
      split; intros [= <-]; reflexivity.
    + intros e. cbn [fst]. now intros [= <-].
    + intros stored w0' results evs w1 e w2. discriminate.
Qed.

Lemma handleSync_throws_only_for_the_store_read_witness :
  fst (kv_get (Runtime := unreadable_store) "lastSync" one_each)
    = Throw (Error "KV GET failed: 500")
  /\ outcome_of (@handleSync Scripted unreadable_store
                   (demo_env (Some "10") (Some "false")) one_each)
     = Throw (Error "KV GET failed: 500")
  /\ emitted (@handleSync Scripted unreadable_store
                (demo_env (Some "10") (Some "false")) one_each)
     = [EvKvGet "lastSync" (Throw (Error "KV GET failed: 500"))]
  /\ is_true (DRY_RUN (demo_env (Some "10") (Some "false"))) = false
  /\ outcome_of (@handleSync Scripted read_only_store
                   (demo_env (Some "10") (Some "false")) one_each)
     = Ok (failure_report
             (make_config (demo_env (Some "10") (Some "false")) None)
             (Error "KV PUT failed: 429")).
Proof.
  destruct (handleSync_throws_only_for_the_store_read Scripted unreadable_store
              (demo_env (Some "10") (Some "false")) one_each)
    as (Hiff & Hev & _).
  destruct (handleSync_throws_only_for_the_store_read Scripted read_only_store
              (demo_env (Some "10") (Some "false")) one_each)
    as (_ & _ & Hput).
  split; [reflexivity|].
  split; [exact (proj2 (Hiff (Error "KV GET failed: 500")) eq_refl)|].
  split; [exact (Hev (Error "KV GET failed: 500") eq_refl)|].
  split; [reflexivity|].
  destruct (@sync Scripted read_only_store
              (constructor
                 (make_config (demo_env (Some "10") (Some "false")) None))
              one_each) as [[o evs] w1] eqn:Hs.
  vm_compute in Hs. injection Hs as <- <- <-.
  erewrite Hput; [reflexivity|reflexivity| |reflexivity|reflexivity].
  vm_compute. reflexivity.
Defined.

(** X7. Every report the worker returns is one of two shapes.  With
    [success = true] it has no error and carries the timestamp of the
    results of [sync] and, as [stats], the lengths of the two lists of
    records.  With [success = false] it carries an error message and
    neither timestamp nor stats.  In both, [dryRun] repeats whether
    [DRY_RUN] is ['true'], and [details] are present only when [DEBUG] is
    ['true']. *)
Theorem report_shape :
  forall (W : Type) (RT : Runtime W) (env : Env) (w : W) (report : Report),
    outcome_of (handleSync env w) = Ok report ->
    report_dryRun report = is_true (DRY_RUN env)
    /\ (details report <> None -> is_true (DEBUG env) = true)
    /\ (success report = true ->
        error report = None
        /\ exists stored w0 results,
             kv_get "lastSync" w = (Ok stored, w0)
             /\ outcome_of (sync (constructor (make_config env stored)) w0)
                = Ok results
             /\ report_timestamp report = Some (results_timestamp results)
             /\ stats report
                = Some (List.length (blueskyToMastodon results),
                        List.length (mastodonToBluesky results)))
    /\ (success report = false ->
        error report <> None
        /\ stats report = None
        /\ report_timestamp report = None).
Proof.
  intros W RT env w report.
  destruct (kv_get "lastSync" w) as [[stored|e0] w0] eqn:Hget.
  2:{ rewrite (handleSync_store_failed env w e0 w0 Hget). discriminate. }
  rewrite (handleSync_run env w stored w0 Hget).
  assert (Hok : forall results,
            outcome_of (sync (constructor (make_config env stored)) w0)
              = Ok results ->
            let r := success_report (make_config env stored) results in
            report_dryRun r = is_true (DRY_RUN env)
            /\ (details r <> None -> is_true (DEBUG env) = true)
            /\ (success r = true ->
                error r = None
                /\ exists stored' w0' results',
                     (Ok stored, w0) = (Ok stored', w0')
                     /\ outcome_of
                          (sync (constructor (make_config env stored')) w0')
                        = Ok results'
                     /\ report_timestamp r = Some (results_timestamp results')
                     /\ stats r
                        = Some (List.length (blueskyToMastodon results'),
                                List.length (mastodonToBluesky results')))
            /\ (success r = false ->
                error r <> None /\ stats r = None /\ report_timestamp r = None)).
  { intros results Hs. cbn. split; [reflexivity|]. split.
    - destruct (is_true (DEBUG env)); [reflexivity|congruence].
    - split; [|discriminate]. intros _. split; [reflexivity|].
      now exists stored, w0, results. }
  assert (Hfail : forall e,
            let r := failure_report (make_config env stored) e in
            report_dryRun r = is_true (DRY_RUN env)
            /\ (details r <> None -> is_true (DEBUG env) = true)
            /\ (success r = true ->
                error r = None
                /\ exists stored' w0' results',
                     (Ok stored, w0) = (Ok stored', w0')
                     /\ outcome_of
                          (sync (constructor (make_config env stored')) w0')
                        = Ok results'
                     /\ report_timestamp r = Some (results_timestamp results')
                     /\ stats r
                        = Some (List.length (blueskyToMastodon results'),
                                List.length (mastodonToBluesky results')))
            /\ (success r = false ->
                error r <> None /\ stats r = None /\ report_timestamp r = None)).
  { intros e. cbn. split; [reflexivity|]. split.
    - destruct (is_true (DEBUG env)); [reflexivity|congruence].
    - split; [discriminate|]. intros _. now repeat split. }
  destruct (sync (constructor (make_config env stored)) w0)
    as [[[results|e1] evs] w1] eqn:Hs.
  - destruct (dryRun (make_config env stored)).
    + intros [= <-]. now apply Hok.
    + destruct (kv_put _ _ w1) as [[u|e2] w2]; intros [= <-];
        [now apply Hok|apply Hfail].
  - intros [= <-]. apply Hfail.
Qed.

Lemma report_shape_witness :
  outcome_of (handleSync (demo_env (Some "10") (Some "false")) moving_clock)
    = Ok (success_report
            (make_config (demo_env (Some "10") (Some "false")) None)
            (mkSyncResults at_12 []
               [mastodon_record
                  (constructor
                     (make_config (demo_env (Some "10") (Some "false")) None))
                  (toot "7" "jerdog" at_11 false) "at://jerdog.dev/post/8"]
               false))
  /\ details
       (success_report
          (make_config (demo_env (Some "10") (Some "false")) None)
          (mkSyncResults at_12 []
             [mastodon_record
                (constructor
                   (make_config (demo_env (Some "10") (Some "false")) None))
                (toot "7" "jerdog" at_11 false) "at://jerdog.dev/post/8"]
             false))
     = None.
Proof.
  assert (Hrun :
    outcome_of (handleSync (demo_env (Some "10") (Some "false")) moving_clock)
    = Ok (success_report
            (make_config (demo_env (Some "10") (Some "false")) None)
            (mkSyncResults at_12 []
               [mastodon_record
                  (constructor
                     (make_config (demo_env (Some "10") (Some "false")) None))
                  (toot "7" "jerdog" at_11 false) "at://jerdog.dev/post/8"]
               false))) by reflexivity.
  split; [exact Hrun|].
  destruct (report_shape Scripted scripted_runtime
              (demo_env (Some "10") (Some "false")) moving_clock _ Hrun)
    as (_ & Hdetails & _).
  destruct (details _) as [d|] eqn:Hd; [|reflexivity].
  assert (Hne : Some d <> None) by discriminate.
  specialize (Hdetails Hne). discriminate Hdetails.
Defined.

(** ** The watermark handed to the service *)

(** X8. The [lastSync] of the configuration is the stored watermark when
    that is a non-empty string; otherwise the [LAST_SYNC] binding when
    that is a non-empty string; otherwise [null].  It is never the empty
    string, the constructor copies it unchanged, and when it is [null] no
    timestamp is older than the watermark: nothing is skipped for its
    age. *)
Theorem lastSync_fallback :
  forall (env : Env) (stored : option string),
    (truthy stored = true -> lastSync (make_config env stored) = stored)
    /\ (truthy stored = false -> truthy (LAST_SYNC env) = true ->
        lastSync (make_config env stored) = LAST_SYNC env)
    /\ (truthy stored = false -> truthy (LAST_SYNC env) = false ->
        lastSync (make_config env stored) = None)
    /\ lastSync (make_config env stored) <> Some EmptyString
    /\ this_lastSync (constructor (make_config env stored))
       = lastSync (make_config env stored)
    /\ (lastSync (make_config env stored) = None ->
        forall (W : Type) (RT : Runtime W) (t : string),
          older_than_lastSync (constructor (make_config env stored)) t = false).
Proof.
  intros env stored. cbn [lastSync make_config this_lastSync constructor].
  unfold string_or.
  split; [|split; [|split; [|split; [|split]]]].
  - intros Hs. now rewrite Hs, Hs.
  - intros Hs He. now rewrite Hs, He.
  - intros Hs He. now rewrite Hs, He.
  - destruct (truthy stored) eqn:Hs; cbv iota.
    + rewrite Hs. intros ->. discriminate.
    + destruct (truthy (LAST_SYNC env)) eqn:He; [|discriminate].
      intros He'. rewrite He' in He. discriminate.
  - reflexivity.
  - intros Hnone W RT t. unfold older_than_lastSync.
    cbn [this_lastSync constructor lastSync make_config]. unfold string_or.
    now rewrite Hnone.
Qed.

Lemma lastSync_fallback_witness :
  truthy (Some at_10) = true
  /\ lastSync (make_config (demo_env None None) (Some at_10)) = Some at_10
  /\ truthy (Some EmptyString) = false
  /\ truthy (LAST_SYNC (demo_env None None)) = false
  /\ lastSync (make_config (demo_env None None) (Some EmptyString)) = None.
Proof.
  destruct (lastSync_fallback (demo_env None None) (Some at_10))
    as (Hstored & _).
  destruct (lastSync_fallback (demo_env None None) (Some EmptyString))
    as (_ & _ & Hnone & _).
  split; [reflexivity|]. split; [exact (Hstored eq_refl)|].
  split; [reflexivity|]. split; [reflexivity|].
  exact (Hnone eq_refl eq_refl).
Defined.

(** ** The HTTP entry point *)

(** X9. The [fetch] handler runs a pass only for the path [/__scheduled],
    compared exactly.  For any other path it answers 404 [Not Found] and
    performs no effect at all: it reads no store and contacts no
    platform.  For [/__scheduled] it performs exactly the effects of
    [handleSync] and answers with status 200 and the report as JSON,
    also when the report says [success = false]; it throws only what
    [handleSync] throws. *)
Theorem fetch_handler_routes :
  forall (W : Type) (RT : Runtime W) (request : HttpRequest) (env : Env)
         (w : W),
    (pathname request <> "/__scheduled" ->
       worker_fetch request env w =
         (Ok {| response_status := 404;
                response_body := BodyText "Not Found";
                response_content_type := None |}, [], w))
    /\ (pathname request = "/__scheduled" ->
        emitted (worker_fetch request env w) = emitted (handleSync env w)
        /\ world_of (worker_fetch request env w) = world_of (handleSync env w)
        /\ (forall report,
               outcome_of (handleSync env w) = Ok report ->
               outcome_of (worker_fetch request env w) =
                 Ok {| response_status := 200;
                       response_body := BodyJson report;
                       response_content_type := Some "application/json" |})
        /\ (forall e,
               outcome_of (handleSync env w) = Throw e ->
               outcome_of (worker_fetch request env w) = Throw e)).
Proof.
  intros W RT request env w. unfold worker_fetch. split.
  - intros Hne. destruct (String.eqb_spec (pathname request) "/__scheduled");
      [contradiction|reflexivity].
  - intros ->. rewrite String.eqb_refl.
    unfold bind, ret, emitted, world_of, outcome_of.
    destruct (handleSync env w) as [[[report|e] evs] w1]; cbn [fst snd].
    + rewrite app_nil_r. repeat split; [now intros r [= <-]|discriminate].
    + repeat split; [discriminate|now intros e' [= <-]].
Qed.

Lemma fetch_handler_routes_witness :
  pathname (mkHttpRequest "/__scheduled/") <> "/__scheduled"
  /\ worker_fetch (mkHttpRequest "/__scheduled/")
       (demo_env (Some "10") (Some "false")) one_each
     = (Ok {| response_status := 404;
              response_body := BodyText "Not Found";
              response_content_type := None |}, [], one_each)
  /\ pathname (mkHttpRequest "/__scheduled") = "/__scheduled"
  /\ outcome_of (worker_fetch (mkHttpRequest "/__scheduled")
                   (demo_env (Some "10") (Some "false")) platforms_down)
     = Ok {| response_status := 200;
             response_body :=
               BodyJson
                 (failure_report
                    (make_config (demo_env (Some "10") (Some "false"))
                       (Some at_10))
                    (Error "Cannot reach Mastodon instance: 503"));
             response_content_type := Some "application/json" |}.
Proof.
  assert (Hne : pathname (mkHttpRequest "/__scheduled/") <> "/__scheduled")
    by discriminate.
  destruct (fetch_handler_routes Scripted scripted_runtime
              (mkHttpRequest "/__scheduled/")
              (demo_env (Some "10") (Some "false")) one_each) as [H404 _].
  destruct (fetch_handler_routes Scripted scripted_runtime
              (mkHttpRequest "/__scheduled")
              (demo_env (Some "10") (Some "false")) platforms_down)
    as [_ H200].
  split; [exact Hne|]. split; [exact (H404 Hne)|]. split; [reflexivity|].
  destruct (H200 eq_refl) as (_ & _ & Hreport & _).
  apply Hreport. reflexivity.
Defined.

(** ** A dry run from end to end *)

Section DryRun.
Context {W : Type} {RT : Runtime W}.
Variable P : event -> Prop.
Hypothesis P_sleep : forall ms, P (EvSleep ms).

Lemma syncFromBluesky_dry_events svc w :
  this_dryRun svc = true ->
  (forall a l o, P (EvGetAuthorFeed a l o)) ->
  Forall P (emitted (syncFromBluesky svc w)).
Proof.
  intros Hd Hfeed. apply bind_events; [now apply fetch_feed_events|].
  intros feed w'. rewrite bluesky_loop_dry by assumption. constructor.
Qed.

Lemma syncFromMastodon_dry_events svc w :
  this_dryRun svc = true ->
  (forall q o, P (EvFetchTimeline q o)) ->
  Forall P (emitted (syncFromMastodon svc w)).
Proof.
  intros Hd Htl. apply bind_events; [now apply fetch_timeline_events|].
  intros tl w'. rewrite mastodon_loop_dry by assumption. constructor.
Qed.

End DryRun.

(** X10. A dry run only reads.  When [DRY_RUN] is ['true'], whatever the
    platforms and the store answer, every effect of the worker is a read
    (of the store, of the instance, of the credentials, a login, a
    listing, the clock) or a wait: it makes no publish call and puts
    nothing in the store. *)
Theorem dry_run_only_reads :
  forall (W : Type) (RT : Runtime W) (env : Env) (w : W),
    is_true (DRY_RUN env) = true ->
    forall ev, In ev (emitted (handleSync env w)) -> read_only ev = true.
Proof.
  intros W RT env w Hd. apply Forall_forall.
  destruct (kv_get "lastSync" w) as [[stored|e0] w0] eqn:Hget.
  2:{ rewrite (handleSync_store_failed env w e0 w0 Hget).
      unfold emitted. cbn [fst snd]. now constructor. }
  rewrite (handleSync_run env w stored w0 Hget).
  set (svc := constructor (make_config env stored)).
  assert (Hdry : this_dryRun svc = true).
  { unfold svc. now rewrite this_dryRun_constructor. }
  assert (Hsync : Forall (fun ev => read_only ev = true) (emitted (sync svc w0))).
  { unfold sync. rewrite try_rethrow.
    apply bind_events; [apply initialize_events; reflexivity|].
    intros _ w1. apply bind_events; [apply now_events; reflexivity|].
    intros t w2.
    apply bind_events; [apply syncFromBluesky_dry_events; auto|].
    intros b w3.
    apply bind_events; [apply syncFromMastodon_dry_events; auto|].
    intros m w4. now apply pure_events. }
  change (dryRun (make_config env stored)) with (is_true (DRY_RUN env)).
  rewrite Hd.
  destruct (sync svc w0) as [[[results|e] evs] w1];
    unfold emitted in *; cbn [fst snd] in *; now constructor.
Qed.

Lemma dry_run_only_reads_witness :
  is_true (DRY_RUN (demo_env (Some "10") (Some "true"))) = true
  /\ Forall (fun ev => read_only ev = true)
       (emitted (handleSync (demo_env (Some "10") (Some "true")) one_each))
  /\ outcome_of (handleSync (demo_env (Some "10") (Some "true")) one_each)
     = Ok (success_report
             (make_config (demo_env (Some "10") (Some "true")) None)
             (mkSyncResults at_12
                [bluesky_record
                   (constructor
                      (make_config (demo_env (Some "10") (Some "true")) None))
                   (feed_item "1" at_10 false) "DRY_RUN"]
                [mastodon_record
                   (constructor
                      (make_config (demo_env (Some "10") (Some "true")) None))
                   (toot "7" "jerdog" at_10 false) "DRY_RUN"]
                true)).
Proof.
  split; [reflexivity|]. split; [|reflexivity].
  apply Forall_forall.
  exact (dry_run_only_reads Scripted scripted_runtime
           (demo_env (Some "10") (Some "true")) one_each eq_refl).
Defined.

(** ** The order of the output and what was sent *)

Lemma Subseq_length {A} (l1 l2 : list A) :
  Subseq l1 l2 -> List.length l1 <= List.length l2.
Proof. induction 1; cbn; lia. Qed.

Lemma for_of_subseq {W X K} (body : X -> M W (option SyncedPost))
  (key : SyncedPost -> K) (kx : X -> K) :
  (forall x w p, outcome_of (body x w) = Ok (Some p) -> key p = kx x) ->
  forall xs w out,
    outcome_of (for_of body xs [] w) = Ok out ->
    Subseq (map key out) (map kx xs).
Proof.
  intros Hkey. induction xs as [|x xs IH]; intros w out.
  - cbn. intros [= <-]. constructor.
  - rewrite for_of_step. specialize (Hkey x w). run_of (body x) w.
    rewrite for_of_acc. specialize (IH w0).
    destruct (for_of body xs [] w0) as [[[out'|e] evs'] w2]; [|discriminate].
    unfold outcome_of in *. cbn [fst snd] in *. intros [= <-].
    specialize (IH out' eq_refl).
    destruct o as [[p|]|e]; simpl.
    + rewrite (Hkey p eq_refl). now constructor.
    + now constructor.
    + now constructor.
Qed.

Lemma published_posts_app l1 l2 :
  published_posts (l1 ++ l2) = published_posts l1 ++ published_posts l2.
Proof.
  induction l1 as [|e l1 IH]; simpl; [reflexivity|].
  destruct (published_post e); simpl; now rewrite IH.
Qed.

Lemma quiet_no_posts evs :
  Forall (fun e => is_publish e = false) evs -> published_posts evs = [].
Proof.
  induction 1 as [|e evs He _ IH]; [reflexivity|].
  cbn [published_posts]. destruct e; try discriminate; cbn; assumption.
Qed.

Lemma for_of_posts {W X} (body : X -> M W (option SyncedPost)) xs w out :
  (forall x w,
      published_posts (emitted (body x w)) =
        match outcome_of (body x w) with
        | Ok (Some p) => [(text p, targetId p)]
        | _ => []
        end) ->
  outcome_of (for_of body xs [] w) = Ok out ->
  map (fun r => (text r, targetId r)) out
    = published_posts (emitted (for_of body xs [] w)).
Proof.
  intros Hbody. revert w out. induction xs as [|x xs IH]; intros w out.
  - cbn. now intros [= <-].
  - rewrite for_of_step. specialize (Hbody x w). run_of (body x) w.
    rewrite for_of_acc. specialize (IH w0).
    destruct (for_of body xs [] w0) as [[[out'|e] evs'] w2]; [|discriminate].
    unfold outcome_of, emitted in *. cbn [fst snd] in *. intros [= <-].
    rewrite published_posts_app, Hbody, map_app, (IH out' eq_refl).
    now destruct o as [[p|]|e].
Qed.

Section Sent.
Context {W : Type} {RT : Runtime W}.
Variable svc : SocialSyncService.

Lemma retry_sends {A} (fn : M W A) (posts : A -> list (string * string))
  retries i left w :
  (forall w, sends (fn w) posts) ->
  sends (withRateLimit_from fn retries i left w) posts.
Proof.
  intros Hfn. revert i w. induction left as [|left IH]; intros i w.
  - reflexivity.
  - specialize (Hfn w). run_of fn w. destruct o as [a|e].
    + now rewrite (retry_ok fn _ _ _ _ _ _ _ E).
    + destruct (is_rate_limit e) eqn:Hr.
      * rewrite (retry_again fn _ _ _ _ _ _ _ E Hr).
        specialize (IH (S i) (sleep (2 ^ i * 1000) w0)).
        destruct (withRateLimit_from fn retries (S i) left _) as [[o2 evs2] w2].
        unfold sends, emitted, outcome_of in *. cbn [fst snd] in *.
        rewrite published_posts_app. cbn [published_posts published_post].
        now rewrite Hfn.
      * now rewrite (retry_other fn _ _ _ _ _ _ _ E Hr).
Qed.

Lemma publish_to_mastodon_sends text w :
  sends (publish_to_mastodon svc text w) (fun st => [(text, status_id st)]).
Proof.
  apply retry_sends. intros w'.
  unfold sends, mastodonRequest, bind, perform, throw, settle.
  destruct (fetch_status _ w') as [[r|e] w1]; [|reflexivity].
  destruct r as [okr st txt [j|e]]; destruct okr; reflexivity.
Qed.

Lemma publish_to_bluesky_sends text w :
  sends (publish_to_bluesky text w) (fun ref => [(text, ref_uri ref)]).
Proof.
  apply retry_sends. intros w'. unfold sends, bind, now, perform.
  destruct (clock w') as [t w1].
  destruct (bsky_post text t w1) as [[ref|e] w2]; reflexivity.
Qed.

Lemma bluesky_body_posts item w :
  this_dryRun svc = false ->
  published_posts (emitted (bluesky_body svc item w)) =
    match outcome_of (bluesky_body svc item w) with
    | Ok (Some p) => [(text p, targetId p)]
    | _ => []
    end.
Proof.
  intros Hd. destruct (bluesky_eligible svc item) eqn:He.
  - rewrite (bluesky_body_live _ _ _ He Hd).
    pose proof (publish_to_mastodon_sends (rec_text (record (post item))) w)
      as Hp.
    unfold sends in Hp.
    now destruct (publish_to_mastodon svc _ w) as [[[st|e] evs] w1].
  - now rewrite (bluesky_body_skip _ _ _ He).
Qed.

Lemma mastodon_body_posts p w :
  this_dryRun svc = false ->
  published_posts (emitted (mastodon_body svc p w)) =
    match outcome_of (mastodon_body svc p w) with
    | Ok (Some r) => [(text r, targetId r)]
    | _ => []
    end.
Proof.
  intros Hd. destruct (mastodon_eligible svc p) eqn:He.
  - rewrite (mastodon_body_live _ _ _ He Hd).
    pose proof (publish_to_bluesky_sends (cleanMastodonContent (content p)) w)
      as Hp.
    unfold sends in Hp.
    now destruct (publish_to_bluesky _ w) as [[[ref|e] evs] w1].
  - now rewrite (mastodon_body_skip _ _ _ He).
Qed.

End Sent.

(** X11. Each direction keeps the order of the fetched posts and records
    a post at most once: the output, read as (source id, text, timestamp),
    is the fetched list with some posts left out and the others in their
    order, the text being the post's own text on the Bluesky side and
    [cleanMastodonContent] of its content on the Mastodon side.  In
    particular the output is never longer than the fetched list. *)
Theorem output_follows_the_fetched_order :
  forall (W : Type) (RT : Runtime W) (svc : SocialSyncService) (w : W),
    (forall feed evs w1 out,
        fetch_feed svc w = (Ok feed, evs, w1) ->
        outcome_of (syncFromBluesky svc w) = Ok out ->
        Subseq (map (fun r => (sourceId r, text r, timestamp r)) out)
               (map (fun item => (uri (post item),
                                  rec_text (record (post item)),
                                  indexedAt (post item))) feed)
        /\ List.length out <= List.length feed)
    /\ (forall tl evs w1 out,
        fetch_timeline_posts svc w = (Ok tl, evs, w1) ->
        outcome_of (syncFromMastodon svc w) = Ok out ->
        Subseq (map (fun r => (sourceId r, text r, timestamp r)) out)
               (map (fun p => (id p, cleanMastodonContent (content p),
                               created_at p)) tl)
        /\ List.length out <= List.length tl).
Proof.
  intros W RT svc w. split.
  - intros feed evs w1 out E Ho.
    rewrite (syncFromBluesky_fetched _ _ _ _ _ E) in Ho.
    assert (Hl : outcome_of (for_of (bluesky_body svc) feed [] w1) = Ok out)
      by now destruct (for_of _ feed [] w1) as [[o evs'] w2].
    assert (Hsub : Subseq (map (fun r => (sourceId r, text r, timestamp r)) out)
                     (map (fun item => (uri (post item),
                                        rec_text (record (post item)),
                                        indexedAt (post item))) feed)).
    { apply (for_of_subseq (bluesky_body svc)) with (w := w1); [|exact Hl].
      intros x w' p Hp.
      destruct (bluesky_body_pushes _ _ _ _ Hp) as (_ & target & ->).
      reflexivity. }
    split; [exact Hsub|].
    apply Subseq_length in Hsub. now rewrite !length_map in Hsub.
  - intros tl evs w1 out E Ho.
    rewrite (syncFromMastodon_fetched _ _ _ _ _ E) in Ho.
    assert (Hl : outcome_of (for_of (mastodon_body svc) tl [] w1) = Ok out)
      by now destruct (for_of _ tl [] w1) as [[o evs'] w2].
    assert (Hsub : Subseq (map (fun r => (sourceId r, text r, timestamp r)) out)
                     (map (fun p => (id p, cleanMastodonContent (content p),
                                     created_at p)) tl)).
    { apply (for_of_subseq (mastodon_body svc)) with (w := w1); [|exact Hl].
      intros x w' p Hp.
      destruct (mastodon_body_pushes _ _ _ _ Hp) as (_ & target & ->).
      reflexivity. }
    split; [exact Hsub|].
    apply Subseq_length in Hsub. now rewrite !length_map in Hsub.
Qed.

Lemma output_follows_the_fetched_order_witness :
  outcome_of (fetch_feed (constructor (demo_config true false None))
                second_fails)
    = Ok [feed_item "3" at_11 false; feed_item "2" at_10 false;
          feed_item "1" at_9 false]
  /\ outcome_of (syncFromBluesky (constructor (demo_config true false None))
                   second_fails)
     = Ok [bluesky_record (constructor (demo_config true false None))
             (feed_item "3" at_11 false) "103";
           bluesky_record (constructor (demo_config true false None))
             (feed_item "1" at_9 false) "101"]
  /\ Subseq
       [("at://jerdog.dev/post/3", "post 3", at_11);
        ("at://jerdog.dev/post/1", "post 1", at_9)]
       [("at://jerdog.dev/post/3", "post 3", at_11);
        ("at://jerdog.dev/post/2", "post 2", at_10);
        ("at://jerdog.dev/post/1", "post 1", at_9)].
Proof.
  destruct (output_follows_the_fetched_order Scripted scripted_runtime
              (constructor (demo_config true false None)) second_fails)
    as [Hb _].
  split; [reflexivity|]. split; [reflexivity|].
  exact (proj1 (Hb [feed_item "3" at_11 false; feed_item "2" at_10 false;
                    feed_item "1" at_9 false] _ _
                   [bluesky_record (constructor (demo_config true false None))
                      (feed_item "3" at_11 false) "103";
                    bluesky_record (constructor (demo_config true false None))
                      (feed_item "1" at_9 false) "101"]
                   eq_refl eq_refl)).
Defined.

(** X12. In a live run what is recorded is what was sent.  In each
    direction the (text, target identifier) pairs of the output are
    exactly the texts sent by the successful publish calls with the
    identifiers they returned, in order: every record stands for one
    accepted publication of its text, and no accepted publication goes
    unrecorded. *)
Theorem records_match_publications :
  forall (W : Type) (RT : Runtime W) (cfg : SyncConfig) (w : W),
    dryRun cfg = false ->
    (forall out,
        outcome_of (syncFromBluesky (constructor cfg) w) = Ok out ->
        map (fun r => (text r, targetId r)) out
          = published_posts (emitted (syncFromBluesky (constructor cfg) w)))
    /\ (forall out,
        outcome_of (syncFromMastodon (constructor cfg) w) = Ok out ->
        map (fun r => (text r, targetId r)) out
          = published_posts (emitted (syncFromMastodon (constructor cfg) w))).
Proof.
  intros W RT cfg w Hd. set (svc := constructor cfg).
  assert (Hlive : this_dryRun svc = false).
  { unfold svc. now rewrite this_dryRun_constructor. }
  split.
  - intros out Ho.
    destruct (syncFromBluesky_inv _ _ _ Ho) as (feed & evs & w1 & E & Hl).
    rewrite (syncFromBluesky_fetched _ _ _ _ _ E).
    pose proof (for_of_posts (bluesky_body svc) feed w1 out
                  (fun x w' => bluesky_body_posts svc x w' Hlive) Hl) as Hp.
    pose proof (fetch_feed_quiet svc w) as Hq. rewrite E in Hq.
    destruct (for_of _ feed [] w1) as [[o evs'] w2].
    unfold emitted in *. cbn [fst snd] in *.
    now rewrite published_posts_app, (quiet_no_posts _ Hq).
  - intros out Ho.
    destruct (syncFromMastodon_inv _ _ _ Ho) as (tl & evs & w1 & E & Hl).
    rewrite (syncFromMastodon_fetched _ _ _ _ _ E).
    pose proof (for_of_posts (mastodon_body svc) tl w1 out
                  (fun x w' => mastodon_body_posts svc x w' Hlive) Hl) as Hp.
    pose proof (fetch_timeline_quiet svc w) as Hq. rewrite E in Hq.
    destruct (for_of _ tl [] w1) as [[o evs'] w2].
    unfold emitted in *. cbn [fst snd] in *.
    now rewrite published_posts_app, (quiet_no_posts _ Hq).
Qed.

Lemma records_match_publications_witness :
  dryRun (demo_config true false None) = false
  /\ published_posts
       (emitted (syncFromMastodon (constructor (demo_config true false None))
                   second_fails))
     = [("toot 9", "at://jerdog.dev/post/9");
        ("toot 7", "at://jerdog.dev/post/7")].
Proof.
  split; [reflexivity|].
  destruct (records_match_publications Scripted scripted_runtime
              (demo_config true false None) second_fails eq_refl) as [_ Hm].
  rewrite <- (Hm [mastodon_record (constructor (demo_config true false None))
                    (toot "9" "jerdog" at_11 false) "at://jerdog.dev/post/9";
                  mastodon_record (constructor (demo_config true false None))
                    (toot "7" "jerdog" at_9 false) "at://jerdog.dev/post/7"]
                 eq_refl).
  reflexivity.
Defined.

(** ** The requests that create statuses *)

Section StatusRequests.
Context {W : Type} {RT : Runtime W}.
Variable svc : SocialSyncService.

Lemma publish_to_mastodon_well_formed text w :
  Forall (well_formed_status_request (config svc))
    (emitted (publish_to_mastodon svc text w)).
Proof.
  apply withRateLimit_events; [|intros ms; exact I].
  intros w'. unfold mastodonRequest. apply bind_events.
  - apply perform_events. intros o. cbn. repeat split. now exists text.
  - intros r w''. destruct (negb (ok r)); now apply pure_events.
Qed.

Lemma bluesky_body_well_formed item w :
  Forall (well_formed_status_request (config svc))
    (emitted (bluesky_body svc item w)).
Proof.
  unfold bluesky_body.
  destruct (older_than_lastSync svc _); [now apply pure_events|].
  destruct (this_ignoreReposts svc && _); [now apply pure_events|].
  apply bind_events; [|intros; now apply pure_events].
  destruct (negb (this_dryRun svc)); [|now apply pure_events].
  apply bind_events; [apply publish_to_mastodon_well_formed|].
  intros; now apply pure_events.
Qed.

End StatusRequests.

(** X13. Every status that a pass creates on Mastodon is created the
    same way: each status request that [sync] makes, retries included,
    is a [POST] to [/api/v1/statuses] of the configured instance, with the
    configured access token, no [limit], and a body whose visibility is
    [public]. *)
Theorem statuses_are_posted_public :
  forall (W : Type) (RT : Runtime W) (svc : SocialSyncService) (w : W),
    Forall (well_formed_status_request (config svc)) (emitted (sync svc w)).
Proof.
  intros W RT svc w. unfold sync. rewrite try_rethrow.
  apply bind_events; [apply initialize_events; intros; exact I|].
  intros _ w1. apply bind_events; [apply now_events; intros; exact I|].
  intros t w2. apply bind_events.
  - apply bind_events.
    + apply fetch_feed_events; intros; exact I.
    + intros feed w3. apply for_of_events. intros item w4.
      apply bluesky_body_well_formed.
  - intros b w3. apply bind_events.
    + apply syncFromMastodon_events; intros; exact I.
    + intros m w4. now apply pure_events.
Qed.

(** ** What [cleanMastodonContent] returns *)

Lemma Kept_refl s : Kept s s.
Proof. induction s; constructor; assumption. Qed.

Lemma Kept_has_char c t s :
  Kept t s -> has_char c t = true -> has_char c s = true.
Proof.
  induction 1 as [|d t s HK IH|d t s HK IH]; cbn [has_char]; intros H.
  - discriminate.
  - rewrite (IH H). apply orb_true_r.
  - apply orb_true_iff in H. destruct H as [H|H]; [now rewrite H|].
    rewrite (IH H). apply orb_true_r.
Qed.

Lemma Kept_has_tag t s : Kept t s -> has_tag t = true -> has_tag s = true.
Proof.
  induction 1 as [|d t s HK IH|d t s HK IH]; cbn [has_tag]; intros H.
  - discriminate.
  - rewrite (IH H). apply orb_true_r.
  - apply orb_true_iff in H. destruct H as [H|H].
    + apply andb_true_iff in H. destruct H as [Hc Hg].
      now rewrite Hc, (Kept_has_char _ _ _ HK Hg).
    + rewrite (IH H). apply orb_true_r.
Qed.

(** Replacing matches by the empty string only removes characters. *)
Lemma deletion_Kept ci r s : forall k,
  Kept (replace_from ci r (fun _ => EmptyString) s k) s.
Proof.
  induction s as [|c s IH]; intros k; cbn [replace_from].
  - destruct k; [destruct (mtch ci r EmptyString) as [|[[? ?] ?] ?]|];
      constructor.
  - destruct k as [|k]; [|apply kept_drop, IH].
    destruct (mtch ci r (String c s)) as [|[[a rest] k'] l];
      [apply kept_keep, IH|].
    destruct (String.length a); cbn [append];
      [apply kept_keep|apply kept_drop]; apply IH.
Qed.

Lemma squeeze_Kept s : forall k, Kept (squeeze_newlines k s) s.
Proof.
  induction s as [|c s IH]; intros k; cbn [squeeze_newlines]; [constructor|].
  destruct (Ascii.eqb c nl); [destruct (Nat.ltb k 2)|];
    [apply kept_keep|apply kept_drop|apply kept_keep]; apply IH.
Qed.

Lemma trimStart_Kept s : Kept (trimStart s) s.
Proof.
  induction s as [|c s IH]; cbn [trimStart]; [constructor|].
  destruct (is_ws c); [now apply kept_drop|apply Kept_refl].
Qed.

Lemma trimEnd_Kept s : Kept (trimEnd s) s.
Proof.
  induction s as [|c s IH]; cbn [trimEnd]; [constructor|].
  destruct (trimEnd s) as [|d t].
  - destruct (is_ws c); [now apply kept_drop|now apply kept_keep].
  - now apply kept_keep.
Qed.

(** Where a [>] follows, the tag rule matches at a [<]. *)
Lemma star_reaches_gt g s :
  has_char gt s = true ->
  exists a b, In (a, String gt b) (star_splits g (not_char gt) s).
Proof.
  induction s as [|c s IH]; cbn [has_char]; [discriminate|].
  intros H. cbn [star_splits].
  change (not_char gt c) with (negb (Ascii.eqb gt c)).
  destruct (Ascii.eqb gt c) eqn:Hc.
  - apply Ascii.eqb_eq in Hc. subst c. cbn [negb].
    exists EmptyString, s. now left.
  - cbn [negb orb] in *. destruct (IH H) as (a & b & Hin).
    exists (String c a), b.
    assert (Hmore : In (String c a, String gt b)
                      (map (fun ab => (String c (fst ab), snd ab))
                           (star_splits g (not_char gt) s))).
    { apply in_map_iff. now exists (a, String gt b). }
    destruct g; [apply in_or_app; now left|now right].
Qed.

Lemma tag_found s :
  has_char gt s = true -> mtch false re_tag (String lt s) <> [].
Proof.
  intros H. destruct (star_reaches_gt true s H) as (a & b & Hin).
  unfold re_tag. cbn [seqs]. rewrite mtch_char_hit.
  intros Hnil. apply map_eq_nil in Hnil.
  assert (Hm : In ((a ++ String gt EmptyString)%string, b, @nil (nat * string))
                 (mtch false (Seq (Star true (not_char gt)) (Chr gt)) s)).
  { cbn [mtch]. apply in_flat_map. exists (a, String gt b, []). split.
    - apply in_map_iff. now exists (a, String gt b).
    - cbn [char_eq]. rewrite Ascii.eqb_refl. now left. }
  rewrite Hnil in Hm. destruct Hm.
Qed.

(** After the tag rule no tag is left. *)
Lemma tags_are_stripped : forall s k,
  has_tag (replace_from false re_tag (fun _ => EmptyString) s k) = false.
Proof.
  induction s as [|c s IH]; intros k; cbn [replace_from].
  - destruct k; reflexivity.
  - destruct k as [|k]; [|apply IH].
    destruct (mtch false re_tag (String c s)) as [|[[a rest] k'] l] eqn:Hm.
    + cbn [has_tag]. rewrite IH, orb_false_r.
      destruct (Ascii.eqb c lt) eqn:Hc; [|reflexivity].
      apply Ascii.eqb_eq in Hc. subst c. cbn [andb].
      destruct (has_char gt (replace_from false re_tag (fun _ => EmptyString) s 0))
        eqn:Hg; [|reflexivity].
      apply (Kept_has_char _ _ _ (deletion_Kept _ _ _ _)) in Hg.
      exfalso. exact (tag_found _ Hg Hm).
    + assert (Hin : In (a, rest, k') (mtch false re_tag (String c s)))
        by (rewrite Hm; now left).
      unfold re_tag in Hin. cbn [seqs] in Hin. apply mtch_after_char in Hin.
      destruct Hin as (d & s' & b & _ & _ & -> & _).
      cbn [String.length append]. apply IH.
Qed.

Lemma last_rules_no_tag t : has_tag (last_rules t) = false.
Proof.
  unfold last_rules, trim.
  match goal with |- ?x = false => destruct x eqn:H; [|reflexivity] end.
  apply (Kept_has_tag _ _ (trimEnd_Kept _)) in H.
  apply (Kept_has_tag _ _ (trimStart_Kept _)) in H.
  apply (Kept_has_tag _ _ (squeeze_Kept _ _)) in H.
  unfold replace_all in H. rewrite tags_are_stripped in H. discriminate.
Qed.

(** Runs of newlines after [squeeze_newlines]. *)
Lemma no_newline_ahead_starts t :
  no_newline_ahead t = true -> starts_with (String nl EmptyString) t = false.
Proof.
  destruct t as [|c t]; cbn [no_newline_ahead starts_with]; [reflexivity|].
  intros H. apply negb_true_iff in H. now rewrite H.
Qed.

Lemma starts_with_cons a p b s :
  starts_with (String a p) (String b s) = Ascii.eqb a b && starts_with p s.
Proof. reflexivity. Qed.

Lemma squeeze_runs s : forall k,
  has_blank_run (squeeze_newlines k s) = false
  /\ (2 <= k -> no_newline_ahead (squeeze_newlines k s) = true)
  /\ (1 <= k ->
      starts_with (String nl (String nl EmptyString)) (squeeze_newlines k s)
        = false)
  /\ starts_with (String nl (String nl (String nl EmptyString)))
       (squeeze_newlines k s) = false.
Proof.
  induction s as [|c s IH]; intros k; cbn [squeeze_newlines].
  - now repeat split.
  - destruct (Ascii.eqb c nl) eqn:Hc.
    + apply Ascii.eqb_eq in Hc. subst c.
      destruct (Nat.ltb k 2) eqn:Hk; [|exact (IH k)].
      apply Nat.ltb_lt in Hk. destruct (IH (S k)) as (B & N & S2 & S3).
      cbn [has_blank_run no_newline_ahead].
      rewrite !starts_with_cons, !Ascii.eqb_refl. cbn [andb negb].
      repeat split.
      * rewrite B, S2 by lia. reflexivity.
      * intros Hk2. lia.
      * intros Hk1. apply no_newline_ahead_starts, N. lia.
      * apply S2. lia.
    + destruct (IH 0) as (B & _ & _ & _).
      cbn [has_blank_run no_newline_ahead].
      rewrite !starts_with_cons, (Ascii.eqb_sym nl c), Hc, B. now repeat split.
Qed.

Lemma starts_with_append p : forall a r,
  starts_with p a = true -> starts_with p (a ++ r)%string = true.
Proof.
  induction p as [|x p IH]; intros a r; cbn [starts_with]; [reflexivity|].
  destruct a as [|y a]; [discriminate|]. cbn [append]. intros H.
  apply andb_true_iff in H. destruct H as [H1 H2].
  now rewrite H1, (IH _ r H2).
Qed.

Lemma blank_run_in_prefix a r :
  has_blank_run a = true -> has_blank_run (a ++ r)%string = true.
Proof.
  induction a as [|c a IH]; [discriminate|].
  cbn [has_blank_run append]. intros H.
  apply orb_true_iff in H. destruct H as [H|H].
  - pose proof (starts_with_append _ _ r H) as H'. cbn [append] in H'.
    now rewrite H'.
  - rewrite (IH H). apply orb_true_r.
Qed.

Lemma blank_run_in_suffix l b :
  has_blank_run b = true -> has_blank_run (l ++ b)%string = true.
Proof.
  induction l as [|c l IH]; cbn [append has_blank_run]; [trivial|].
  intros H. rewrite (IH H). apply orb_true_r.
Qed.

Lemma trimEnd_prefix s : exists r, s = (trimEnd s ++ r)%string.
Proof.
  induction s as [|c s [r IH]]; [now exists EmptyString|].
  cbn [trimEnd]. destruct (trimEnd s) as [|d t].
  - cbn [append] in IH. subst r.
    destruct (is_ws c); [now exists (String c s)|now exists s].
  - exists r. cbn [append] in *. now rewrite IH at 1.
Qed.

Lemma trimStart_suffix s : exists l, s = (l ++ trimStart s)%string.
Proof.
  induction s as [|c s [l IH]]; [now exists EmptyString|].
  cbn [trimStart]. destruct (is_ws c).
  - exists (String c l). cbn [append]. now rewrite IH at 1.
  - now exists EmptyString.
Qed.

Lemma trim_no_blank_run s :
  has_blank_run s = false -> has_blank_run (trim s) = false.
Proof.
  intros Hs. unfold trim.
  destruct (has_blank_run (trimEnd (trimStart s))) eqn:H; [|reflexivity].
  destruct (trimEnd_prefix (trimStart s)) as [r Er].
  destruct (trimStart_suffix s) as [l El].
  apply (blank_run_in_prefix _ r) in H. rewrite <- Er in H.
  apply (blank_run_in_suffix l) in H. rewrite <- El in H. congruence.
Qed.

Lemma last_rules_no_blank_run t : has_blank_run (last_rules t) = false.
Proof. unfold last_rules. apply trim_no_blank_run, squeeze_runs. Qed.

(** [trim] does nothing to a trimmed string. *)
Lemma trimStart_no_space_ahead s : no_space_ahead (trimStart s) = true.
Proof.
  induction s as [|c s IH]; cbn [trimStart]; [reflexivity|].
  destruct (is_ws c) eqn:E; [exact IH|]. cbn [no_space_ahead]. now rewrite E.
Qed.

Lemma trimStart_fixed t : no_space_ahead t = true -> trimStart t = t.
Proof.
  destruct t as [|c t]; cbn [no_space_ahead trimStart]; [reflexivity|].
  intros H. apply negb_true_iff in H. now rewrite H.
Qed.

Lemma trimEnd_no_space_ahead t :
  no_space_ahead t = true -> no_space_ahead (trimEnd t) = true.
Proof.
  destruct t as [|c t]; [reflexivity|]. cbn [no_space_ahead trimEnd].
  intros H. destruct (trimEnd t); [|exact H].
  apply negb_true_iff in H as H'. rewrite H'. exact H.
Qed.

Lemma trimEnd_cons c s :
  trimEnd (String c s) =
    match trimEnd s with
    | EmptyString => if is_ws c then EmptyString else String c EmptyString
    | t => String c t
    end.
Proof. reflexivity. Qed.

Lemma trimEnd_fixed s : trimEnd (trimEnd s) = trimEnd s.
Proof.
  induction s as [|c s IH]; [reflexivity|]. rewrite (trimEnd_cons c s).
  destruct (trimEnd s) as [|d t].
  - destruct (is_ws c) eqn:Hc; [reflexivity|].
    rewrite trimEnd_cons. cbn [trimEnd]. now rewrite Hc.
  - rewrite trimEnd_cons, IH. reflexivity.
Qed.

Lemma trim_fixed s : trim (trim s) = trim s.
Proof.
  unfold trim.
  rewrite (trimStart_fixed (trimEnd (trimStart s)))
    by apply trimEnd_no_space_ahead, trimStart_no_space_ahead.
  apply trimEnd_fixed.
Qed.

Lemma last_rules_trimmed t : trim (last_rules t) = last_rules t.
Proof. unfold last_rules. apply trim_fixed. Qed.

Lemma clean_last_rules s : exists t, cleanMastodonContent s = last_rules t.
Proof.
  unfold cleanMastodonContent, last_rules. eexists.
  rewrite newline_rule_squeezes. reflexivity.
Qed.

(** On a text without tags and without a run of three newlines the five
    rules change nothing: only the trimming is left. *)
Lemma clean_of_plain t :
  has_tag t = false -> has_blank_run t = false ->
  cleanMastodonContent t = trim t.
Proof.
  intros Ht Hr. unfold cleanMastodonContent.
  rewrite (replace_without_tag true re_br _ t eq_refl Ht).
  rewrite (replace_without_tag true re_p _ t eq_refl Ht).
  rewrite (replace_without_tag true re_a _ t eq_refl Ht).
  rewrite (replace_without_tag false re_tag _ t eq_refl Ht).
  now rewrite replace_without_blank_run.
Qed.

(** X14. Whatever the HTML, the text that [cleanMastodonContent] returns
    contains no markup tag: no [<] with a [>] anywhere after it.  (The
    tag rule removes every tag, and the two steps after it only remove
    characters.) *)
Theorem cleaned_text_has_no_tag :
  forall html : string, has_tag (cleanMastodonContent html) = false.
Proof.
  intros html. destruct (clean_last_rules html) as [t ->].
  apply last_rules_no_tag.
Qed.

(** X15. Whatever the HTML, the text that [cleanMastodonContent] returns
    has no run of three newlines and is trimmed: it neither starts nor ends
    with white space, so trimming it again changes nothing. *)
Theorem cleaned_text_is_normalised :
  forall html : string,
    has_blank_run (cleanMastodonContent html) = false
    /\ no_space_ahead (cleanMastodonContent html) = true
    /\ trim (cleanMastodonContent html) = cleanMastodonContent html.
Proof.
  intros html. destruct (clean_last_rules html) as [t ->]. repeat split.
  - apply last_rules_no_blank_run.
  - unfold last_rules, trim.
    apply trimEnd_no_space_ahead, trimStart_no_space_ahead.
  - apply last_rules_trimmed.
Qed.

(** X16. [cleanMastodonContent] is idempotent: cleaning a text that was
    already cleaned returns it unchanged. *)
Theorem cleaning_is_idempotent :
  forall html : string,
    cleanMastodonContent (cleanMastodonContent html)
      = cleanMastodonContent html.
Proof.
  intros html. destruct (clean_last_rules html) as [t ->].
  rewrite (clean_of_plain _ (last_rules_no_tag t) (last_rules_no_blank_run t)).
  apply last_rules_trimmed.
Qed.

(** ** What is sent to Bluesky *)

Lemma clean_cleaned html : cleaned (cleanMastodonContent html).
Proof.
  destruct (clean_last_rules html) as [t ->]. repeat split.
  - apply last_rules_no_tag.
  - apply last_rules_no_blank_run.
  - apply last_rules_trimmed.
Qed.

Section ToBluesky.
Context {W : Type} {RT : Runtime W}.
Variable svc : SocialSyncService.

Lemma publish_to_bluesky_cleaned html w :
  Forall posts_cleaned_text
    (emitted (publish_to_bluesky (cleanMastodonContent html) w)).
Proof.
  apply withRateLimit_events; [|intros ms; exact I].
  intros w'. apply bind_events; [apply now_events; intros; exact I|].
  intros t w''. apply perform_events. intros o. apply clean_cleaned.
Qed.

Lemma mastodon_body_cleaned p w :
  Forall posts_cleaned_text (emitted (mastodon_body svc p w)).
Proof.
  unfold mastodon_body.
  destruct (older_than_lastSync svc _); [now apply pure_events|].
  destruct (this_ignoreReposts svc && _); [now apply pure_events|].
  destruct (negb (String.eqb _ _)); [now apply pure_events|].
  apply bind_events; [|intros; now apply pure_events].
  destruct (negb (this_dryRun svc)); [|now apply pure_events].
  apply bind_events; [apply publish_to_bluesky_cleaned|].
  intros; now apply pure_events.
Qed.

Lemma syncFromMastodon_cleaned_records w out :
  outcome_of (syncFromMastodon svc w) = Ok out ->
  Forall (fun r => cleaned (text r)) out.
Proof.
  intros Ho. apply syncFromMastodon_inv in Ho.
  destruct Ho as (tl & evs & w1 & _ & Ho).
  apply Forall_forall. intros r Hr.
  destruct (for_of_records (mastodon_body svc)
              (fun _ r => cleaned (text r)) tl [] w1 out) with (r := r)
    as [[]|(p & _ & Hp)]; try assumption.
  intros x w' q Hq. apply mastodon_body_pushes in Hq.
  destruct Hq as (_ & target & ->). apply clean_cleaned.
Qed.

End ToBluesky.

(** X17. Bluesky only ever receives cleaned text.  In a whole pass, every
    call of [bsky.post], retries included, is given a text without markup
    tags, without a run of three newlines and with nothing to trim; and
    when the pass returns, the text of every record of
    [mastodonToBluesky] is such a text. *)
Theorem bluesky_receives_cleaned_text :
  forall (W : Type) (RT : Runtime W) (svc : SocialSyncService) (w : W),
    Forall posts_cleaned_text (emitted (sync svc w))
    /\ match outcome_of (sync svc w) with
       | Ok results =>
           Forall (fun r => cleaned (text r)) (mastodonToBluesky results)
       | Throw _ => True
       end.
Proof.
  intros W RT svc w. split.
  - unfold sync. rewrite try_rethrow.
    apply bind_events; [apply initialize_events; intros; exact I|].
    intros _ w1. apply bind_events; [apply now_events; intros; exact I|].
    intros t w2. apply bind_events.
    + apply syncFromBluesky_events; intros; exact I.
    + intros b w3. apply bind_events; [|intros; now apply pure_events].
      apply bind_events.
      * apply fetch_timeline_events; intros; exact I.
      * intros tl w4. apply for_of_events. intros p w5.
        apply mastodon_body_cleaned.
  - destruct (outcome_of (sync svc w)) as [results|e] eqn:Ho; [|exact I].
    unfold sync in Ho. rewrite try_rethrow in Ho.
    apply bind_inv in Ho. destruct Ho as (_ & _ & w1 & _ & Ho & _).
    apply bind_inv in Ho. destruct Ho as (t & _ & w2 & _ & Ho & _).
    apply bind_inv in Ho. destruct Ho as (b & _ & w3 & _ & Ho & _).
    apply bind_inv in Ho. destruct Ho as (m & evs & w4 & Hm & Ho & _).
    injection Ho as <-. cbn [mastodonToBluesky].
    apply (syncFromMastodon_cleaned_records svc w3).
    now rewrite Hm.
Qed.

(** ** The requests of a pass and the environment *)

Section Requests.
Context {W : Type} {RT : Runtime W}.
Variable cfg : SyncConfig.

Lemma initialize_built w :
  Forall (built_from cfg) (emitted (initialize (constructor cfg) w)).
Proof.
  unfold initialize. apply bind_events.
  - rewrite try_rethrow. apply bind_events.
    + apply perform_events. intros o. reflexivity.
    + intros r w1. apply bind_events.
      * destruct (negb (ok r)); now apply pure_events.
      * intros _ w2. apply bind_events; [now apply pure_events|].
        intros _ w3. apply bind_events; [|intros; now apply pure_events].
        unfold mastodonRequest. apply bind_events.
        -- apply perform_events. intros o. reflexivity.
        -- intros r' w4. destruct (negb (ok r')); now apply pure_events.
  - intros _ w1. rewrite try_rethrow. apply perform_events. intros o.
    now split.
Qed.

Lemma sync_built w :
  Forall (built_from cfg) (emitted (sync (constructor cfg) w)).
Proof.
  unfold sync. rewrite try_rethrow.
  apply bind_events; [apply initialize_built|].
  intros _ w1. apply bind_events; [apply now_events; intros; exact I|].
  intros t w2. apply bind_events.
  - apply bind_events.
    + apply withRateLimit_events; [|intros ms; exact I].
      intros w'. apply perform_events. intros o. now split.
    + intros feed w3. apply for_of_events. intros item w4.
      apply bluesky_body_events; intros; exact I.
  - intros b w3. apply bind_events; [|intros; now apply pure_events].
    apply bind_events.
    + apply withRateLimit_events; [|intros ms; exact I].
      intros w'. unfold mastodonRequest. apply bind_events.
      * apply perform_events. intros o. reflexivity.
      * intros r w4. destruct (negb (ok r)); now apply pure_events.
    + intros tl w4. apply for_of_events. intros p w5.
      apply mastodon_body_events; intros; exact I.
Qed.

End Requests.

Lemma built_from_any_store env stored e :
  built_from (make_config env stored) e -> built_from (make_config env None) e.
Proof. destruct e; exact (fun H => H). Qed.

(** Computations that agree pointwise. *)

Lemma bind_ext {W A B} (m m' : M W A) (k k' : A -> M W B) w :
  (forall w, m w = m' w) -> (forall a w, k a w = k' a w) ->
  bind m k w = bind m' k' w.
Proof.
  intros Hm Hk. unfold bind. rewrite Hm.
  destruct (m' w) as [[[a|e] evs] w1]; [|reflexivity]. now rewrite Hk.
Qed.

Lemma for_of_ext {W X} (body body' : X -> M W (option SyncedPost)) :
  (forall x w, body x w = body' x w) ->
  forall xs acc w, for_of body xs acc w = for_of body' xs acc w.
Proof.
  intros Hbody. induction xs as [|x xs IH]; intros acc w; [reflexivity|].
  rewrite !for_of_step, Hbody. destruct (body' x w) as [[o evs] w1].
  now rewrite IH.
Qed.

(** Runs that differ only in the [params] of their requests. *)

Lemma alike_refl {W A} (r : Outcome A * list event * W) : alike r r.
Proof. now repeat split. Qed.

Section Params.
Context {W : Type} {RT : Runtime W}.
Hypothesis no_params_read : fetch_reads_no_params RT.

Lemma timeline_request_alike svc svc' limit limit' w :
  config svc = config svc' ->
  alike
    (mastodonRequest svc fetch_timeline EvFetchTimeline
       "/api/v1/timelines/home" None None limit w)
    (mastodonRequest svc' fetch_timeline EvFetchTimeline
       "/api/v1/timelines/home" None None limit' w).
Proof.
  intros Hcfg. unfold mastodonRequest, bind, perform. rewrite <- Hcfg.
  rewrite (no_params_read (mkRequest _ _ _ _ _ limit)).
  rewrite (no_params_read (mkRequest _ _ _ _ _ limit')).
  cbn [no_params req_base req_endpoint req_token req_method req_body].
  destruct (fetch_timeline _ w) as [[r|e] w1].
  - destruct (negb (ok r)); now repeat split.
  - now repeat split.
Qed.

Lemma retry_alike {A} (fn fn' : M W A) retries :
  (forall w, alike (fn w) (fn' w)) ->
  forall left i w,
    alike (withRateLimit_from fn retries i left w)
          (withRateLimit_from fn' retries i left w).
Proof.
  intros Hfn. induction left as [|left IH]; intros i w; [apply alike_refl|].
  cbn [withRateLimit_from]. unfold try_catch.
  destruct (Hfn w) as (Ho & Hw & He).
  destruct (fn w) as [[o evs] w1], (fn' w) as [[o' evs'] w1'].
  unfold outcome_of, world_of, emitted in Ho, Hw, He. cbn [fst snd] in *.
  subst o' w1'. destruct o as [a|e]; [now repeat split|].
  destruct (is_rate_limit e).
  - unfold bind, delay. destruct (IH (S i) (sleep (2 ^ i * 1000) w1))
      as (Ho & Hw & He').
    destruct (withRateLimit_from fn _ _ _ _) as [[o2 evs2] w2],
             (withRateLimit_from fn' _ _ _ _) as [[o2' evs2'] w2'].
    unfold alike, outcome_of, world_of, emitted in *. cbn [fst snd app] in *.
    subst o2' w2'. repeat split.
    rewrite !map_app. cbn [map forget_params]. now rewrite He, He'.
  - unfold throw, alike, outcome_of, world_of, emitted. cbn [fst snd].
    repeat split. rewrite !map_app. now rewrite He.
Qed.

Lemma syncFromMastodon_any_limit svc n w :
  alike (syncFromMastodon (with_postsToSync svc n) w) (syncFromMastodon svc w).
Proof.
  unfold syncFromMastodon, fetch_timeline_posts, withRateLimit.
  pose proof (retry_alike _ _ default_retries
                (fun w' =>
                   timeline_request_alike (with_postsToSync svc n) svc
                     (Some (this_postsToSync (with_postsToSync svc n)))
                     (Some (this_postsToSync svc)) w' eq_refl)
                default_retries 0 w) as (Ho & Hw & He).
  unfold bind.
  destruct (withRateLimit_from _ _ _ _ w) as [[o evs] w1],
           (withRateLimit_from _ _ _ _ w) as [[o' evs'] w1'].
  unfold outcome_of, world_of, emitted in Ho, Hw, He. cbn [fst snd] in *.
  subst o' w1'. destruct o as [tl|e]; [|now repeat split].
  rewrite (for_of_ext (mastodon_body (with_postsToSync svc n))
             (mastodon_body svc) (fun _ _ => eq_refl)).
  destruct (for_of (mastodon_body svc) tl [] w1) as [[o2 evs2] w2].
  unfold alike, outcome_of, world_of, emitted. cbn [fst snd].
  repeat split. rewrite !map_app. now rewrite He.
Qed.

End Params.

(** X18. Every read, login and store access of a run of the worker is
    built from the environment, whatever the store and the platforms
    answer: the instance is probed at [MASTODON_URL]; the credential check
    and the home-timeline request are made for their endpoint on that
    instance, with no query string, with [MASTODON_ACCESS_TOKEN] and
    without method or body; the Bluesky login uses [BLUESKY_USERNAME] and
    [BLUESKY_PASSWORD]; the author feed is asked for [BLUESKY_USERNAME]
    with the limit [parseInt(POSTS_TO_SYNC) || 10]; and the store is only
    read and written under the key [lastSync].  On the Mastodon side
    that limit is not part of the request: it is handed to [fetch] as
    [options.params.limit] only.  With a platform that answers from what
    [fetch] sends, the Mastodon direction is therefore the same whatever
    [postsToSync] is: same outcome, same world afterwards, same effects
    up to that option. *)
Theorem requests_are_built_from_the_environment :
  forall (W : Type) (RT : Runtime W) (env : Env) (w : W),
    Forall (built_from (make_config env None)) (emitted (handleSync env w))
    /\ (fetch_reads_no_params RT ->
        forall (svc : SocialSyncService) (n : Z) (w' : W),
          alike (syncFromMastodon (with_postsToSync svc n) w')
                (syncFromMastodon svc w')).
Proof.
  intros W RT env w. split.
  - unfold handleSync. apply bind_events.
    + apply perform_events. intros o. reflexivity.
    + intros stored w1.
      apply try_catch_events; [|intros; now apply pure_events].
      apply bind_events.
      * eapply Forall_impl; [|apply sync_built].
        intros e. apply built_from_any_store.
      * intros results w2.
        apply bind_events; [|intros; now apply pure_events].
        destruct (negb (dryRun (make_config env stored)));
          [|now apply pure_events].
        apply perform_events. intros o. reflexivity.
  - intros Hread svc n w'. now apply syncFromMastodon_any_limit.
Qed.

Lemma requests_are_built_from_the_environment_witness :
  fetch_reads_no_params scripted_runtime
  /\ this_postsToSync
       (with_postsToSync (constructor (demo_config true false None)) 1) = 1%Z
  /\ this_postsToSync (constructor (demo_config true false None)) = 10%Z
  /\ alike
       (syncFromMastodon
          (with_postsToSync (constructor (demo_config true false None)) 1)
          one_each)
       (syncFromMastodon (constructor (demo_config true false None)) one_each).
Proof.
  assert (Hread : fetch_reads_no_params scripted_runtime)
    by (intros q w; reflexivity).
  split; [exact Hread|]. split; [reflexivity|]. split; [reflexivity|].
  exact (proj2 (requests_are_built_from_the_environment Scripted
                  scripted_runtime (demo_env None None) one_each)
           Hread (constructor (demo_config true false None)) 1%Z one_each).
Defined.

(** ** [POSTS_TO_SYNC] written in decimal *)

Lemma parse_digits_uint u : forall a,
  parse_digits 10 (NilEmpty.string_of_uint u) (Z.of_nat a) true
    = Some (Z.of_nat (Nat.of_uint_acc u a)).
Proof.
  induction u as [|u IH|u IH|u IH|u IH|u IH|u IH|u IH|u IH|u IH|u IH];
    intros a; cbn [NilEmpty.string_of_uint Nat.of_uint_acc parse_digits];
    [reflexivity|..];
    match goal with
    | |- context [digit_value 10 ?c] =>
        let v := eval vm_compute in (digit_value 10 c) in
        change (digit_value 10 c) with v
    end;
    cbv iota; rewrite <- IH; f_equal; rewrite Nat.tail_mul_spec; lia.
Qed.

Lemma parse_digits_first u :
  u <> Nil ->
  parse_digits 10 (NilEmpty.string_of_uint u) 0 false
    = Some (Z.of_nat (Nat.of_uint u)).
Proof.
  intros Hu. unfold Nat.of_uint.
  rewrite <- (parse_digits_uint u 0).
  destruct u; [now destruct Hu|..]; reflexivity.
Qed.

Lemma to_uint_nonnil n : Nat.to_uint n <> Nil.
Proof.
  rewrite <- (DecimalNat.Unsigned.of_to n) at 1.
  rewrite DecimalNat.Unsigned.to_of. apply DecimalFacts.unorm_nonnil.
Qed.

Lemma digit_not_hex_mark c :
  is_digit c = true -> Ascii.eqb c "x" || Ascii.eqb c "X" = false.
Proof.
  destruct c as [[] [] [] [] [] [] [] []]; intros H;
    try discriminate H; reflexivity.
Qed.

Lemma digits_no_hex_prefix s :
  all_chars is_digit s = true -> strip_hex_prefix s = None.
Proof.
  destruct s as [|c [|x s]]; [reflexivity| |].
  - intros _. destruct c as [[] [] [] [] [] [] [] []]; reflexivity.
  - cbn [all_chars]. intros H.
    apply andb_true_iff in H. destruct H as [_ H].
    apply andb_true_iff in H. destruct H as [Hx _].
    apply digit_not_hex_mark in Hx.
    destruct c as [[] [] [] [] [] [] [] []]; try reflexivity.
    cbn [strip_hex_prefix]. now rewrite Hx.
Qed.

Lemma parseInt_after_digit c s :
  is_digit c = true ->
  parseInt (Some (String c s)) = parse_unsigned (String c s).
Proof.
  destruct c as [[] [] [] [] [] [] [] []]; intros H;
    try discriminate H; reflexivity.
Qed.

Lemma parseInt_show_nat n : parseInt (Some (show_nat n)) = Some (Z.of_nat n).
Proof.
  pose proof (show_nat_digits n) as Hd. pose proof (to_uint_nonnil n) as Hn.
  assert (Hp : parse_unsigned (show_nat n) = Some (Z.of_nat n)).
  { unfold parse_unsigned. rewrite (digits_no_hex_prefix _ Hd).
    unfold show_nat. rewrite (parse_digits_first _ Hn).
    now rewrite DecimalNat.Unsigned.of_to. }
  rewrite <- Hp. unfold show_nat in *.
  destruct (Nat.to_uint n) eqn:E; [now destruct Hn|..];
    cbn [NilEmpty.string_of_uint] in *; now apply parseInt_after_digit.
Qed.

(** X19. A [POSTS_TO_SYNC] that is the decimal writing of a positive
    integer up to [2^53], the range in which a JavaScript number holds
    every integer exactly, is taken as that integer: the configuration
    built by [handleSync] has [postsToSync] equal to it, whatever the
    store holds. *)
Theorem postsToSync_reads_decimal :
  forall (env : Env) (stored : option string) (n : nat),
    0 < n ->
    (Z.of_nat n <= 2 ^ 53)%Z ->
    POSTS_TO_SYNC env = Some (show_nat n) ->
    postsToSync (make_config env stored) = Z.of_nat n.
Proof.
  intros env stored n Hn _ Hp. cbn [make_config postsToSync].
  rewrite Hp, parseInt_show_nat. cbn [number_or].
  destruct (Z.of_nat n =? 0)%Z eqn:E; [|reflexivity].
  apply Z.eqb_eq in E. lia.
Qed.

Lemma postsToSync_reads_decimal_witness :
  0 < 25
  /\ (Z.of_nat 25 <= 2 ^ 53)%Z
  /\ POSTS_TO_SYNC (demo_env (Some "25") (Some "true")) = Some (show_nat 25)
  /\ postsToSync (make_config (demo_env (Some "25") (Some "true")) None) = 25%Z.
Proof.
  split; [lia|]. split; [vm_compute; discriminate|]. split; [reflexivity|].
  apply (postsToSync_reads_decimal (demo_env (Some "25") (Some "true")) None 25);
    [lia|vm_compute; discriminate|reflexivity].
Defined.

(** ** How many calls a pass can make *)

Section Budget.
Context {W : Type} {RT : Runtime W}.
Variable P : event -> bool.

Lemma bind_ret_emitted {A B} (m : M W A) (f : A -> B) w :
  emitted (bind m (fun a => ret (f a)) w) = emitted (m w).
Proof.
  unfold bind, ret. run_of m w. destruct o; [|reflexivity].
  unfold emitted. cbn. apply app_nil_r.
Qed.

Lemma for_of_count {X} (body : X -> M W (option SyncedPost)) n xs :
  (forall x w, count_events P (emitted (body x w)) <= n) ->
  forall acc w,
    count_events P (emitted (for_of body xs acc w)) <= n * List.length xs.
Proof.
  intros Hbody. induction xs as [|x xs IH]; intros acc w.
  - cbn. lia.
  - rewrite for_of_step. specialize (Hbody x w). run_of (body x) w.
    specialize (IH (pushed_onto acc o) w0).
    destruct (for_of body xs _ w0) as [[o' evs'] w2].
    unfold emitted in *. cbn [fst snd List.length] in *.
    rewrite count_events_app. lia.
Qed.

Lemma mastodonRequest_one_call {J} svc
  (fetch : Request -> W -> Outcome (Response J) * W) ev endpoint method body
  limit w :
  (forall q o, P (ev q o) = true) ->
  count_events P
    (emitted (mastodonRequest svc fetch ev endpoint method body limit w)) = 1.
Proof.
  intros Hev. unfold mastodonRequest, bind, perform.
  destruct (fetch _ w) as [[r|e] w1]; unfold count_events.
  - destruct (negb (ok r)); cbn; now rewrite Hev.
  - cbn. now rewrite Hev.
Qed.

End Budget.

Section Calls.
Context {W : Type} {RT : Runtime W}.
Variable svc : SocialSyncService.

Lemma publish_to_mastodon_budget text w :
  count_events is_publish (emitted (publish_to_mastodon svc text w))
    <= default_retries.
Proof.
  apply retry_attempts; [|reflexivity].
  intros w'. now apply mastodonRequest_one_call.
Qed.

Lemma publish_to_bluesky_budget text w :
  count_events is_publish (emitted (publish_to_bluesky text w))
    <= default_retries.
Proof.
  apply retry_attempts; [|reflexivity].
  intros w'. unfold bind, now, perform. destruct (clock w') as [t w1].
  now destruct (bsky_post text t w1).
Qed.

Lemma bluesky_body_budget item w :
  count_events is_publish (emitted (bluesky_body svc item w))
    <= default_retries.
Proof.
  unfold bluesky_body.
  destruct (older_than_lastSync svc _); [cbn; lia|].
  destruct (this_ignoreReposts svc && _); [cbn; lia|].
  destruct (negb (this_dryRun svc)); [|cbn; lia].
  rewrite bind_ret_emitted, bind_ret_emitted.
  apply publish_to_mastodon_budget.
Qed.

Lemma mastodon_body_budget p w :
  count_events is_publish (emitted (mastodon_body svc p w))
    <= default_retries.
Proof.
  unfold mastodon_body.
  destruct (older_than_lastSync svc _); [cbn; lia|].
  destruct (this_ignoreReposts svc && _); [cbn; lia|].
  destruct (negb (String.eqb _ _)); [cbn; lia|].
  destruct (negb (this_dryRun svc)); [|cbn; lia].
  rewrite bind_ret_emitted, bind_ret_emitted.
  apply publish_to_bluesky_budget.
Qed.

End Calls.

(** X20. The calls of a pass are bounded.  Each of the two lists is
    requested at most three times (the first attempt and the retries of
    [withRateLimit]), and a loop makes at most three publish calls for
    each post of the list it is given, whatever the platforms answer. *)
Theorem call_budget :
  forall (W : Type) (RT : Runtime W) (svc : SocialSyncService),
    (forall w,
        count_events is_listing (emitted (fetch_feed svc w)) <= 3)
    /\ (forall w,
           count_events is_listing (emitted (fetch_timeline_posts svc w)) <= 3)
    /\ (forall feed acc w,
           count_events is_publish
             (emitted (for_of (bluesky_body svc) feed acc w))
             <= 3 * List.length feed)
    /\ (forall tl acc w,
           count_events is_publish
             (emitted (for_of (mastodon_body svc) tl acc w))
             <= 3 * List.length tl).
Proof.
  intros W RT svc. repeat split.
  - intros w. apply retry_attempts; [|reflexivity].
    intros w'. unfold perform. now destruct (bsky_getAuthorFeed _ _ w').
  - intros w. apply retry_attempts; [|reflexivity].
    intros w'. now apply mastodonRequest_one_call.
  - intros feed acc w. apply for_of_count. intros item w'.
    apply bluesky_body_budget.
  - intros tl acc w. apply for_of_count. intros p w'.
    apply mastodon_body_budget.
Qed.

(** ** A watermark that cannot be read as a date *)

Section NoWatermark.
Context {W : Type} {RT : Runtime W}.
Variable svc : SocialSyncService.
Variable ls : string.
Hypothesis stored : this_lastSync svc = Some ls.
Hypothesis unusable : truthy (Some ls) = false \/ date_value ls = None.

Lemma never_older t : older_than_lastSync svc t = false.
Proof.
  unfold older_than_lastSync. rewrite stored.
  destruct unusable as [H|H]; [now rewrite H|].
  unfold date_le. rewrite H.
  destruct (date_value t); apply andb_false_r.
Qed.

Lemma bluesky_body_forget item w :
  bluesky_body svc item w = bluesky_body (forget_lastSync svc) item w.
Proof. unfold bluesky_body. now rewrite never_older. Qed.

Lemma mastodon_body_forget p w :
  mastodon_body svc p w = mastodon_body (forget_lastSync svc) p w.
Proof. unfold mastodon_body. now rewrite never_older. Qed.

End NoWatermark.

(** X21. A watermark that is the empty string, or that [new Date] cannot
    read, filters nothing: the whole pass runs exactly as it does without
    a watermark, so every fetched post counts as new. *)
Theorem unreadable_watermark_is_no_watermark :
  forall (W : Type) (RT : Runtime W) (svc : SocialSyncService) (ls : string)
         (w : W),
    this_lastSync svc = Some ls ->
    truthy (Some ls) = false \/ date_value ls = None ->
    sync svc w = sync (forget_lastSync svc) w.
Proof.
  intros W RT svc ls w Hs Hu. unfold sync. rewrite !try_rethrow.
  apply bind_ext; [reflexivity|]. intros _ w1.
  apply bind_ext; [reflexivity|]. intros t w2.
  apply bind_ext.
  - intros w3. unfold syncFromBluesky. apply bind_ext; [reflexivity|].
    intros feed w4. apply for_of_ext.
    exact (bluesky_body_forget svc ls Hs Hu).
  - intros b w3. apply bind_ext; [|reflexivity].
    intros w4. unfold syncFromMastodon. apply bind_ext; [reflexivity|].
    intros tl w5. apply for_of_ext.
    exact (mastodon_body_forget svc ls Hs Hu).
Qed.

Lemma unreadable_watermark_is_no_watermark_witness :
  this_lastSync (constructor (demo_config true false (Some "yesterday")))
    = Some "yesterday"
  /\ date_value "yesterday" = None
  /\ sync (constructor (demo_config true false (Some "yesterday"))) one_each
     = sync (forget_lastSync
               (constructor (demo_config true false (Some "yesterday"))))
            one_each.
Proof.
  split; [reflexivity|]. split; [reflexivity|].
  apply (unreadable_watermark_is_no_watermark Scripted scripted_runtime
           (constructor (demo_config true false (Some "yesterday")))
           "yesterday" one_each);
    [reflexivity|right; reflexivity].
Defined.

(** ** Strings of running text *)


Lemma append_nil_r s : (s ++ EmptyString)%string = s.
Proof. induction s as [|c s IH]; cbn; [reflexivity|now rewrite IH]. Qed.

Lemma all_chars_app p x y :
  all_chars p (x ++ y) = all_chars p x && all_chars p y.
Proof.
  induction x as [|c x IH]; [reflexivity|]. cbn [append all_chars].
  now rewrite IH, andb_assoc.
Qed.

Lemma inline_not_lt c : inline_char c = true -> not_lt c = true.
Proof. unfold inline_char. intros H. apply andb_true_iff in H. now destruct H. Qed.

Lemma inline_dot c : inline_char c = true -> dot c = true.
Proof. unfold inline_char. intros H. apply andb_true_iff in H. now destruct H. Qed.

Lemma inline_not_nl c : inline_char c = true -> Ascii.eqb c nl = false.
Proof.
  intros H. apply inline_dot in H. unfold dot in H.
  apply andb_true_iff in H. destruct H as [H _]. now apply negb_true_iff in H.
Qed.

Lemma inline_text_not_lt a :
  all_chars inline_char a = true -> all_chars not_lt a = true.
Proof.
  induction a as [|c a IH]; [reflexivity|]. cbn [all_chars]. intros H.
  apply andb_true_iff in H. destruct H as [Hc Ha].
  now rewrite (inline_not_lt _ Hc), (IH Ha).
Qed.

Lemma not_lt_char_eq ci d : not_lt d = true -> char_eq ci lt d = false.
Proof.
  unfold not_lt. intros H. apply negb_true_iff in H.
  destruct (char_eq ci lt d) eqn:E; [|reflexivity].
  apply char_eq_lt in E. subst d. discriminate.
Qed.

(** ** Scanning with an expression that starts with [<] *)

Lemma no_match_at ci c r2 d s :
  char_eq ci c d = false -> mtch ci (Seq (Chr c) r2) (String d s) = [].
Proof. intros H. cbn [mtch]. now rewrite H. Qed.

Lemma no_match_at_second ci c1 c2 r d1 d2 s :
  char_eq ci c2 d2 = false ->
  mtch ci (Seq (Chr c1) (Seq (Chr c2) r)) (String d1 (String d2 s)) = [].
Proof.
  intros H. cbn [mtch]. destruct (char_eq ci c1 d1); [|reflexivity].
  cbn [flat_map]. now rewrite H.
Qed.

Lemma mtch_char_hit_ci ci c r2 s :
  mtch ci (Seq (Chr c) r2) (String c s) =
    map (fun m2 : mres =>
           match m2 with (b, rest, k) => (String c b, rest, k) end)
        (mtch ci r2 s).
Proof.
  cbn [mtch]. replace (char_eq ci c c) with true.
  - cbn [flat_map]. rewrite app_nil_r. apply map_ext. now intros [[b rest] k].
  - unfold char_eq. destruct ci; now rewrite Ascii.eqb_refl.
Qed.

Lemma replace_no_match ci r repl c t :
  mtch ci r (String c t) = [] ->
  replace_from ci r repl (String c t) 0
    = String c (replace_from ci r repl t 0).
Proof. intros H. cbn [replace_from]. now rewrite H. Qed.

Lemma replace_plain ci r2 repl x t :
  all_chars not_lt x = true ->
  replace_from ci (Seq (Chr lt) r2) repl (x ++ t) 0
    = (x ++ replace_from ci (Seq (Chr lt) r2) repl t 0)%string.
Proof.
  induction x as [|c x IH]; [reflexivity|]. cbn [all_chars append]. intros H.
  apply andb_true_iff in H. destruct H as [Hc Hx].
  rewrite replace_no_match by (apply no_match_at, not_lt_char_eq, Hc).
  now rewrite (IH Hx).
Qed.

Lemma replace_skips_over ci r repl m t :
  replace_from ci r repl (m ++ t) (String.length m)
    = replace_from ci r repl t 0.
Proof. induction m as [|c m IH]; [reflexivity|exact IH]. Qed.

Lemma replace_match ci r repl c m t k l :
  mtch ci r (String c m ++ t) = (String c m, t, k) :: l ->
  replace_from ci r repl (String c m ++ t) 0
    = (repl k ++ replace_from ci r repl t 0)%string.
Proof.
  intros H. cbn [append] in *. cbn [replace_from]. rewrite H.
  cbn [String.length]. now rewrite replace_skips_over.
Qed.

Lemma replace_end ci r repl :
  mtch ci r EmptyString = [] -> replace_from ci r repl EmptyString 0 = EmptyString.
Proof. intros H. cbn [replace_from]. now rewrite H. Qed.

(** ** The paragraph rule *)

Lemma grouped_mtch r s :
  mtch true (Seq (Group 1 (Star false dot)) r) s
    = grouped r (star_splits false dot s).
Proof. reflexivity. Qed.

Lemma grouped_cons r x t sp :
  grouped r ((x, t) :: sp) =
    map (fun m2 : mres =>
           match m2 with (b, rest', k2) => ((x ++ b)%string, rest', (1, x) :: k2) end)
        (mtch true r t) ++ grouped r sp.
Proof. reflexivity. Qed.

Lemma grouped_longer r c sp : forall y rest cap l,
  grouped r sp = (y, rest, [(1, cap)]) :: l ->
  exists l',
    grouped r (map (fun ab => (String c (fst ab), snd ab)) sp)
      = (String c y, rest, [(1, String c cap)]) :: l'.
Proof.
  induction sp as [|[x t] sp IH]; intros y rest cap l; [discriminate|].
  cbn [map fst snd]. rewrite !grouped_cons.
  destruct (mtch true r t) as [|[[b rest'] k2] ms]; cbn [map app].
  - apply IH.
  - intros [= <- <- <- <- _]. eexists. reflexivity.
Qed.

Lemma grouped_longer_none r c sp :
  grouped r sp = [] ->
  grouped r (map (fun ab => (String c (fst ab), snd ab)) sp) = [].
Proof.
  induction sp as [|[x t] sp IH]; [reflexivity|].
  cbn [map fst snd]. rewrite !grouped_cons. intros H.
  apply app_eq_nil in H. destruct H as [H1 H2]. apply map_eq_nil in H1.
  now rewrite H1, (IH H2).
Qed.

(** The lazy group stops at the first closing tag. *)
Lemma lazy_group_stops a t :
  all_chars inline_char a = true ->
  exists l,
    mtch true (Seq (Group 1 (Star false dot)) close_p) (a ++ "</p>" ++ t)
      = ((a ++ "</p>")%string, t, [(1, a)]) :: l.
Proof.
  induction a as [|c a IH]; intros Ha.
  - rewrite grouped_mtch. cbn [append star_splits].
    change (dot "<") with true. cbv iota. rewrite grouped_cons.
    unfold close_p at 1. cbn [seqs lit]. rewrite !mtch_char_hit_ci.
    cbn [mtch char_eq]. rewrite Ascii.eqb_refl. cbn [map app append].
    eexists. reflexivity.
  - cbn [all_chars] in Ha. apply andb_true_iff in Ha. destruct Ha as [Hc Ha].
    destruct (IH Ha) as [l Hl]. clear IH.
    rewrite grouped_mtch in *. cbn [append star_splits].
    rewrite (inline_dot _ Hc), grouped_cons.
    unfold close_p at 1. cbn [seqs lit].
    rewrite no_match_at by (apply not_lt_char_eq, inline_not_lt, Hc).
    cbn [map app]. now apply (grouped_longer _ c _ _ _ _ l).
Qed.

(** The lazy group does not cross a newline. *)
Lemma lazy_group_blocked a t :
  all_chars inline_char a = true ->
  mtch true (Seq (Group 1 (Star false dot)) close_p) (a ++ String nl t) = [].
Proof.
  rewrite grouped_mtch. induction a as [|c a IH]; intros Ha.
  - reflexivity.
  - cbn [all_chars] in Ha. apply andb_true_iff in Ha. destruct Ha as [Hc Ha].
    cbn [append star_splits]. rewrite (inline_dot _ Hc), grouped_cons.
    unfold close_p at 1. cbn [seqs lit].
    rewrite no_match_at by (apply not_lt_char_eq, inline_not_lt, Hc).
    cbn [map app]. now apply grouped_longer_none, IH.
Qed.

Lemma re_p_unfold :
  re_p = Seq (Chr "<") (Seq (Chr "p") (Seq (Chr ">")
           (Seq (Group 1 (Star false dot)) close_p))).
Proof. reflexivity. Qed.

Lemma p_rule_match a t :
  all_chars inline_char a = true ->
  exists l,
    mtch true re_p (paragraph a ++ t) = (paragraph a, t, [(1, a)]) :: l.
Proof.
  intros Ha. destruct (lazy_group_stops a t Ha) as [l Hl].
  rewrite re_p_unfold. unfold paragraph.
  rewrite !append_assoc'. cbn [append].
  rewrite !mtch_char_hit_ci. cbn [append] in Hl. rewrite Hl.
  cbn [map]. eexists. reflexivity.
Qed.

Lemma p_rule_step repl a t :
  all_chars inline_char a = true ->
  replace_from true re_p repl (paragraph a ++ t) 0
    = (repl [(1, a)] ++ replace_from true re_p repl t 0)%string.
Proof.
  intros Ha. destruct (p_rule_match a t Ha) as [l Hm].
  exact (replace_match true re_p repl "<" _ t _ l Hm).
Qed.

Lemma p_rule_on_paragraphs ps :
  forallb (all_chars inline_char) ps = true ->
  replace_all true re_p (fun k => cap 1 k ++ newline ++ newline)%string
    (paragraphs ps) = blocks ps.
Proof.
  unfold replace_all. induction ps as [|a ps IH]; [reflexivity|].
  cbn [forallb paragraphs blocks]. intros H.
  apply andb_true_iff in H. destruct H as [Ha Hps].
  rewrite (p_rule_step _ a _ Ha), (IH Hps).
  cbn [cap Nat.eqb]. now rewrite !append_assoc'.
Qed.

(** An expression [<], [c], ... with [c] neither [p] nor [/] matches
    nowhere in a sequence of paragraphs. *)
Lemma paragraphs_untouched ci c r repl ps :
  char_eq ci c "p" = false -> char_eq ci c "/" = false ->
  forallb (all_chars inline_char) ps = true ->
  mtch ci (Seq (Chr lt) (Seq (Chr c) r)) EmptyString = [] ->
  replace_from ci (Seq (Chr lt) (Seq (Chr c) r)) repl (paragraphs ps) 0
    = paragraphs ps.
Proof.
  intros Hp Hs Hps Hend. induction ps as [|a ps IH].
  - now apply replace_end.
  - cbn [forallb] in Hps. apply andb_true_iff in Hps. destruct Hps as [Ha Hps].
    cbn [paragraphs]. unfold paragraph.
    rewrite !append_assoc'. cbn [append].
    rewrite replace_no_match by now apply no_match_at_second.
    rewrite !replace_no_match
      by (apply no_match_at, not_lt_char_eq; reflexivity).
    rewrite replace_plain by now apply inline_text_not_lt.
    rewrite replace_no_match by now apply no_match_at_second.
    rewrite !replace_no_match
      by (apply no_match_at, not_lt_char_eq; reflexivity).
    now rewrite (IH Hps).
Qed.

Lemma replace_plain_all ci r2 repl x :
  all_chars not_lt x = true ->
  mtch ci (Seq (Chr lt) r2) EmptyString = [] ->
  replace_from ci (Seq (Chr lt) r2) repl x 0 = x.
Proof.
  intros Hx Hend. rewrite <- (append_nil_r x) at 1.
  rewrite (replace_plain _ _ _ _ _ Hx), replace_end by exact Hend.
  apply append_nil_r.
Qed.

Lemma plain_no_tag x t :
  all_chars not_lt x = true -> has_tag t = false -> has_tag (x ++ t) = false.
Proof.
  intros Hx Ht. induction x as [|c x IH]; [exact Ht|].
  cbn [all_chars] in Hx. apply andb_true_iff in Hx. destruct Hx as [Hc Hx].
  unfold not_lt in Hc. apply negb_true_iff in Hc.
  cbn [append has_tag]. now rewrite Hc, (IH Hx).
Qed.

Lemma blocks_not_lt ps :
  forallb (all_chars inline_char) ps = true -> all_chars not_lt (blocks ps) = true.
Proof.
  induction ps as [|a ps IH]; [reflexivity|]. cbn [forallb blocks]. intros H.
  apply andb_true_iff in H. destruct H as [Ha Hps].
  rewrite !all_chars_app, (inline_text_not_lt _ Ha), (IH Hps). reflexivity.
Qed.

Lemma blocks_no_tag ps :
  forallb (all_chars inline_char) ps = true -> has_tag (blocks ps) = false.
Proof.
  intros H. rewrite <- (append_nil_r (blocks ps)).
  apply plain_no_tag; [now apply blocks_not_lt|reflexivity].
Qed.

(** ** The newline rule on running text *)

Lemma squeeze_inline_any k y :
  all_chars inline_char y = true -> squeeze_newlines k y = y.
Proof.
  revert k. induction y as [|c y IH]; intros k; [reflexivity|].
  cbn [all_chars squeeze_newlines]. intros H.
  apply andb_true_iff in H. destruct H as [Hc Hy].
  now rewrite (inline_not_nl _ Hc), (IH 0 Hy).
Qed.

Lemma squeeze_inline_then a t :
  all_chars inline_char a = true ->
  squeeze_newlines 0 (a ++ String nl t)
    = (a ++ String nl (squeeze_newlines 1 t))%string.
Proof.
  induction a as [|c a IH]; [reflexivity|]. cbn [all_chars]. intros H.
  apply andb_true_iff in H. destruct H as [Hc Ha].
  cbn [append squeeze_newlines]. now rewrite (inline_not_nl _ Hc), (IH Ha).
Qed.

Lemma squeeze_trailing x : forall k,
  exists t,
    all_chars is_ws t = true
    /\ squeeze_newlines k (x ++ newline ++ newline)
       = (squeeze_newlines k x ++ t)%string.
Proof.
  induction x as [|c x IH]; intros k.
  - destruct k as [|[|k]]; eexists; split; try reflexivity; reflexivity.
  - cbn [append squeeze_newlines].
    destruct (Ascii.eqb c nl); [destruct (Nat.ltb k 2)|].
    + destruct (IH (S k)) as (t & Ht & ->). now exists t.
    + apply IH.
    + destruct (IH 0) as (t & Ht & ->). now exists t.
Qed.

Lemma trimStart_ws t : all_chars is_ws t = true -> trimStart t = EmptyString.
Proof.
  induction t as [|c t IH]; [reflexivity|]. cbn [all_chars trimStart].
  intros H. apply andb_true_iff in H. destruct H as [Hc Ht].
  rewrite Hc. exact (IH Ht).
Qed.

Lemma trimEnd_ws t : all_chars is_ws t = true -> trimEnd t = EmptyString.
Proof.
  induction t as [|c t IH]; [reflexivity|]. cbn [all_chars trimEnd].
  intros H. apply andb_true_iff in H. destruct H as [Hc Ht].
  now rewrite (IH Ht), Hc.
Qed.

Lemma trimEnd_app_ws x t :
  all_chars is_ws t = true -> trimEnd (x ++ t) = trimEnd x.
Proof.
  intros Ht. induction x as [|c x IH]; [now apply trimEnd_ws|].
  cbn [append trimEnd]. now rewrite IH.
Qed.

Lemma trimStart_app a t :
  trimStart (a ++ t) =
    match trimStart a with
    | EmptyString => trimStart t
    | u => (u ++ t)%string
    end.
Proof.
  induction a as [|c a IH]; [reflexivity|]. cbn [append trimStart].
  destruct (is_ws c); [exact IH|reflexivity].
Qed.

Lemma trim_app_ws a t : all_chars is_ws t = true -> trim (a ++ t) = trim a.
Proof.
  intros Ht. unfold trim. rewrite trimStart_app.
  destruct (trimStart a) as [|c u].
  - now rewrite (trimStart_ws _ Ht).
  - now apply trimEnd_app_ws.
Qed.

(** Squeezing and trimming forget a blank line at the end. *)
Lemma trim_squeeze_trailing x :
  trim (squeeze_newlines 0 (x ++ newline ++ newline))
    = trim (squeeze_newlines 0 x).
Proof.
  destruct (squeeze_trailing x 0) as (t & Ht & ->). now apply trim_app_ws.
Qed.

(** ** The rules on paragraphs *)

Lemma clean_paragraphs ps :
  forallb (all_chars inline_char) ps = true ->
  cleanMastodonContent (paragraphs ps) = trim (squeeze_newlines 0 (blocks ps)).
Proof.
  intros Hps. pose proof (blocks_no_tag ps Hps) as Ht.
  unfold cleanMastodonContent.
  replace (replace_all true re_br (fun _ => newline) (paragraphs ps))
    with (paragraphs ps)
    by (symmetry; now apply (paragraphs_untouched true "b")).
  rewrite (p_rule_on_paragraphs ps Hps).
  rewrite (replace_without_tag true re_a _ _ eq_refl Ht).
  rewrite (replace_without_tag false re_tag _ _ eq_refl Ht).
  now rewrite newline_rule_squeezes.
Qed.

(** X22. Paragraphs of running text (no [<], no line terminator) are
    unwrapped: a sequence of paragraph elements becomes the texts, each
    followed by a blank line, with runs of newlines cut down and the ends
    trimmed.  So one paragraph gives its trimmed text, and two paragraphs
    give the two texts separated by one blank line. *)
Theorem paragraphs_are_unwrapped :
  (forall ps : list string,
      forallb (all_chars inline_char) ps = true ->
      cleanMastodonContent (paragraphs ps)
        = trim (squeeze_newlines 0 (blocks ps)))
  /\ (forall a : string,
         all_chars inline_char a = true ->
         cleanMastodonContent (paragraph a) = trim a)
  /\ (forall a b : string,
         all_chars inline_char a = true ->
         all_chars inline_char b = true ->
         cleanMastodonContent (paragraph a ++ paragraph b)
           = trim (a ++ newline ++ newline ++ b)).
Proof.
  split; [exact clean_paragraphs|]. split.
  - intros a Ha.
    assert (Hps : forallb (all_chars inline_char) [a] = true)
      by (cbn [forallb]; now rewrite Ha).
    pose proof (clean_paragraphs [a] Hps) as H.
    cbn [paragraphs blocks] in H. rewrite !append_nil_r in H. rewrite H.
    rewrite trim_squeeze_trailing. now rewrite squeeze_inline_any.
  - intros a b Ha Hb.
    assert (Hps : forallb (all_chars inline_char) [a; b] = true)
      by (cbn [forallb]; now rewrite Ha, Hb).
    pose proof (clean_paragraphs [a; b] Hps) as H.
    cbn [paragraphs blocks] in H. rewrite !append_nil_r in H. rewrite H.
    replace (a ++ newline ++ newline ++ b ++ newline ++ newline)%string
      with ((a ++ newline ++ newline ++ b) ++ newline ++ newline)%string
      by now rewrite !append_assoc'.
    rewrite trim_squeeze_trailing. unfold newline. cbn [append].
    rewrite (squeeze_inline_then a _ Ha).
    change (squeeze_newlines 1 (String nl b))
      with (String nl (squeeze_newlines 2 b)).
    now rewrite (squeeze_inline_any 2 b Hb).
Qed.

Lemma paragraphs_are_unwrapped_witness :
  all_chars inline_char " 2 > 1, said @jerdog " = true
  /\ all_chars inline_char "bye" = true
  /\ cleanMastodonContent "<p> 2 > 1, said @jerdog </p>" = "2 > 1, said @jerdog"
  /\ cleanMastodonContent "<p>hi</p><p>bye</p>"
     = trim ("hi" ++ newline ++ newline ++ "bye").
Proof.
  destruct paragraphs_are_unwrapped as (_ & Hone & Htwo).
  split; [reflexivity|]. split; [reflexivity|]. split.
  - exact (Hone " 2 > 1, said @jerdog " eq_refl).
  - exact (Htwo "hi" "bye" eq_refl eq_refl).
Defined.

(** ** A line break inside a paragraph *)

Lemma br_match br t :
  is_br br = true ->
  exists c m l,
    br = String c m /\ mtch true re_br (br ++ t) = (br, t, []) :: l.
Proof.
  unfold is_br. intros H.
  apply orb_true_iff in H. destruct H as [H|H];
    [apply orb_true_iff in H; destruct H as [H|H]|];
    apply String.eqb_eq in H; subst br;
    do 3 eexists; (split; [reflexivity|]); vm_compute; reflexivity.
Qed.

Lemma re_br_unfold :
  re_br = Seq (Chr lt) (Seq (Chr "b") (Seq (Chr "r")
            (Seq (Star true is_ws) (Seq (Opt (Chr "/")) (Chr gt))))).
Proof. reflexivity. Qed.

Lemma re_a_starts : exists r, re_a = Seq (Chr lt) (Seq (Chr "a") r).
Proof. eexists. reflexivity. Qed.

Lemma re_tag_unfold :
  re_tag = Seq (Chr lt) (Seq (Star true (not_char gt)) (Chr gt)).
Proof. reflexivity. Qed.

Ltac keep_chars :=
  rewrite !replace_no_match
    by (apply no_match_at, not_lt_char_eq; reflexivity).

Lemma br_rule_in_paragraph br a b ps :
  is_br br = true ->
  all_chars inline_char a = true -> all_chars inline_char b = true ->
  forallb (all_chars inline_char) ps = true ->
  replace_all true re_br (fun _ => newline)
    (paragraph (a ++ br ++ b) ++ paragraphs ps)
  = ("<p>" ++ a ++ newline ++ b ++ "</p>" ++ paragraphs ps)%string.
Proof.
  intros Hbr Ha Hb Hps. destruct (br_match br (b ++ "</p>" ++ paragraphs ps) Hbr)
    as (c & m & l & Ec & Hm).
  unfold replace_all, paragraph. rewrite !append_assoc'. cbn [append].
  rewrite re_br_unfold in *.
  rewrite replace_no_match by now apply no_match_at_second.
  keep_chars.
  rewrite replace_plain by now apply inline_text_not_lt.
  rewrite Ec in Hm |- *.
  rewrite (replace_match _ _ _ _ _ _ _ _ Hm).
  rewrite replace_plain by now apply inline_text_not_lt.
  cbn [append].
  rewrite replace_no_match by now apply no_match_at_second.
  keep_chars.
  now rewrite (paragraphs_untouched true "b").
Qed.

Lemma newline_app t : (newline ++ t)%string = String nl t.
Proof. reflexivity. Qed.

Lemma p_rule_blocked a t :
  all_chars inline_char a = true ->
  mtch true re_p (String "<" (String "p" (String ">" (a ++ String nl t)))) = [].
Proof.
  intros Ha. rewrite re_p_unfold, !mtch_char_hit_ci.
  now rewrite (lazy_group_blocked a t Ha).
Qed.

Lemma p_rule_after_break a b ps :
  all_chars inline_char a = true -> all_chars inline_char b = true ->
  forallb (all_chars inline_char) ps = true ->
  replace_all true re_p (fun k => cap 1 k ++ newline ++ newline)%string
    ("<p>" ++ a ++ newline ++ b ++ "</p>" ++ paragraphs ps)
  = ("<p>" ++ a ++ newline ++ b ++ "</p>" ++ blocks ps)%string.
Proof.
  intros Ha Hb Hps. pose proof (p_rule_on_paragraphs ps Hps) as Hrest.
  unfold replace_all in *. set (repl := fun k : caps => _) in *.
  cbn [append]. rewrite !newline_app.
  rewrite replace_no_match by now apply p_rule_blocked.
  rewrite re_p_unfold in *.
  keep_chars.
  rewrite replace_plain by now apply inline_text_not_lt.
  keep_chars.
  rewrite replace_plain by now apply inline_text_not_lt.
  cbn [append].
  rewrite replace_no_match by now apply no_match_at_second.
  keep_chars.
  change (Chr "<") with (Chr lt) in Hrest. now rewrite Hrest.
Qed.

Lemma a_rule_after_break repl a b ps :
  all_chars inline_char a = true -> all_chars inline_char b = true ->
  forallb (all_chars inline_char) ps = true ->
  replace_all true re_a repl ("<p>" ++ a ++ newline ++ b ++ "</p>" ++ blocks ps)
  = ("<p>" ++ a ++ newline ++ b ++ "</p>" ++ blocks ps)%string.
Proof.
  intros Ha Hb Hps. destruct re_a_starts as [r ->].
  unfold replace_all. cbn [append]. rewrite !newline_app.
  rewrite replace_no_match by now apply no_match_at_second.
  keep_chars.
  rewrite replace_plain by now apply inline_text_not_lt.
  keep_chars.
  rewrite replace_plain by now apply inline_text_not_lt.
  cbn [append].
  rewrite replace_no_match by now apply no_match_at_second.
  keep_chars.
  now rewrite replace_plain_all by (try reflexivity; now apply blocks_not_lt).
Qed.

Lemma tag_rule_after_break a b ps :
  all_chars inline_char a = true -> all_chars inline_char b = true ->
  forallb (all_chars inline_char) ps = true ->
  replace_all false re_tag (fun _ => EmptyString)
    ("<p>" ++ a ++ newline ++ b ++ "</p>" ++ blocks ps)
  = (a ++ newline ++ b ++ blocks ps)%string.
Proof.
  intros Ha Hb Hps. unfold replace_all. rewrite !newline_app.
  assert (Hopen : forall t, exists l,
             mtch false re_tag ("<p>" ++ t) = ("<p>", t, []) :: l).
  { intros t. eexists. vm_compute. reflexivity. }
  assert (Hclose : forall t, exists l,
             mtch false re_tag ("</p>" ++ t) = ("</p>", t, []) :: l).
  { intros t. eexists. vm_compute. reflexivity. }
  destruct (Hopen (a ++ String nl (b ++ "</p>" ++ blocks ps))%string)
    as [l1 H1].
  destruct (Hclose (blocks ps)) as [l2 H2].
  cbn [append] in *.
  rewrite (replace_match _ _ _ "<" "p>" _ _ _ H1).
  rewrite re_tag_unfold in *.
  rewrite replace_plain by now apply inline_text_not_lt.
  keep_chars.
  rewrite replace_plain by now apply inline_text_not_lt.
  rewrite (replace_match _ _ _ "<" "/p>" _ _ _ H2).
  now rewrite replace_plain_all by (try reflexivity; now apply blocks_not_lt).
Qed.

Lemma clean_with_break br a b ps :
  is_br br = true ->
  all_chars inline_char a = true -> all_chars inline_char b = true ->
  forallb (all_chars inline_char) ps = true ->
  cleanMastodonContent (paragraph (a ++ br ++ b) ++ paragraphs ps)
    = trim (squeeze_newlines 0 (a ++ newline ++ b ++ blocks ps)).
Proof.
  intros Hbr Ha Hb Hps. unfold cleanMastodonContent.
  rewrite (br_rule_in_paragraph br a b ps Hbr Ha Hb Hps).
  rewrite (p_rule_after_break a b ps Ha Hb Hps).
  rewrite (a_rule_after_break _ a b ps Ha Hb Hps).
  rewrite (tag_rule_after_break a b ps Ha Hb Hps).
  now rewrite newline_rule_squeezes.
Qed.

(** X23. A line break ([<br>], [<br/>] or [<br />]) inside a paragraph
    becomes one newline, and that paragraph then loses its blank line:
    the paragraph rule runs after the line-break rule and its [.*?] does
    not cross a newline, so only the generic tag rule removes the
    paragraph's tags.  The text of the next paragraph follows the broken
    one directly. *)
Theorem line_break_runs_paragraphs_together :
  forall (br a b : string),
    is_br br = true ->
    all_chars inline_char a = true ->
    all_chars inline_char b = true ->
    (forall ps : list string,
        forallb (all_chars inline_char) ps = true ->
        cleanMastodonContent (paragraph (a ++ br ++ b) ++ paragraphs ps)
          = trim (squeeze_newlines 0 (a ++ newline ++ b ++ blocks ps)))
    /\ cleanMastodonContent (paragraph (a ++ br ++ b))
       = trim (a ++ newline ++ b)
    /\ (forall c : string,
           all_chars inline_char c = true ->
           cleanMastodonContent (paragraph (a ++ br ++ b) ++ paragraph c)
             = trim (a ++ newline ++ b ++ c)).
Proof.
  intros br a b Hbr Ha Hb. split; [|split].
  - intros ps Hps. now apply clean_with_break.
  - pose proof (clean_with_break br a b [] Hbr Ha Hb eq_refl) as H.
    cbn [paragraphs blocks] in H. rewrite !append_nil_r in H. rewrite H.
    unfold newline. cbn [append]. rewrite (squeeze_inline_then a _ Ha).
    now rewrite (squeeze_inline_any 1 b Hb).
  - intros c Hc.
    assert (Hps : forallb (all_chars inline_char) [c] = true)
      by (cbn [forallb]; now rewrite Hc).
    pose proof (clean_with_break br a b [c] Hbr Ha Hb Hps) as H.
    cbn [paragraphs blocks] in H. rewrite !append_nil_r in H. rewrite H.
    replace (a ++ newline ++ b ++ c ++ newline ++ newline)%string
      with ((a ++ newline ++ b ++ c) ++ newline ++ newline)%string
      by now rewrite !append_assoc'.
    rewrite trim_squeeze_trailing. unfold newline. cbn [append].
    rewrite (squeeze_inline_then a _ Ha).
    rewrite (squeeze_inline_any 1 (b ++ c)); [reflexivity|].
    now rewrite all_chars_app, Hb, Hc.
Qed.

Lemma line_break_runs_paragraphs_together_witness :
  is_br "<br />" = true
  /\ all_chars inline_char "one" = true
  /\ cleanMastodonContent "<p>one<br />two</p><p>three</p>"
     = ("one" ++ newline ++ "twothree")%string.
Proof.
  destruct (line_break_runs_paragraphs_together "<br />" "one" "two"
              eq_refl eq_refl eq_refl) as (_ & _ & H).
  split; [reflexivity|]. split; [reflexivity|].
  exact (H "three" eq_refl).
Defined.

(** ** Plain text through [cleanMastodonContent] *)

Lemma Dropped_refl P s : Dropped P s s.
Proof. induction s; constructor; assumption. Qed.

Lemma Dropped_has_char P c t s :
  P c = false -> Dropped P t s -> has_char c s = true -> has_char c t = true.
Proof.
  intros Hc. induction 1 as [|d t s Hd HD IH|d t s HD IH]; cbn [has_char];
    intros H.
  - discriminate.
  - apply orb_true_iff in H. destruct H as [H|H]; [|now apply IH].
    apply Ascii.eqb_eq in H. subst d. congruence.
  - apply orb_true_iff in H. destruct H as [H|H]; [now rewrite H|].
    rewrite (IH H). apply orb_true_r.
Qed.

(** Removing characters other than [<] and [>] removes no tag. *)
Lemma Dropped_has_tag P t s :
  P lt = false -> P gt = false ->
  Dropped P t s -> has_tag s = true -> has_tag t = true.
Proof.
  intros Hlt Hgt. induction 1 as [|d t s Hd HD IH|d t s HD IH]; cbn [has_tag];
    intros H.
  - discriminate.
  - apply orb_true_iff in H. destruct H as [H|H]; [|now apply IH].
    apply andb_true_iff in H. destruct H as [H _].
    apply Ascii.eqb_eq in H. subst d. congruence.
  - apply orb_true_iff in H. destruct H as [H|H].
    + apply andb_true_iff in H. destruct H as [Hc Hg].
      now rewrite Hc, (Dropped_has_char P gt _ _ Hgt HD Hg).
    + rewrite (IH H). apply orb_true_r.
Qed.

Lemma squeeze_Dropped s : forall k,
  Dropped (fun c => Ascii.eqb c nl) (squeeze_newlines k s) s.
Proof.
  induction s as [|c s IH]; intros k; cbn [squeeze_newlines]; [constructor|].
  destruct (Ascii.eqb c nl) eqn:Hc; [destruct (Nat.ltb k 2)|].
  - apply dropped_keep, IH.
  - apply dropped_drop; [exact Hc|apply IH].
  - apply dropped_keep, IH.
Qed.

Lemma trimStart_Dropped s : Dropped is_ws (trimStart s) s.
Proof.
  induction s as [|c s IH]; cbn [trimStart]; [constructor|].
  destruct (is_ws c) eqn:Hc; [now apply dropped_drop|apply Dropped_refl].
Qed.

Lemma trimEnd_Dropped s : Dropped is_ws (trimEnd s) s.
Proof.
  induction s as [|c s IH]; [constructor|]. rewrite trimEnd_cons.
  destruct (trimEnd s) as [|d t].
  - destruct (is_ws c) eqn:Hc; [now apply dropped_drop|now apply dropped_keep].
  - now apply dropped_keep.
Qed.

Lemma trim_keeps_tag s : has_tag s = true -> has_tag (trim s) = true.
Proof.
  intros H. unfold trim.
  apply (Dropped_has_tag is_ws _ _ eq_refl eq_refl (trimEnd_Dropped _)).
  now apply (Dropped_has_tag is_ws _ _ eq_refl eq_refl (trimStart_Dropped _)).
Qed.

Lemma squeeze_keeps_tag k s :
  has_tag s = true -> has_tag (squeeze_newlines k s) = true.
Proof.
  apply (Dropped_has_tag (fun c => Ascii.eqb c nl) _ _ eq_refl eq_refl
           (squeeze_Dropped s k)).
Qed.

Lemma clean_no_tag s : has_tag (cleanMastodonContent s) = false.
Proof. destruct (clean_last_rules s) as [t ->]. apply last_rules_no_tag. Qed.

(** C9, as amended.  The code takes for a tag every [<] that is followed
    somewhere by a [>].  On an input without such a pair the first four
    rules change nothing: the result is the input with every run of
    three or more newlines cut down to two, then trimmed, and it is the
    input unchanged except for trimming when the input has no such run.
    On an input with such a pair the result is neither: what lies
    between is removed.  So the result is the input unchanged except for
    trimming exactly when the input has no such pair and cutting its
    runs of newlines changes nothing that trimming leaves. *)
Theorem plain_text_normalization :
  forall s : string,
    (has_tag s = false ->
       cleanMastodonContent s = trim (squeeze_newlines 0 s)
       /\ (has_blank_run s = false -> cleanMastodonContent s = trim s))
    /\ (has_tag s = true ->
          cleanMastodonContent s <> trim (squeeze_newlines 0 s)
          /\ cleanMastodonContent s <> trim s)
    /\ (cleanMastodonContent s = trim s <->
          has_tag s = false /\ trim (squeeze_newlines 0 s) = trim s).
Proof.
  intros s.
  assert (Hplain : has_tag s = false ->
                   cleanMastodonContent s = trim (squeeze_newlines 0 s)).
  { intros Hs. unfold cleanMastodonContent.
    rewrite (replace_without_tag true re_br _ s eq_refl Hs).
    rewrite (replace_without_tag true re_p _ s eq_refl Hs).
    rewrite (replace_without_tag true re_a _ s eq_refl Hs).
    rewrite (replace_without_tag false re_tag _ s eq_refl Hs).
    now rewrite newline_rule_squeezes. }
  assert (Htag : has_tag s = true ->
                 cleanMastodonContent s <> trim (squeeze_newlines 0 s)
                 /\ cleanMastodonContent s <> trim s).
  { intros Hs. pose proof (clean_no_tag s) as Hc. split; intros Heq.
    - rewrite Heq, (trim_keeps_tag _ (squeeze_keeps_tag 0 s Hs)) in Hc.
      discriminate.
    - rewrite Heq, (trim_keeps_tag s Hs) in Hc. discriminate. }
  split; [|split; [exact Htag|]].
  - intros Hs. split; [now apply Hplain|].
    intros Hrun. unfold cleanMastodonContent.
    rewrite (replace_without_tag true re_br _ s eq_refl Hs).
    rewrite (replace_without_tag true re_p _ s eq_refl Hs).
    rewrite (replace_without_tag true re_a _ s eq_refl Hs).
    rewrite (replace_without_tag false re_tag _ s eq_refl Hs).
    now rewrite replace_without_blank_run.
  - split.
    + intros Heq. destruct (has_tag s) eqn:Hs.
      * now destruct (Htag eq_refl) as [_ Hne].
      * split; [reflexivity|]. now rewrite <- (Hplain eq_refl).
    + intros [Hs Hsq]. now rewrite (Hplain Hs).
Qed.

(** C9 as stated fails twice.  The first text has no markup and nothing
    to trim, and yet it is changed: its three newlines become two.  The
    second has no markup either, no [<] there starts a tag of HTML, and
    yet the code takes [< 2 >] for a tag and removes it. *)
Lemma plain_text_normalization_counterexample :
  (has_html_tag three_blank_lines = false
   /\ has_tag three_blank_lines = false
   /\ trim three_blank_lines = three_blank_lines
   /\ cleanMastodonContent three_blank_lines
      = ("a" ++ newline ++ newline ++ "b")%string
   /\ cleanMastodonContent three_blank_lines <> trim three_blank_lines)
  /\ (has_html_tag comparison = false
      /\ trim comparison = comparison
      /\ cleanMastodonContent comparison = "1  1"
      /\ cleanMastodonContent comparison <> trim comparison).
Proof.
  split.
  - split; [reflexivity|]. split; [reflexivity|]. split; [reflexivity|].
    split; [reflexivity|]. vm_compute. discriminate.
  - split; [reflexivity|]. split; [reflexivity|]. split; [reflexivity|].
    vm_compute. discriminate.
Qed.

Lemma plain_text_normalization_witness :
  has_tag padded_lines = false
  /\ cleanMastodonContent padded_lines = trim (squeeze_newlines 0 padded_lines)
  /\ has_tag " b > a and 1 < 2 " = false
  /\ has_blank_run " b > a and 1 < 2 " = false
  /\ cleanMastodonContent " b > a and 1 < 2 " = trim " b > a and 1 < 2 "
  /\ has_tag comparison = true
  /\ cleanMastodonContent comparison <> trim comparison.
Proof.
  destruct (plain_text_normalization padded_lines) as (Hpad & _ & _).
  destruct (plain_text_normalization " b > a and 1 < 2 ") as (Hplain & _ & _).
  destruct (plain_text_normalization comparison) as (_ & Hcmp & _).
  split; [reflexivity|]. split; [exact (proj1 (Hpad eq_refl))|].
  split; [reflexivity|]. split; [reflexivity|].
  split; [exact (proj2 (Hplain eq_refl) eq_refl)|].
  split; [reflexivity|]. exact (proj2 (Hcmp eq_refl)).
Defined.
